(** * Moderated chat relay: a shallow embedding of the message pipeline

    The development follows the backend sources
    [backend/src/socketHandler.js], [backend/src/moderationService.js],
    [backend/src/aiService.js] and [backend/src/config.js].

    Conventions of the embedding:
    - a JavaScript string is a [string] (one [ascii] per code unit, so the
      embedding is exact for Latin-1 text);
    - a JavaScript number is an exact rational or [NaN] (rounding and the
      infinities are not represented);
    - [Date.now()] is an integer number of milliseconds; the readings of a
      handler run are passed in with its event, and a timestamp is the
      reading itself rather than its ISO rendering;
    - a [Map] keyed by socket id is a [gmap string _];
    - a function that can throw returns a [result];
    - the remote services (the moderation upstream, the chat-completion
      provider) are the fields of a record [World]; the ECMAScript
      built-ins that are not re-implemented here ([JSON.parse], [ToNumber]
      on strings and objects, the two regular-expression replacements of
      the message handler) are the fields of a record [Builtins];
    - a handler runs from its event to its end without another handler in
      between: the [await]s inside a handler are not interleaved, and the AI
      turn queued with [setImmediate] is an event of its own, run later;
    - logging is left out. *)

From Stdlib Require Import ZArith QArith Qround Qabs String Ascii List Bool Lia.
From stdpp Require Import base option list gmap strings pretty.

Set Warnings "-register-all".

Local Open Scope Z_scope.
Local Open Scope string_scope.

(** ** JavaScript values *)

Module JS.

(** Numbers: [parseFloat] and the arithmetic of the sources can yield
    [NaN], which is falsy and compares false with everything. *)
Inductive num : Type :=
| NaN
| Fin (q : Q).

Definition num_truthy (n : num) : bool :=
  match n with
  | NaN => false
  | Fin q => negb (Qeq_bool q 0)
  end.

(** [a || b] on numbers. *)
Definition num_or (a b : num) : num := if num_truthy a then a else b.

Definition num_sub (a b : num) : num :=
  match a, b with
  | Fin x, Fin y => Fin (x - y)
  | _, _ => NaN
  end.

Definition num_mul (a b : num) : num :=
  match a, b with
  | Fin x, Fin y => Fin (x * y)
  | _, _ => NaN
  end.

Definition Qltb (x y : Q) : bool := negb (Qle_bool y x).

(** [a < b], [a > b], [a >= b]: false as soon as one side is [NaN]. *)
Definition num_lt (a b : num) : bool :=
  match a, b with
  | Fin x, Fin y => Qltb x y
  | _, _ => false
  end.

Definition num_gt (a b : num) : bool := num_lt b a.

Definition num_ge (a b : num) : bool :=
  match a, b with
  | Fin x, Fin y => Qle_bool y x
  | _, _ => false
  end.

(** [Math.max] and [Math.min] return [NaN] when an argument is [NaN]. *)
Definition Math_max (a b : num) : num :=
  match a, b with
  | Fin x, Fin y => if Qltb x y then Fin y else Fin x
  | _, _ => NaN
  end.

Definition Math_min (a b : num) : num :=
  match a, b with
  | Fin x, Fin y => if Qltb y x then Fin y else Fin x
  | _, _ => NaN
  end.

(** Equality of numbers up to the representation of the rational. *)
Definition num_eq (a b : num) : Prop :=
  match a, b with
  | NaN, NaN => True
  | Fin x, Fin y => x == y
  | _, _ => False
  end.

(** Values exchanged with the remote services. *)
Inductive JVal : Type :=
| JUndefined
| JNull
| JBool (b : bool)
| JNum (q : Q)
| JStr (s : string)
| JArr (xs : list JVal)
| JObj (fields : gmap string JVal).

Definition truthy (v : JVal) : bool :=
  match v with
  | JUndefined | JNull => false
  | JBool b => b
  | JNum q => negb (Qeq_bool q 0)
  | JStr s => negb (String.eqb s "")
  | JArr _ | JObj _ => true
  end.

(** [a || b]. *)
Definition or_else (a b : JVal) : JVal := if truthy a then a else b.

Definition isArray (v : JVal) : bool :=
  match v with JArr _ => true | _ => false end.

(** [typeof v === 'object'] holds of objects, arrays and [null]. *)
Definition typeof_object (v : JVal) : bool :=
  match v with JNull | JArr _ | JObj _ => true | _ => false end.

(** [v === true]. *)
Definition is_true (v : JVal) : bool :=
  match v with JBool true => true | _ => false end.

(** Errors are [Error] objects; only their message is read. *)
Record JsError : Type := mkError { message : string }.

Inductive result (A : Type) : Type :=
| Ok (a : A)
| Throw (e : JsError).
Arguments Ok {A} a.
Arguments Throw {A} e.

Definition bind {A B} (r : result A) (k : A -> result B) : result B :=
  match r with
  | Ok a => k a
  | Throw e => Throw e
  end.

(** [try { body } catch (error) { handler }]. *)
Definition try_catch {A} (body : result A) (handler : JsError -> result A)
  : result A :=
  match body with
  | Ok a => Ok a
  | Throw e => handler e
  end.

Definition TypeError (msg : string) : JsError := mkError ("TypeError: " ++ msg).

(** [v[k]] for a key [k] that is neither an index nor ["length"] (every
    key read by the sources is of that kind): own property of an object,
    [undefined] on arrays and primitives, a [TypeError] on [null] and
    [undefined]. *)
Definition get_prop (v : JVal) (k : string) : result JVal :=
  match v with
  | JUndefined | JNull =>
      Throw (TypeError ("Cannot read properties of null or undefined (reading '" ++ k ++ "')"))
  | JObj fields => Ok (default JUndefined (fields !! k))
  | _ => Ok JUndefined
  end.

(** [k in v]: a [TypeError] unless [v] is an object or an array. *)
Definition has_prop (k : string) (v : JVal) : result bool :=
  match v with
  | JObj fields => Ok (bool_decide (is_Some (fields !! k)))
  | JArr _ => Ok false
  | _ => Throw (TypeError ("Cannot use 'in' operator to search for '" ++ k ++ "'"))
  end.

(** [xs[i]]: [undefined] out of range. *)
Definition nth_or_undefined (xs : list JVal) (i : nat) : JVal :=
  default JUndefined (xs !! i).

(** *** Strings *)

(** White space and line terminators removed by [String.prototype.trim]
    (those below U+0100). *)
Definition is_space (c : ascii) : bool :=
  let n := nat_of_ascii c in
  ((9 <=? n)%nat && (n <=? 13)%nat) || (n =? 32)%nat || (n =? 160)%nat.

Fixpoint trim_start (s : string) : string :=
  match s with
  | String c s' => if is_space c then trim_start s' else s
  | EmptyString => EmptyString
  end.

(** Removes trailing white space: a character is kept if it is not a
    space or if something is left after it. *)
Fixpoint trim_end (s : string) : string :=
  match s with
  | String c s' =>
      match trim_end s' with
      | EmptyString => if is_space c then EmptyString else String c EmptyString
      | r => String c r
      end
  | EmptyString => EmptyString
  end.

Definition trim (s : string) : string := trim_end (trim_start s).

(** [s.substring(0, n)]: a negative [n] counts as 0, one beyond the end
    as the length. *)
Definition substring0 (n : Z) (s : string) : string :=
  String.substring 0 (Z.to_nat n) s.

Definition strlen (s : string) : Z := Z.of_nat (String.length s).

(** [toLowerCase] on the letters A to Z (the keys of the catalog and of
    the upstream are ASCII). *)
Definition lower_char (c : ascii) : ascii :=
  let n := nat_of_ascii c in
  if ((65 <=? n)%nat && (n <=? 90)%nat) then ascii_of_nat (n + 32) else c.

Fixpoint toLowerCase (s : string) : string :=
  match s with
  | String c s' => String (lower_char c) (toLowerCase s')
  | EmptyString => EmptyString
  end.

(** [hay.includes(needle)]. *)
Fixpoint includes (needle hay : string) : bool :=
  String.prefix needle hay ||
  match hay with
  | String _ hay' => includes needle hay'
  | EmptyString => false
  end.

(** [x.toFixed(4)] for an exact [x]: the sign, then the integer [n]
    nearest to [|x| * 10000] (the larger one in case of a tie) written with
    four digits after the point. *)
Definition toFixed4 (x : Q) : string :=
  let n := Qfloor (Qabs x * 10000 + (1 # 2))%Q in
  let fraction := pretty (n mod 10000) in
  (if Qle_bool 0 x then "" else "-")
  ++ pretty (n / 10000) ++ "."
  ++ String.concat "" (repeat "0" (4 - String.length fraction)) ++ fraction.

End JS.
Export JS.

Notation "'let*' x ':=' r 'in' k" := (JS.bind r (fun x => k))
  (at level 10, x name, r at level 100, k at level 200).

(** ** Configuration ([config.js]) *)

Record Config : Type := mkConfig {
  apiToken : string;
  apiUrl : string;
  nodeEnv : string;
  (** [parseFloat(MODERATION_THRESHOLD || '0.5')] *)
  threshold : num;
  (** [SAFER_VALUE], [None] standing for [null] *)
  saferValue : option num;
  (** [parseInt(RATE_LIMIT_PER_MINUTE || '30', 10)], taken to be a number *)
  messagesPerMinute : Z;
  ai_enabled : bool;
  ai_apiKey : string;
  ai_model : string;
  maxResponseLength : Z;
  conversationHistorySize : Z
}.

(** ** Rate limiting and conversation history ([socketHandler.js]) *)

(** [checkRateLimit]: the timestamps kept for [socketId] are filtered to
    the trailing minute; the call is refused, and nothing is written back,
    when as many as the limit remain. *)
Definition checkRateLimit (config : Config) (now : Z) (socketId : string)
    (rateLimitMap : gmap string (list Z)) : bool * gmap string (list Z) :=
  let oneMinuteAgo := now - 60000 in
  let rateLimitMap :=
    if bool_decide (is_Some (rateLimitMap !! socketId)) then rateLimitMap
    else <[socketId := []]> rateLimitMap in
  let messages := default [] (rateLimitMap !! socketId) in
  let recentMessages := filter (fun timestamp => oneMinuteAgo < timestamp) messages in
  if bool_decide (messagesPerMinute config <= Z.of_nat (length recentMessages))
  then (false, rateLimitMap)
  else (true, <[socketId := (recentMessages ++ [now])%list]> rateLimitMap).

(** [checkAIRateLimit]: the same window with the fixed cap of 10. *)
Definition checkAIRateLimit (now : Z) (socketId : string)
    (aiResponseRateLimitMap : gmap string (list Z)) : bool * gmap string (list Z) :=
  let oneMinuteAgo := now - 60000 in
  let aiResponseRateLimitMap :=
    if bool_decide (is_Some (aiResponseRateLimitMap !! socketId)) then aiResponseRateLimitMap
    else <[socketId := []]> aiResponseRateLimitMap in
  let aiResponses := default [] (aiResponseRateLimitMap !! socketId) in
  let recentResponses := filter (fun timestamp => oneMinuteAgo < timestamp) aiResponses in
  if bool_decide (10 <= Z.of_nat (length recentResponses))
  then (false, aiResponseRateLimitMap)
  else (true, <[socketId := (recentResponses ++ [now])%list]> aiResponseRateLimitMap).

(** An entry of the conversation history. *)
Record HistoryEntry : Type := mkEntry {
  h_author : string;
  h_text : string;
  h_timestamp : Z
}.

(** [addToConversationHistory]: push, then drop the first entry when the
    array has grown beyond the configured size. *)
Definition addToConversationHistory (config : Config) (socketId : string)
    (author text : string) (timestamp : Z)
    (conversationHistoryMap : gmap string (list HistoryEntry))
  : gmap string (list HistoryEntry) :=
  let conversationHistoryMap :=
    if bool_decide (is_Some (conversationHistoryMap !! socketId)) then conversationHistoryMap
    else <[socketId := []]> conversationHistoryMap in
  let history := default [] (conversationHistoryMap !! socketId) in
  let history :=
    (history ++ [ {| h_author := if String.eqb author "" then "Anonymous" else author;
                     h_text := text;
                     h_timestamp := timestamp |} ])%list in
  let maxHistory := conversationHistorySize config in
  let history :=
    if bool_decide (maxHistory < Z.of_nat (length history)) then tail history else history in
  <[socketId := history]> conversationHistoryMap.

(** ** The outside world *)

(** ECMAScript built-ins used by the sources and not re-implemented. *)
Record Builtins : Type := mkBuiltins {
  (** [JSON.parse] *)
  JSON_parse : string -> result JVal;
  (** [ToNumber] on strings, arrays and objects, as applied by [<] and [>] *)
  ToNumber_other : JVal -> num;
  (** the first [.replace] of the message handler: script elements, from
      the opening tag to the closing one, are removed *)
  strip_script_blocks : string -> string;
  (** the second [.replace]: what is left between angle brackets is removed *)
  strip_tags : string -> string
}.

(** The body of a chat-completion reply, as far as [parseOpenAIResponse]
    reads it: [choices[i].message.content] and the top-level [content]. *)
Record OpenAIData : Type := mkOpenAIData {
  choices : list (option string);
  content : option string
}.

(** What [axios.post] to the chat-completion endpoint results in. *)
Inductive AxiosOutcome : Type :=
| AxiosData (data : option OpenAIData)
| AxiosStatus (status : Z) (retryAfter : option string) (errorMessage : option string)
| AxiosNoResponse (code : string) (msg : string)
| AxiosSetup (msg : string).

(** One turn of a chat-completion request. *)
Record ChatTurn : Type := mkTurn { role : string; turn_content : string }.

(** The remote services as they answer while one handler runs. *)
Record World : Type := mkWorld {
  (** [getGradioClient()]: connecting can fail *)
  gradio_connect : result unit;
  (** [client.predict("/fetch_toxicity_level", { msg, safer })] *)
  gradio_predict : string -> num -> result JVal;
  (** [axios.post(apiUrl, { inputs })], giving [response.data] *)
  inference_post : string -> string -> result JVal;
  (** [axios.post] to the chat-completion endpoint *)
  openai_post : list ChatTurn -> AxiosOutcome
}.

(** ** Moderation service ([moderationService.js]) *)

(** The [details] object of an outcome, one constructor per shape the
    service builds. The debugging copy [rawScores] is left out. *)
Inductive Details : Type :=
| D_null
| D_api_error (error : string)
| D_response (response : JVal)
| D_json_error (error : string) (jsonString : string)
| D_parse_error (error : string) (response : JVal)
| D_scores (scores : list (string * Q)) (maxScore : Q) (maxCategory : option string)
           (okScore : JVal) (threshold : num) (isFlagged isSaferFlagged : option bool).

Record Outcome : Type := mkOutcome {
  isBlocked : bool;
  reason : string;
  details : Details
}.

(** The catalog of categories, in the order the parser scans it. *)
Definition toxicCategories : list string :=
  [ "violence_graphic"; "violence"; "sexual_minors"; "sexual";
    "self_harm_intent"; "self_harm_instructions"; "self_harm";
    "hate_threatening"; "hate"; "harassment_threatening"; "harassment";
    "illicit_violent"; "illicit";
    "violence/graphic"; "sexual/minors"; "self-harm/intent";
    "self-harm/instructions"; "self-harm"; "hate/threatening";
    "harassment/threatening"; "illicit/violent";
    "violence graphic"; "sexual minors"; "self harm"; "hate threatening";
    "harassment threatening" ].

(** [scores[k1] || scores[k2] || ... || dflt], evaluated left to right. *)
Fixpoint first_truthy (scores : JVal) (keys : list string) (dflt : JVal) : result JVal :=
  match keys with
  | [] => Ok dflt
  | k :: keys' =>
      let* v := get_prop scores k in
      if truthy v then Ok v else first_truthy scores keys' dflt
  end.

(** The keys tried for one category. *)
Definition category_keys (category : string) : list string :=
  let categoryLower := toLowerCase category in
  [ category; categoryLower;
    category ++ "_score"; categoryLower ++ "_score";
    category ++ "Score"; categoryLower ++ "Score" ].

(** The loop state: [categoryScores], [maxScore], [maxCategory]. *)
Definition ScanState : Type := (list (string * Q) * Q * option string)%type.

(** One iteration of [for (const category of toxicCategories)]. *)
Definition scan_category (scores : JVal) (st : ScanState) (category : string)
  : result ScanState :=
  let categoryLower := toLowerCase category in
  let* score := first_truthy scores (category_keys category) (JNum 0) in
  match score with
  | JNum score =>
      if negb (String.eqb categoryLower "safe content") then
        let '(categoryScores, maxScore, maxCategory) := st in
        let categoryScores := (categoryScores ++ [(category, score)])%list in
        if Qltb maxScore score
        then Ok (categoryScores, score, Some category)
        else Ok (categoryScores, maxScore, maxCategory)
      else Ok st
  | _ => Ok st
  end.

(** The whole loop over the categories. *)
Fixpoint scan_categories (scores : JVal) (st : ScanState) (categories : list string)
  : result ScanState :=
  match categories with
  | [] => Ok st
  | category :: rest =>
      let* st := scan_category scores st category in
      scan_categories scores st rest
  end.

(** [ToNumber], as the relational operators apply it to [okScore]. *)
Definition ToNumber (B : Builtins) (v : JVal) : num :=
  match v with
  | JUndefined => NaN
  | JNull => Fin 0
  | JBool b => Fin (if b then 1 else 0)
  | JNum q => Fin q
  | _ => ToNumber_other B v
  end.

(** The [i]-th element produced by iterating a string. *)
Definition str_at (s : string) (i : nat) : JVal :=
  match String.get i s with
  | Some c => JStr (String c EmptyString)
  | None => JUndefined
  end.

(** The parameter pattern [([label, score])] applied to an array element. *)
Definition destructure_pair (el : JVal) : result (JVal * JVal) :=
  match el with
  | JArr ys => Ok (nth_or_undefined ys 0, nth_or_undefined ys 1)
  | JStr s => Ok (str_at s 0, str_at s 1)
  | _ => Throw (TypeError "element is not iterable")
  end.

(** [apiResponse.forEach(([label, score]) => ...)] filling [scores]. (A
    label [__proto__] is stored like any other; no key read afterwards is
    affected by it.) *)
Fixpoint scores_of_pairs (xs : list JVal) (scores : gmap string JVal)
  : result (gmap string JVal) :=
  match xs with
  | [] => Ok scores
  | el :: rest =>
      let* p := destructure_pair el in
      match p with
      | (JStr label, JNum score) =>
          scores_of_pairs rest (<[toLowerCase label := JNum score]> scores)
      | _ => scores_of_pairs rest scores
      end
  end.

(** The outcome returned for a response of an unexpected shape. *)
Definition unexpected_response (response : JVal) : Outcome :=
  {| isBlocked := false; reason := "UNEXPECTED_RESPONSE"; details := D_response response |}.

(** The keys under which a safe/OK score is looked up, in order. *)
Definition ok_keys : list string :=
  [ "safe"; "Safe"; "OK"; "ok"; "non_toxic"; "safe content"; "Safe Content" ].

(** The part of [parseModerationResponse] that follows the choice of
    [scores]: category scan, verdict flags, decision and reason. *)
Definition decide_scores (B : Builtins) (config : Config) (scores : JVal)
  : result Outcome :=
  let* scanned := scan_categories scores ([], 0%Q, None) toxicCategories in
  let '(categoryScores, maxScore, maxCategory) := scanned in
  let* flagged := get_prop scores "is_flagged" in
  let isFlagged := is_true flagged in
  let* saferFlagged := get_prop scores "is_safer_flagged" in
  let isSaferFlagged := is_true saferFlagged in
  let* hasFlags :=
    (let* a := has_prop "is_flagged" scores in
     if a then Ok true else has_prop "is_safer_flagged" scores) in
  let* okScore := first_truthy scores ok_keys (JNum 0) in
  let isBlocked :=
    if hasFlags then isFlagged || isSaferFlagged
    else num_ge (Fin maxScore) (threshold config)
         || (num_gt (ToNumber B okScore) (Fin 0)
             && num_lt (ToNumber B okScore) (num_sub (Fin 1) (threshold config))) in
  let category := default "toxicity" maxCategory in
  let reason :=
    if isBlocked then
      if hasFlags then
        if isFlagged && isSaferFlagged then "Blocked: Flagged by model and safer threshold"
        else if isFlagged then "Blocked: Flagged by model"
        else "Blocked: Exceeds safer threshold (" ++ category ++ ")"
      else "Blocked due to " ++ category ++ " (score: " ++ toFixed4 maxScore ++ ")"
    else "OK" in
  Ok {| isBlocked := isBlocked;
        reason := reason;
        details := D_scores categoryScores maxScore maxCategory okScore (threshold config)
                     (if hasFlags then Some isFlagged else None)
                     (if hasFlags then Some isSaferFlagged else None) |}.

(** [parseModerationResponse(apiResponse, originalText)]. *)
Definition parseModerationResponse (B : Builtins) (config : Config) (apiResponse : JVal)
  : result Outcome :=
  match apiResponse with
  | JArr xs =>
      if bool_decide (0 < length xs)%nat && isArray (nth_or_undefined xs 0) then
        let* scores := scores_of_pairs xs ∅ in
        decide_scores B config (JObj scores)
      else
        decide_scores B config (or_else (nth_or_undefined xs 0) (JObj ∅))
  | _ =>
      if typeof_object apiResponse then decide_scores B config apiResponse
      else Ok (unexpected_response apiResponse)
  end.

(** [JSON.stringify(v).substring(0, 200)], evaluated for logging: it throws
    when [JSON.stringify] yields [undefined]. *)
Definition stringify_prefix (v : JVal) : result unit :=
  match v with
  | JUndefined => Throw (TypeError "Cannot read properties of undefined (reading 'substring')")
  | _ => Ok tt
  end.

(** The body of [parseGradioClientResponse] once [dataArray] is chosen
    (lines 182-225): length check, second element, [JSON.parse] of a
    string, and the hand-over to [parseModerationResponse]. *)
Definition parse_data_array (B : Builtins) (config : Config) (clientResponse dataArray : JVal)
  : result Outcome :=
  match dataArray with
  | JArr xs =>
      if bool_decide (length xs < 2)%nat then Ok (unexpected_response clientResponse)
      else
        let jsonString := nth_or_undefined xs 1 in
        if negb (truthy jsonString) then Ok (unexpected_response clientResponse)
        else
          match jsonString with
          | JStr s =>
              match JSON_parse B s with
              | Ok moderationData => parseModerationResponse B config moderationData
              | Throw parseError =>
                  Ok {| isBlocked := false; reason := "PARSE_ERROR";
                        details := D_json_error (message parseError) (substring0 200 s) |}
              end
          | moderationData => parseModerationResponse B config moderationData
          end
  | _ => Ok (unexpected_response clientResponse)
  end.

(** [parseGradioClientResponse(clientResponse, originalText)]. *)
Definition parseGradioClientResponse (B : Builtins) (config : Config) (clientResponse : JVal)
  : result Outcome :=
  try_catch
    (let wrapped :=
       if truthy clientResponse
       then match get_prop clientResponse "data" with
            | Ok d => if truthy d && isArray d then Some d else None
            | Throw _ => None
            end
       else None in
     match wrapped with
     | Some dataArray => parse_data_array B config clientResponse dataArray
     | None =>
         if isArray clientResponse then parse_data_array B config clientResponse clientResponse
         else
           let* _ := stringify_prefix clientResponse in
           Ok (unexpected_response clientResponse)
     end)
    (fun error =>
       let* _ := stringify_prefix clientResponse in
       Ok {| isBlocked := false; reason := "PARSE_ERROR";
             details := D_parse_error (message error) clientResponse |}).

(** The [safer] parameter sent to the Space (lines 88-103 of the service). *)
Definition saferValueOf (config : Config) : num :=
  match saferValue config with
  | Some sv => Math_max (Fin 0.005) (Math_min (Fin 0.1) sv)
  | None =>
      let threshold := num_or (threshold config) (Fin 0.5) in
      Math_max (Fin 0.005) (Math_min (Fin 0.1) (num_sub (Fin 0.1) (num_mul threshold (Fin 0.095))))
  end.

(** The configured URL is the one of a Space. *)
Definition isSpaceAPI (config : Config) : bool :=
  includes ".hf.space" (apiUrl config)
  || includes "duchaba/Friendly_Text_Moderation" (apiUrl config).

(** [moderateText(text)], for a string [text] (any other value is
    answered like the empty string). *)
Definition moderateText (B : Builtins) (config : Config) (w : World) (text : string)
  : result Outcome :=
  if String.eqb text "" || (strlen (trim text) =? 0)%Z then
    Ok {| isBlocked := false; reason := "Empty message"; details := D_null |}
  else
    try_catch
      (if isSpaceAPI config then
         let saferValue := saferValueOf config in
         let* client := gradio_connect w in
         let* result := gradio_predict w text saferValue in
         parseGradioClientResponse B config result
       else
         let* data := inference_post w (apiUrl config) text in
         parseModerationResponse B config data)
      (fun error =>
         Ok {| isBlocked := false; reason := "API_ERROR";
               details := D_api_error (message error) |}).

(** ** AI service ([aiService.js]) *)

Definition AI_AUTHOR_NAME : string := "AI Moderator".

(** The double-quote character, for the template literals that contain it. *)
Definition dq : string := String (ascii_of_nat 34) EmptyString.

(** The request built by [generateGreeting]. *)
Definition greeting_messages (config : Config) (username : string) : list ChatTurn :=
  [ {| role := "system";
       turn_content :=
         "You're a fun, chatty, and human-like AI friend. A new user named " ++ dq ++ username ++ dq
         ++ " just joined the chat. Greet them in a casual, friendly way - like you're excited to meet a new friend! Be warm, fun, and show personality. Use natural, conversational language. Keep it brief and under "
         ++ pretty (maxResponseLength config) ++ " characters." |};
    {| role := "user";
       turn_content :=
         "Greet the new user " ++ dq ++ username ++ dq ++ " who just joined - be fun and chatty!" |} ].

(** [callOpenAIAPI(messages)]: the reply body, or one error per failure
    class. *)
Definition callOpenAIAPI (config : Config) (w : World) (messages : list ChatTurn)
  : result (option OpenAIData) :=
  if String.eqb (ai_apiKey config) "" then
    Throw (mkError "OPENAI_API_KEY is required for AI responses")
  else
    match openai_post w messages with
    | AxiosData data => Ok data
    | AxiosStatus status retryAfter errorMessage =>
        if (status =? 429)%Z then
          Throw (mkError ("OpenAI API rate limit exceeded. " ++
                          match retryAfter with
                          | Some r => if String.eqb r "" then "Please try again later."
                                      else "Retry after " ++ r ++ " seconds."
                          | None => "Please try again later."
                          end))
        else if (status =? 401)%Z || (status =? 403)%Z then
          Throw (mkError "OpenAI API authentication failed. Check your OPENAI_API_KEY.")
        else if (status =? 404)%Z then
          Throw (mkError ("OpenAI model " ++ dq ++ ai_model config ++ dq
                          ++ " not found. Check your AI_MODEL configuration."))
        else if (500 <=? status)%Z then
          Throw (mkError "OpenAI service is experiencing issues. Please try again later.")
        else
          Throw (mkError ("OpenAI API error: " ++ pretty status ++ " - "
                          ++ match errorMessage with
                             | Some m => if String.eqb m "" then "Unknown error" else m
                             | None => "Unknown error"
                             end))
    | AxiosNoResponse code msg =>
        if String.eqb code "ECONNABORTED" || includes "timeout" msg then
          Throw (mkError "OpenAI service request timed out. Please try again.")
        else
          Throw (mkError "OpenAI service is unavailable. Please check your connection and try again.")
    | AxiosSetup msg =>
        if negb (String.eqb msg "") then Throw (mkError msg)
        else Throw (mkError "OpenAI request error: Error")
    end.

(** A string that is present and truthy. *)
Definition nonempty (o : option string) : option string :=
  match o with
  | Some s => if String.eqb s "" then None else Some s
  | None => None
  end.

(** [parseOpenAIResponse(apiResponse)]. *)
Definition parseOpenAIResponse (apiResponse : option OpenAIData) : result string :=
  match apiResponse with
  | None => Throw (mkError "Empty response from OpenAI API")
  | Some r =>
      match match choices r with
            | firstChoice :: _ => nonempty firstChoice
            | [] => None
            end with
      | Some text => Ok text
      | None =>
          match nonempty (content r) with
          | Some text => Ok text
          | None => Throw (mkError "Unable to parse OpenAI response. Unexpected response format.")
          end
      end
  end.

(** The greeting returned when the provider call fails. *)
Definition fallback_greeting (username : string) : string :=
  "Hey " ++ username ++ "! 👋 Welcome to the chat! What's up?".

(** [generateGreeting(username)]: [None] stands for [null]. *)
Definition generateGreeting (config : Config) (w : World) (username : string)
  : result (option string) :=
  if negb (ai_enabled config) then Ok None
  else
    try_catch
      (let messages := greeting_messages config username in
       let* response := callOpenAIAPI config w messages in
       let* greeting := parseOpenAIResponse response in
       Ok (Some (trim greeting)))
      (fun error => Ok (Some (fallback_greeting username))).

(** The system prompt of a turn that reacts to a blocked message. *)
Definition blocked_system_prompt (config : Config) : string :=
  "You're a fun, chatty, and human-like AI friend chatting with users. A user's message was just blocked by the moderation system. Your role is to:
- React naturally and conversationally, like a friend would
- Casually mention what happened without being preachy or formal
- Use natural, casual language with personality (like " ++ dq ++ "oh" ++ dq ++ ", " ++ dq ++ "hmm" ++ dq ++ ", " ++ dq ++ "hey" ++ dq ++ ", etc.)
- Be empathetic and understanding, like you're chatting with a friend
- Keep it light and friendly - don't lecture
- Use emojis occasionally if it feels natural (but don't overdo it)
- Show personality and be relatable

Keep responses under " ++ pretty (maxResponseLength config) ++ " characters. Be fun, chatty, and human-like - like texting a friend!".

(** The system prompt of an ordinary turn. *)
Definition normal_system_prompt (config : Config) : string :=
  "You're a fun, chatty, and human-like AI friend chatting with users. Your personality is:
- Casual, friendly, and conversational - like texting a good friend
- Use natural, everyday language with personality
- Be genuinely interested in what they're saying
- React naturally to their messages (like " ++ dq ++ "haha" ++ dq ++ ", " ++ dq ++ "oh cool" ++ dq ++ ", " ++ dq ++ "that's interesting" ++ dq ++ ", etc.)
- Use emojis occasionally when it feels natural (but don't overdo it)
- Show your personality - be funny, curious, supportive, or whatever fits the moment
- Don't be formal or robotic - be human!
- Keep it engaging and fun

Keep responses under " ++ pretty (maxResponseLength config) ++ " characters. Be fun, chatty, and human-like - like you're texting a friend!".

(** [history.slice(-n)]: the last [n] entries for a positive [n], the whole
    array for 0, and the array without its first [-n] entries otherwise. *)
Definition slice_last {A} (n : Z) (l : list A) : list A :=
  if (0 <? n)%Z then drop (length l - Z.to_nat n) l
  else drop (Z.to_nat (- n)) l.

(** A history entry as a turn of the request: the entries of the AI
    author are the assistant's, all others the user's. *)
Definition history_turn (msg : HistoryEntry) : ChatTurn :=
  if String.eqb (h_author msg) AI_AUTHOR_NAME
  then {| role := "assistant"; turn_content := h_text msg |}
  else {| role := "user"; turn_content := h_text msg |}.

(** [details.maxCategory || 'some issues']. *)
Definition detected_category (d : Details) : string :=
  match d with
  | D_scores _ _ (Some category) _ _ _ _ => category
  | _ => "some issues"
  end.

(** [buildMessages(userMessage, moderationResult, conversationHistory, isBlocked)]. *)
Definition buildMessages (config : Config) (userMessage : string)
    (moderationResult : Outcome) (conversationHistory : list HistoryEntry)
    (wasBlocked : bool) : list ChatTurn :=
  let systemPrompt :=
    if wasBlocked then blocked_system_prompt config else normal_system_prompt config in
  let recentHistory := slice_last (conversationHistorySize config) conversationHistory in
  let userMessageWithContext :=
    match details moderationResult with
    | D_null => userMessage
    | d =>
        if wasBlocked then
          "The user tried to send: " ++ dq ++ userMessage ++ dq
          ++ " but it got blocked (detected " ++ detected_category d
          ++ "). React naturally and chat about it - be friendly and understanding, like a friend would."
        else userMessage
    end in
  ([ {| role := "system"; turn_content := systemPrompt |} ]
   ++ map history_turn recentHistory
   ++ [ {| role := "user"; turn_content := userMessageWithContext |} ])%list.

(** [generateAIResponse(userMessage, moderationResult, conversationHistory, isBlocked)]. *)
Definition generateAIResponse (config : Config) (w : World) (userMessage : string)
    (moderationResult : Outcome) (conversationHistory : list HistoryEntry)
    (wasBlocked : bool) : result string :=
  if negb (ai_enabled config) then Throw (mkError "AI agent is disabled")
  else
    try_catch
      (let messages :=
         buildMessages config userMessage moderationResult conversationHistory wasBlocked in
       let* response := callOpenAIAPI config w messages in
       let* aiText := parseOpenAIResponse response in
       let maxLength := maxResponseLength config in
       if (maxLength <? strlen aiText)%Z
       then Ok (trim (substring0 maxLength aiText) ++ "...")
       else Ok (trim aiText))
      (fun error => Throw error).

(** ** Connection sessions ([socketHandler.js]) *)

(** A chat message as it is emitted. *)
Record ChatMessage : Type := mkMessage {
  msg_id : string;
  msg_text : string;
  msg_author : string;
  msg_timestamp : Z;
  moderationStatus : option string;
  msg_details : option Details;
  isAI : bool
}.

(** Events sent to clients. *)
Inductive ServerEvent : Type :=
| ErrorEvent (msg : string) (error : option string)
| MessageBlocked (id : option string) (text : string) (why : string)
                 (info : option Details) (timestamp : Z)
| MessageEvent (m : ChatMessage).

(** What a handler does to the outside: [socket.emit] to one connection,
    [io.emit] to all of them, and its calls of [moderateText],
    [generateAIResponse] and [generateGreeting]. *)
Inductive Effect : Type :=
| SocketEmit (socketId : string) (ev : ServerEvent)
| IoEmit (ev : ServerEvent)
| CallModeration (text : string)
| CallAI (userMessage : string) (context : list HistoryEntry) (wasBlocked : bool)
| CallGreeting (username : string).

(** A callback queued with [setImmediate]: the arguments of
    [generateAndBroadcastAIResponse]. *)
Record AITask : Type := mkTask {
  task_socket : string;
  task_message : string;
  task_moderation : Outcome;
  task_blocked : bool
}.

(** The three module-level maps, the [socketUsername] variable of every
    connection (absent for [null]) and the queue of deferred AI turns. *)
Record State : Type := mkState {
  rateLimitMap : gmap string (list Z);
  conversationHistoryMap : gmap string (list HistoryEntry);
  aiResponseRateLimitMap : gmap string (list Z);
  socketUsername : gmap string string;
  deferred : list AITask
}.

Definition initial_state : State :=
  {| rateLimitMap := ∅; conversationHistoryMap := ∅; aiResponseRateLimitMap := ∅;
     socketUsername := ∅; deferred := [] |}.

(** The id of a user message or of a block notice:
    [`${socket.id}-${Date.now()}`]. *)
Definition message_id (socketId : string) (now : Z) : string :=
  socketId ++ "-" ++ pretty now.

(** [cleanupRateLimit(socketId)]. *)
Definition cleanupRateLimit (socketId : string) (st : State) : State :=
  {| rateLimitMap := delete socketId (rateLimitMap st);
     conversationHistoryMap := delete socketId (conversationHistoryMap st);
     aiResponseRateLimitMap := delete socketId (aiResponseRateLimitMap st);
     socketUsername := socketUsername st;
     deferred := deferred st |}.

(** [generateAndBroadcastAIResponse(io, socketId, userMessage,
    moderationResult, isBlocked)]; [now] is the clock when the rate limit is
    checked, [later] when the reply is built. *)
Definition generateAndBroadcastAIResponse (B : Builtins) (config : Config) (w : World)
    (now later : Z) (task : AITask) (st : State) : State * list Effect :=
  let socketId := task_socket task in
  if negb (ai_enabled config) then (st, [])
  else
    let '(allowed, aiMap) := checkAIRateLimit now socketId (aiResponseRateLimitMap st) in
    let st := {| rateLimitMap := rateLimitMap st;
                 conversationHistoryMap := conversationHistoryMap st;
                 aiResponseRateLimitMap := aiMap;
                 socketUsername := socketUsername st;
                 deferred := deferred st |} in
    if negb allowed then (st, [])
    else
      let conversationHistory := default [] (conversationHistoryMap st !! socketId) in
      let called := [CallAI (task_message task) conversationHistory (task_blocked task)] in
      match generateAIResponse config w (task_message task) (task_moderation task)
              conversationHistory (task_blocked task) with
      | Throw error => (st, called)
      | Ok aiResponseText =>
          if String.eqb aiResponseText "" || (strlen (trim aiResponseText) =? 0)%Z
          then (st, called)
          else
            let called := (called ++ [CallModeration aiResponseText])%list in
            match moderateText B config w aiResponseText with
            | Throw error => (st, called)
            | Ok aiModerationResult =>
                if isBlocked aiModerationResult then (st, called)
                else
                  let aiMessageData :=
                    {| msg_id := "ai-" ++ socketId ++ "-" ++ pretty later;
                       msg_text := aiResponseText;
                       msg_author := AI_AUTHOR_NAME;
                       msg_timestamp := later;
                       moderationStatus := Some (reason aiModerationResult);
                       msg_details := Some (details aiModerationResult);
                       isAI := true |} in
                  ({| rateLimitMap := rateLimitMap st;
                      conversationHistoryMap :=
                        addToConversationHistory config socketId (msg_author aiMessageData)
                          (msg_text aiMessageData) (msg_timestamp aiMessageData)
                          (conversationHistoryMap st);
                      aiResponseRateLimitMap := aiResponseRateLimitMap st;
                      socketUsername := socketUsername st;
                      deferred := deferred st |},
                   (called ++ [IoEmit (MessageEvent aiMessageData)])%list)
            end
      end.

(** The string [data.username] or [data.text] when the payload has one. *)
Definition string_field (data : JVal) (k : string) : option string :=
  if truthy data then
    match get_prop data k with
    | Ok (JStr s) => Some s
    | _ => None
    end
  else None.

(** The [greetingMessage] object of the [register_username] handler. *)
Definition greeting_message (socketId : string) (now : Z) (greeting : string) : ChatMessage :=
  {| msg_id := "ai-greeting-" ++ socketId ++ "-" ++ pretty now;
     msg_text := greeting;
     msg_author := AI_AUTHOR_NAME;
     msg_timestamp := now;
     moderationStatus := None;
     msg_details := None;
     isAI := true |}.

(** The [register_username] handler. *)
Definition on_register_username (B : Builtins) (config : Config) (w : World) (now : Z)
    (socketId : string) (data : JVal) (st : State) : State * list Effect :=
  match string_field data "username" with
  | None => (st, [SocketEmit socketId (ErrorEvent "Username is required" None)])
  | Some raw =>
      if String.eqb raw "" then
        (st, [SocketEmit socketId (ErrorEvent "Username is required" None)])
      else
        let username := trim raw in
        if (strlen username =? 0)%Z || (20 <? strlen username)%Z then
          (st, [SocketEmit socketId
                  (ErrorEvent "Username must be between 1 and 20 characters" None)])
        else
          let st := {| rateLimitMap := rateLimitMap st;
                       conversationHistoryMap := conversationHistoryMap st;
                       aiResponseRateLimitMap := aiResponseRateLimitMap st;
                       socketUsername := <[socketId := username]> (socketUsername st);
                       deferred := deferred st |} in
          if negb (ai_enabled config) then (st, [])
          else
            let called := [CallGreeting username] in
            match generateGreeting config w username with
            | Throw error => (st, called)
            | Ok None => (st, called)
            | Ok (Some greeting) =>
                if String.eqb greeting "" then (st, called)
                else
                  let called := (called ++ [CallModeration greeting])%list in
                  match moderateText B config w greeting with
                  | Throw error => (st, called)
                  | Ok greetingModeration =>
                      if isBlocked greetingModeration then (st, called)
                      else
                        let greetingMessage := greeting_message socketId now greeting in
                        ({| rateLimitMap := rateLimitMap st;
                            conversationHistoryMap :=
                              addToConversationHistory config socketId
                                (msg_author greetingMessage) (msg_text greetingMessage)
                                (msg_timestamp greetingMessage) (conversationHistoryMap st);
                            aiResponseRateLimitMap := aiResponseRateLimitMap st;
                            socketUsername := socketUsername st;
                            deferred := deferred st |},
                         (called ++ [SocketEmit socketId (MessageEvent greetingMessage)])%list)
                  end
            end
  end.

(** [!socketUsername]: no name, or an empty one. *)
Definition registered_name (socketId : string) (st : State) : option string :=
  match socketUsername st !! socketId with
  | Some name => if String.eqb name "" then None else Some name
  | None => None
  end.

(** The message text after [trim] and the two sanitizing replacements. *)
Definition sanitize (B : Builtins) (text : string) : string :=
  strip_tags B (strip_script_blocks B (trim text)).

(** The [message] handler; [now] is the clock at the rate-limit check,
    [later] the clock once moderation has answered. *)
Definition on_message (B : Builtins) (config : Config) (w : World) (now later : Z)
    (socketId : string) (data : JVal) (st : State) : State * list Effect :=
  match registered_name socketId st with
  | None => (st, [SocketEmit socketId (ErrorEvent "Please set your username first" None)])
  | Some name =>
      match string_field data "text" with
      | None => (st, [SocketEmit socketId (ErrorEvent "Invalid message format" None)])
      | Some text =>
          let messageText := sanitize B text in
          if (strlen messageText =? 0)%Z then
            (st, [SocketEmit socketId (ErrorEvent "Message cannot be empty" None)])
          else if (1000 <? strlen messageText)%Z then
            (st, [SocketEmit socketId
                    (ErrorEvent "Message too long (max 1000 characters)" None)])
          else
            let '(allowed, rateMap) := checkRateLimit config now socketId (rateLimitMap st) in
            let st := {| rateLimitMap := rateMap;
                         conversationHistoryMap := conversationHistoryMap st;
                         aiResponseRateLimitMap := aiResponseRateLimitMap st;
                         socketUsername := socketUsername st;
                         deferred := deferred st |} in
            if negb allowed then
              (st, [SocketEmit socketId
                      (MessageBlocked None messageText
                         "Rate limit exceeded. Please slow down." None now)])
            else
              match moderateText B config w messageText with
              | Throw error =>
                  (st, [CallModeration messageText;
                        SocketEmit socketId
                          (ErrorEvent "An error occurred while processing your message"
                             (Some (message error)))])
              | Ok moderationResult =>
                  if isBlocked moderationResult then
                    let blockedMessageData :=
                      MessageBlocked (Some (message_id socketId later)) messageText
                        (reason moderationResult) (Some (details moderationResult)) later in
                    ({| rateLimitMap := rateLimitMap st;
                        conversationHistoryMap := conversationHistoryMap st;
                        aiResponseRateLimitMap := aiResponseRateLimitMap st;
                        socketUsername := socketUsername st;
                        deferred :=
                          (deferred st ++ [mkTask socketId messageText moderationResult true])%list |},
                     [CallModeration messageText; SocketEmit socketId blockedMessageData])
                  else
                    let messageData :=
                      {| msg_id := message_id socketId later;
                         msg_text := messageText;
                         msg_author := name;
                         msg_timestamp := later;
                         moderationStatus := Some (reason moderationResult);
                         msg_details := Some (details moderationResult);
                         isAI := false |} in
                    ({| rateLimitMap := rateLimitMap st;
                        conversationHistoryMap :=
                          addToConversationHistory config socketId (msg_author messageData)
                            (msg_text messageData) (msg_timestamp messageData)
                            (conversationHistoryMap st);
                        aiResponseRateLimitMap := aiResponseRateLimitMap st;
                        socketUsername := socketUsername st;
                        deferred :=
                          (deferred st ++ [mkTask socketId messageText moderationResult false])%list |},
                     [CallModeration messageText; IoEmit (MessageEvent messageData)])
              end
      end
  end.

(** The [disconnect] handler. *)
Definition on_disconnect (socketId : string) (st : State) : State * list Effect :=
  let st := cleanupRateLimit socketId st in
  ({| rateLimitMap := rateLimitMap st;
      conversationHistoryMap := conversationHistoryMap st;
      aiResponseRateLimitMap := aiResponseRateLimitMap st;
      socketUsername := delete socketId (socketUsername st);
      deferred := deferred st |}, []).

(** What the event loop runs: a client event on a connection, or the oldest
    deferred AI turn. Each carries the clock readings of its handler. *)
Inductive Event : Type :=
| RegisterUsername (socketId : string) (data : JVal) (now : Z)
| Message (socketId : string) (data : JVal) (now later : Z)
| Disconnect (socketId : string)
| RunDeferred (now later : Z).

Definition step (B : Builtins) (config : Config) (w : World) (ev : Event) (st : State)
  : State * list Effect :=
  match ev with
  | RegisterUsername socketId data now => on_register_username B config w now socketId data st
  | Message socketId data now later => on_message B config w now later socketId data st
  | Disconnect socketId => on_disconnect socketId st
  | RunDeferred now later =>
      match deferred st with
      | [] => (st, [])
      | task :: rest =>
          generateAndBroadcastAIResponse B config w now later task
            {| rateLimitMap := rateLimitMap st;
               conversationHistoryMap := conversationHistoryMap st;
               aiResponseRateLimitMap := aiResponseRateLimitMap st;
               socketUsername := socketUsername st;
               deferred := rest |}
      end
  end.

(** A run: the events in the order the event loop handles them, each with
    the remote services as they answer during that handler. *)
Fixpoint run (B : Builtins) (config : Config) (evs : list (World * Event)) (st : State)
  : State * list Effect :=
  match evs with
  | [] => (st, [])
  | (w, ev) :: rest =>
      let '(st1, out1) := step B config w ev st in
      let '(st2, out2) := run B config rest st1 in
      (st2, (out1 ++ out2)%list)
  end.

(** ** Vocabulary of the statements *)

(** *** Rate limiter *)

(** The timestamps kept for a connection ([[]] when it has no entry). *)
Definition recorded (socketId : string) (m : gmap string (list Z)) : list Z :=
  default [] (m !! socketId).

(** The timestamps of [l] inside the minute that ends at [now]. *)
Definition in_window (now : Z) (l : list Z) : list Z :=
  filter (fun timestamp => now - 60000 < timestamp) l.

(** Successive rate-limit checks of one connection at the given times. *)
Fixpoint check_all (config : Config) (socketId : string) (times : list Z)
    (m : gmap string (list Z)) : list bool * gmap string (list Z) :=
  match times with
  | [] => ([], m)
  | t :: times' =>
      let '(b, m1) := checkRateLimit config t socketId m in
      let '(bs, m2) := check_all config socketId times' m1 in
      (b :: bs, m2)
  end.

(** Successive rate-limit checks of any connections at any times. *)
Fixpoint check_calls (config : Config) (calls : list (string * Z))
    (m : gmap string (list Z)) : gmap string (list Z) :=
  match calls with
  | [] => m
  | (socketId, t) :: calls' =>
      check_calls config calls' (snd (checkRateLimit config t socketId m))
  end.

(** *** Conversation history *)

(** The history kept for a connection ([[]] when it has no entry). *)
Definition history_of (socketId : string) (m : gmap string (list HistoryEntry))
  : list HistoryEntry :=
  default [] (m !! socketId).

(** The entry stored for a message: an absent author becomes Anonymous. *)
Definition entry_of (e : string * string * Z) : HistoryEntry :=
  let '(author, text, timestamp) := e in
  {| h_author := if String.eqb author "" then "Anonymous" else author;
     h_text := text;
     h_timestamp := timestamp |}.

(** Successive appends to the history of one connection. *)
Fixpoint append_all (config : Config) (socketId : string) (es : list (string * string * Z))
    (m : gmap string (list HistoryEntry)) : gmap string (list HistoryEntry) :=
  match es with
  | [] => m
  | (author, text, timestamp) :: es' =>
      append_all config socketId es'
        (addToConversationHistory config socketId author text timestamp m)
  end.

(** Successive appends to the histories of any connections. *)
Fixpoint append_calls (config : Config) (calls : list (string * (string * string * Z)))
    (m : gmap string (list HistoryEntry)) : gmap string (list HistoryEntry) :=
  match calls with
  | [] => m
  | (socketId, (author, text, timestamp)) :: calls' =>
      append_calls config calls'
        (addToConversationHistory config socketId author text timestamp m)
  end.

(** The last [n] elements of a list. *)
Definition last_n {A} (n : nat) (l : list A) : list A := drop (length l - n) l.

(** The configured history size as a number of entries. *)
Definition history_cap (config : Config) : nat :=
  Z.to_nat (conversationHistorySize config).

(** *** Moderation *)

(** The scores object a moderation response stands for: the object itself,
    the first element of an array of objects (an empty object when that
    element is missing or falsy), or the object folded from an array of
    [[label, score]] pairs. [None] when the response has no such object. *)
Definition response_scores (apiResponse : JVal) : option (gmap string JVal) :=
  match apiResponse with
  | JObj fields => Some fields
  | JArr [] => Some ∅
  | JArr (JArr ys :: rest) =>
      match scores_of_pairs (JArr ys :: rest) ∅ with
      | Ok fields => Some fields
      | Throw _ => None
      end
  | JArr (JObj fields :: _) => Some fields
  | JArr (el :: _) => if truthy el then None else Some ∅
  | _ => None
  end.

(** The first truthy value stored under one of [keys], if any. *)
Definition first_present (fields : gmap string JVal) (keys : list string) : option JVal :=
  head (filter (fun v => truthy v = true) (omap (fun k => fields !! k) keys)).

(** The score recognized for a category: the first truthy value under one
    of the spellings of its key when that value is a number, 0 when there is
    no truthy value, nothing when the value is not a number. *)
Definition category_score (fields : gmap string JVal) (category : string) : option Q :=
  match first_present fields (category_keys category) with
  | Some (JNum q) => Some q
  | Some _ => None
  | None => Some 0%Q
  end.

(** [m] is the maximum of 0 and of the recognized category scores. *)
Definition is_max_category_score (fields : gmap string JVal) (m : Q) : Prop :=
  (0 <= m)%Q
  /\ (forall category q,
         category ∈ toxicCategories -> category_score fields category = Some q -> (q <= m)%Q)
  /\ ((m == 0)%Q
      \/ exists category q,
           category ∈ toxicCategories /\ category_score fields category = Some q /\ (m == q)%Q).

(** The score stored under one of the safe/OK keys, when one is truthy. *)
Definition safe_score (fields : gmap string JVal) : option JVal :=
  first_present fields ok_keys.

(** The response carries a verdict flag. *)
Definition has_flag_key (fields : gmap string JVal) : bool :=
  bool_decide (is_Some (fields !! "is_flagged") \/ is_Some (fields !! "is_safer_flagged")).

(** The flag stored under [k] is the boolean [true]. *)
Definition flag_set (fields : gmap string JVal) (k : string) : bool :=
  match fields !! k with
  | Some (JBool true) => true
  | _ => false
  end.

(** The decision on a safe/OK score [ok] under threshold [t]. *)
Definition safe_score_low (B : Builtins) (t : num) (ok : option JVal) : bool :=
  match ok with
  | Some v => num_gt (ToNumber B v) (Fin 0) && num_lt (ToNumber B v) (num_sub (Fin 1) t)
  | None => false
  end.

(** The raw reply of the moderation upstream to [text], on the path the
    configured URL selects. *)
Definition upstream_reply (config : Config) (w : World) (text : string) : result JVal :=
  if isSpaceAPI config then
    let* client := gradio_connect w in
    gradio_predict w text (saferValueOf config)
  else inference_post w (apiUrl config) text.

(** The data array of a reply of the Space: the reply itself when it is an
    array, its [data] property when that is one. *)
Definition reply_data_array (clientResponse : JVal) : option (list JVal) :=
  match clientResponse with
  | JObj fs => match fs !! "data" with Some (JArr xs) => Some xs | _ => None end
  | JArr xs => Some xs
  | _ => None
  end.

(** The moderation data in a data array: its second element, parsed when
    it is a JSON string. [None] when the element is missing or falsy, or
    when the string does not parse. *)
Definition data_array_payload (B : Builtins) (xs : list JVal) : option JVal :=
  match xs with
  | _ :: jsonString :: _ =>
      match jsonString with
      | JStr s =>
          if String.eqb s "" then None
          else match JSON_parse B s with Ok v => Some v | Throw _ => None end
      | v => if truthy v then Some v else None
      end
  | _ => None
  end.

(** The moderation data carried by a reply of the Space, if any. *)
Definition gradio_payload (B : Builtins) (clientResponse : JVal) : option JVal :=
  match reply_data_array clientResponse with
  | Some xs => data_array_payload B xs
  | None => None
  end.

(** The scores object a reply of the upstream stands for, if any. *)
Definition reply_scores (B : Builtins) (config : Config) (reply : JVal)
  : option (gmap string JVal) :=
  if isSpaceAPI config then
    match gradio_payload B reply with
    | Some payload => response_scores payload
    | None => None
    end
  else response_scores reply.

(** The text is empty or white space only. *)
Definition blank (text : string) : bool :=
  String.eqb text "" || (strlen (trim text) =? 0)%Z.

(** The three reasons of a degraded outcome. *)
Definition degraded_reasons : list string :=
  [ "API_ERROR"; "PARSE_ERROR"; "UNEXPECTED_RESPONSE" ].

(** A result that degrades open: an outcome that does not block, tagged
    with one of the three reasons. *)
Definition degraded (r : result Outcome) : Prop :=
  exists o, r = Ok o /\ isBlocked o = false /\ reason o ∈ degraded_reasons.

(** Moderation lets [text] through in world [w]. *)
Definition passes (B : Builtins) (config : Config) (w : World) (text : string) : Prop :=
  exists o, moderateText B config w text = Ok o /\ isBlocked o = false.

(** [x] clamped to the range of the safety parameter, [0.005, 0.1]. *)
Definition clamp_safer (x : num) : num :=
  Math_max (Fin 0.005) (Math_min (Fin 0.1) x).

(** The safety parameter derived from a threshold [t]: [0.1 - t * 0.095],
    clamped. *)
Definition derived_safer (t : num) : num :=
  clamp_safer (num_sub (Fin 0.1) (num_mul t (Fin 0.095))).

(** *** AI replies *)

(** The text the chat-completion provider returns for [messages]:
    [callOpenAIAPI] followed by [parseOpenAIResponse]. *)
Definition provider_text (config : Config) (w : World) (messages : list ChatTurn)
  : result string :=
  let* response := callOpenAIAPI config w messages in
  parseOpenAIResponse response.

(** The reply made of a provider text: cut to the maximal length, trimmed
    and followed by an ellipsis when the text is longer, trimmed otherwise. *)
Definition delivered_text (config : Config) (aiText : string) : string :=
  if (maxResponseLength config <? strlen aiText)%Z
  then trim (substring0 (maxResponseLength config) aiText) ++ "..."
  else trim aiText.

(** The request of the AI turn [task] in state [st]. *)
Definition task_messages (config : Config) (task : AITask) (st : State) : list ChatTurn :=
  buildMessages config (task_message task) (task_moderation task)
    (history_of (task_socket task) (conversationHistoryMap st)) (task_blocked task).

(** *** Sessions and runs *)

(** The string has no hyphen. *)
Fixpoint no_dash (s : string) : Prop :=
  match s with
  | EmptyString => True
  | String c s' => c <> "-"%char /\ no_dash s'
  end.

(** The chat messages broadcast by a list of effects, in order. *)
Definition broadcast_messages (out : list Effect) : list ChatMessage :=
  omap (fun e => match e with IoEmit (MessageEvent m) => Some m | _ => None end) out.

(** The events emitted to one connection by a list of effects, in order. *)
Definition emitted_to (socketId : string) (out : list Effect) : list ServerEvent :=
  omap (fun e =>
          match e with
          | SocketEmit s ev => if String.eqb s socketId then Some ev else None
          | _ => None
          end) out.

(** The histories handed to [generateAIResponse] by a list of effects. *)
Definition ai_contexts (out : list Effect) : list (list HistoryEntry) :=
  omap (fun e => match e with CallAI _ context _ => Some context | _ => None end) out.

(** The raw name passes the checks of the registration handler: it is not
    empty and its trimmed length is between 1 and 20. *)
Definition valid_username (raw : string) : bool :=
  negb (String.eqb raw "")
  && negb ((strlen (trim raw) =? 0)%Z || (20 <? strlen (trim raw))%Z).

(** The event is a registration of [socketId] under a valid name. *)
Definition registers (socketId : string) (ev : Event) : bool :=
  match ev with
  | RegisterUsername s data _ =>
      String.eqb s socketId
      && match string_field data "username" with
         | Some raw => valid_username raw
         | None => false
         end
  | _ => false
  end.

(** The state reached by a run from the initial state. *)
Definition state_after (B : Builtins) (config : Config) (evs : list (World * Event)) : State :=
  fst (run B config evs initial_state).

(** Where an entry of the history of [socketId] comes from in a run: a
    message of that connection whose sanitized text moderation let through,
    or an AI text (a greeting at registration, a reply of a deferred AI
    turn) that moderation let through. *)
Definition entry_origin (B : Builtins) (config : Config) (evs : list (World * Event))
    (socketId : string) (entry : HistoryEntry) : Prop :=
  exists w ev,
    (w, ev) ∈ evs
    /\ passes B config w (h_text entry)
    /\ match ev with
       | Message s data _ _ =>
           s = socketId
           /\ exists text, string_field data "text" = Some text
                           /\ h_text entry = sanitize B text
       | RegisterUsername s _ _ => s = socketId /\ h_author entry = AI_AUTHOR_NAME
       | RunDeferred _ _ => h_author entry = AI_AUTHOR_NAME
       | Disconnect _ => False
       end.

(** ** Sample data for the examples *)

(** Built-ins for the examples: nothing parses, nothing converts, and the
    sanitizing replacements find nothing to remove. *)
Definition sample_builtins : Builtins :=
  {| JSON_parse := fun _ => Throw (mkError "Unexpected token");
     ToNumber_other := fun _ => NaN;
     strip_script_blocks := fun s => s;
     strip_tags := fun s => s |}.

(** A configuration for the examples: inference endpoint, threshold 0.5. *)
Definition sample_config : Config :=
  {| apiToken := "token"; apiUrl := "https://api-inference.example/models/m";
     nodeEnv := "test"; threshold := Fin 0.5; saferValue := None;
     messagesPerMinute := 30; ai_enabled := true; ai_apiKey := "key";
     ai_model := "gpt-3.5-turbo"; maxResponseLength := 200;
     conversationHistorySize := 5 |}.

(** A configuration with a rate limit of 2 messages per minute and a
    history of 2 entries. *)
Definition config_limit_2 : Config :=
  {| apiToken := ""; apiUrl := "https://example.hf.space"; nodeEnv := "test";
     threshold := Fin 0.5; saferValue := None; messagesPerMinute := 2;
     ai_enabled := true; ai_apiKey := "key"; ai_model := "gpt-3.5-turbo";
     maxResponseLength := 200; conversationHistorySize := 2 |}.

(** The examples' configuration with replies limited to 3 characters. *)
Definition config_short_replies : Config :=
  {| apiToken := "token"; apiUrl := "https://api-inference.example/models/m";
     nodeEnv := "test"; threshold := Fin 0.5; saferValue := None;
     messagesPerMinute := 30; ai_enabled := true; ai_apiKey := "key";
     ai_model := "gpt-3.5-turbo"; maxResponseLength := 3;
     conversationHistorySize := 5 |}.

(** The Space endpoint with the threshold set to 0 and no override. *)
Definition config_threshold_zero : Config :=
  {| apiToken := "token"; apiUrl := "https://duchaba-friendly-text-moderation.hf.space";
     nodeEnv := "production"; threshold := Fin 0; saferValue := None;
     messagesPerMinute := 30; ai_enabled := true; ai_apiKey := "key";
     ai_model := "gpt-3.5-turbo"; maxResponseLength := 200;
     conversationHistorySize := 5 |}.

(** A world in which every remote call fails with a network error. *)
Definition offline_world : World :=
  {| gradio_connect := Throw (mkError "Network Error");
     gradio_predict := fun _ _ => Throw (mkError "Network Error");
     inference_post := fun _ _ => Throw (mkError "Network Error");
     openai_post := fun _ => AxiosNoResponse "ENOTFOUND" "Network Error" |}.

(** A world whose inference endpoint finds nothing to flag and whose
    chat-completion provider is unreachable. *)
Definition quiet_world : World :=
  {| gradio_connect := Ok tt;
     gradio_predict := fun _ _ => Ok (JArr [JNull; JObj ∅]);
     inference_post := fun _ _ => Ok (JObj ∅);
     openai_post := fun _ => AxiosNoResponse "ENOTFOUND" "Network Error" |}.

(** A world whose provider answers every request with [text] and whose
    moderation upstream finds nothing to flag. *)
Definition answering_world (text : string) : World :=
  {| gradio_connect := Ok tt;
     gradio_predict := fun _ _ => Ok (JArr [JNull; JObj ∅]);
     inference_post := fun _ _ => Ok (JObj ∅);
     openai_post := fun _ =>
       AxiosData (Some {| choices := [Some text]; content := None |}) |}.

(** A world whose inference endpoint scores every text 0.9 for hate. *)
Definition flagging_world : World :=
  {| gradio_connect := Ok tt;
     gradio_predict := fun _ _ => Ok (JArr [JNull; JObj {[ "hate" := JNum 0.9 ]}]);
     inference_post := fun _ _ => Ok (JObj {[ "hate" := JNum 0.9 ]});
     openai_post := fun _ => AxiosNoResponse "ENOTFOUND" "Network Error" |}.

(** Client payloads [{ username }] and [{ text }]. *)
Definition username_payload (name : string) : JVal := JObj {[ "username" := JStr name ]}.
Definition text_payload (text : string) : JVal := JObj {[ "text" := JStr text ]}.

(** A deferred AI turn for the message ["hi"] of connection ["abc"]. *)
Definition sample_task : AITask :=
  {| task_socket := "abc"; task_message := "hi";
     task_moderation := {| isBlocked := false; reason := "OK"; details := D_null |};
     task_blocked := false |}.

(** ** Shutdown ([socketHandler.js]) *)

(** [cleanupAllRateLimits()]: the three maps are cleared. The
    [socketUsername] variables of the open connections and the callbacks
    already queued are out of its reach. *)
Definition cleanupAllRateLimits (st : State) : State :=
  {| rateLimitMap := ∅;
     conversationHistoryMap := ∅;
     aiResponseRateLimitMap := ∅;
     socketUsername := socketUsername st;
     deferred := deferred st |}.

(** ** Vocabulary of the session properties *)

(** The connection on whose behalf an event runs: the one of a client
    event, and for a deferred AI turn the one of the oldest queued task. *)
Definition event_socket (ev : Event) (st : State) : option string :=
  match ev with
  | RegisterUsername socketId _ _ => Some socketId
  | Message socketId _ _ _ => Some socketId
  | Disconnect socketId => Some socketId
  | RunDeferred _ _ =>
      match deferred st with
      | task :: _ => Some (task_socket task)
      | [] => None
      end
  end.

(** What a list of effects sends to clients, in order: the events, each
    with its addressee ([None] for a broadcast). *)
Definition emissions (out : list Effect) : list (option string * ServerEvent) :=
  omap (fun e =>
          match e with
          | SocketEmit socketId ev => Some (Some socketId, ev)
          | IoEmit ev => Some (None, ev)
          | _ => None
          end) out.

(** The texts handed to [moderateText] by a list of effects. *)
Definition moderated_texts (out : list Effect) : list string :=
  omap (fun e => match e with CallModeration text => Some text | _ => None end) out.


(** The name a connection bears after an event, given the one it bore
    before: a valid registration sets it, a disconnect clears it. *)
Definition renamed (socketId : string) (name : option string) (ev : Event) : option string :=
  match ev with
  | RegisterUsername s data _ =>
      if String.eqb s socketId then
        match string_field data "username" with
        | Some raw => if valid_username raw then Some (trim raw) else name
        | None => name
        end
      else name
  | Disconnect s => if String.eqb s socketId then None else name
  | _ => name
  end.

(** The name of a connection after a run: the one of its latest valid
    registration since it last disconnected. *)
Definition current_name (socketId : string) (evs : list (World * Event)) : option string :=
  fold_left (fun name wev => renamed socketId name (snd wev)) evs None.

(** The scores, the maximum and its category as an outcome reports them,
    when its details are those of a scored response. *)
Definition reported_scores (o : Outcome) : option (list (string * Q) * Q * option string) :=
  match details o with
  | D_scores scores maxScore maxCategory _ _ _ _ => Some (scores, maxScore, maxCategory)
  | _ => None
  end.

(** What a connection holds stays within its bounds: at most the
    configured number of message timestamps, at most 10 timestamps of AI
    turns, and at most the configured number of history entries. *)
Definition within_bounds (config : Config) (st : State) : Prop :=
  forall socketId,
    Z.of_nat (length (recorded socketId (rateLimitMap st))) <= Z.max 0 (messagesPerMinute config)
    /\ (length (recorded socketId (aiResponseRateLimitMap st)) <= 10)%nat
    /\ (length (history_of socketId (conversationHistoryMap st)) <= history_cap config)%nat.

(** ** Vocabulary of the outcome properties *)

(** The reasons of an outcome for which nothing was scored. *)
Definition fallback_reasons : list string :=
  [ "Empty message"; "API_ERROR"; "PARSE_ERROR"; "UNEXPECTED_RESPONSE" ].

(** The reason of an outcome fits its verdict: an outcome that reports
    scores has the reason OK when it does not block and a reason that
    begins with Blocked when it does; an outcome that reports none does not
    block and has one of the fallback reasons. *)
Definition reason_fits (o : Outcome) : Prop :=
  match reported_scores o with
  | Some _ =>
      if isBlocked o then String.prefix "Blocked" (reason o) = true else reason o = "OK"
  | None => isBlocked o = false /\ reason o ∈ fallback_reasons
  end.

(** The reported scores are consistent: they are listed in the order of
    the catalog, at most one per category; none exceeds the reported
    maximum; and the reported category is the one of a listed score that is
    positive and equal to the maximum, or is absent with a maximum of 0. *)
Definition scores_consistent (scores : list (string * Q)) (maxScore : Q)
    (maxCategory : option string) : Prop :=
  sublist (map fst scores) toxicCategories
  /\ Forall (fun p => (snd p <= maxScore)%Q) scores
  /\ match maxCategory with
     | Some category => (0 < maxScore)%Q /\ (category, maxScore) ∈ scores
     | None => (maxScore == 0)%Q
     end.

(** The effect is one of the AI: a call of [generateAIResponse] or of
    [generateGreeting], or the delivery of a message marked as the AI's. *)
Definition ai_effect (e : Effect) : bool :=
  match e with
  | CallAI _ _ _ => true
  | CallGreeting _ => true
  | SocketEmit _ (MessageEvent m) => isAI m
  | IoEmit (MessageEvent m) => isAI m
  | _ => false
  end.

(** The user turn that [buildMessages] writes for a blocked message whose
    outcome has details. *)
Definition blocked_user_turn (userMessage : string) (d : Details) : ChatTurn :=
  {| role := "user";
     turn_content :=
       "The user tried to send: " ++ dq ++ userMessage ++ dq
       ++ " but it got blocked (detected " ++ detected_category d
       ++ "). React naturally and chat about it - be friendly and understanding, like a friend would." |}.

(** ** Further sample data *)

(** The examples' configuration with the AI agent switched off. *)
Definition config_ai_disabled : Config :=
  {| apiToken := "token"; apiUrl := "https://api-inference.example/models/m";
     nodeEnv := "test"; threshold := Fin 0.5; saferValue := None;
     messagesPerMinute := 30; ai_enabled := false; ai_apiKey := "key";
     ai_model := "gpt-3.5-turbo"; maxResponseLength := 200;
     conversationHistorySize := 5 |}.

(** The examples' configuration with the AI agent switched on and no API
    key. *)
Definition config_no_key : Config :=
  {| apiToken := "token"; apiUrl := "https://api-inference.example/models/m";
     nodeEnv := "test"; threshold := Fin 0.5; saferValue := None;
     messagesPerMinute := 30; ai_enabled := true; ai_apiKey := "";
     ai_model := "gpt-3.5-turbo"; maxResponseLength := 200;
     conversationHistorySize := 5 |}.

(** ** Threshold recommendation of the feedback analysis ([config.js]) *)

(** [x.toFixed(1)] for an exact [x]: the sign, then the integer [n]
    nearest to [|x| * 10] (the larger one in case of a tie) written with one
    digit after the point. *)
Definition toFixed1 (x : Q) : string :=
  let n := Qfloor (Qabs x * 10 + (1 # 2))%Q in
  (if Qle_bool 0 x then "" else "-")
  ++ pretty (n / 10) ++ "." ++ pretty (n mod 10).

(** [parseFloat(x.toFixed(4))]: the multiple of 1/10000 nearest to [x]
    (the one of larger magnitude in case of a tie). *)
Definition round4 (x : Q) : Q :=
  let n := Qfloor (Qabs x * 10000 + (1 # 2))%Q in
  if Qle_bool 0 x then (n # 10000)%Q else (- (n # 10000))%Q.

(** The object [calculateThresholdRecommendation] returns. *)
Record ThresholdRecommendation : Type := mkRecommendation {
  rec_current : Q;
  rec_recommended : Q;
  rec_change : string;
  rec_reason : string
}.

(** [calculateThresholdRecommendation(falsePositiveRate, falseNegativeRate,
    currentThreshold)], for rates that are numbers and a current threshold
    that is a non-zero number, which is what its caller passes
    ([logs[0]?.threshold || 0.5]). *)
Definition calculateThresholdRecommendation
    (falsePositiveRate falseNegativeRate currentThreshold : Q) : ThresholdRecommendation :=
  let '(recommendation, reason) :=
    if Qltb 20 falsePositiveRate then
      (if Qltb (currentThreshold * 1.1) 0.1 then (currentThreshold * 1.1)%Q else 0.1%Q,
       "High false positive rate (" ++ toFixed1 falsePositiveRate
       ++ "%) suggests threshold is too strict")
    else if Qltb 10 falseNegativeRate then
      (if Qltb 0.005 (currentThreshold * 0.9) then (currentThreshold * 0.9)%Q else 0.005%Q,
       "High false negative rate (" ++ toFixed1 falseNegativeRate
       ++ "%) suggests threshold is too loose")
    else (currentThreshold, "Threshold appears balanced") in
  {| rec_current := currentThreshold;
     rec_recommended := round4 recommendation;
     rec_change :=
       toFixed1 ((recommendation - currentThreshold) / currentThreshold * 100) ++ "%";
     rec_reason := reason |}.

(** The errors the message handler answers a rejected message with. *)
Definition message_errors : list string :=
  [ "Please set your username first";
    "Invalid message format";
    "Message cannot be empty";
    "Message too long (max 1000 characters)" ].

(** The event is an error event. *)
Definition is_error (ev : ServerEvent) : bool :=
  match ev with
  | ErrorEvent _ _ => true
  | _ => false
  end.

(** * Properties *)

(** ** Rate limiter *)

Section RateLimit.

Variable config : Config.

Lemma checkRateLimit_accept now socketId m :
  Z.of_nat (length (in_window now (recorded socketId m))) < messagesPerMinute config ->
  fst (checkRateLimit config now socketId m) = true
  /\ recorded socketId (snd (checkRateLimit config now socketId m))
     = (in_window now (recorded socketId m) ++ [now])%list.
Proof.
  intros Hlt. unfold checkRateLimit, recorded, in_window in *.
  destruct (m !! socketId) as [l|] eqn:Hm; simpl in *;
    rewrite ?lookup_insert_eq, ?Hm; simpl;
    (case_bool_decide; [lia|]); simpl; by rewrite lookup_insert_eq.
Qed.

Lemma checkRateLimit_reject now socketId m :
  messagesPerMinute config <= Z.of_nat (length (in_window now (recorded socketId m))) ->
  fst (checkRateLimit config now socketId m) = false
  /\ recorded socketId (snd (checkRateLimit config now socketId m)) = recorded socketId m.
Proof.
  intros Hle. unfold checkRateLimit, recorded, in_window in *.
  destruct (m !! socketId) as [l|] eqn:Hm; simpl in *;
    rewrite ?lookup_insert_eq, ?Hm; simpl;
    (case_bool_decide; [|lia]); simpl; by rewrite ?lookup_insert_eq, ?Hm.
Qed.

(** Other connections are not touched. *)
Lemma checkRateLimit_other now socketId other m :
  socketId <> other ->
  recorded other (snd (checkRateLimit config now socketId m)) = recorded other m.
Proof.
  intros Hne. unfold checkRateLimit, recorded.
  repeat case_bool_decide; simpl; rewrite ?lookup_insert_ne by done; done.
Qed.

(** The decision of a check, in one equivalence. *)
Lemma checkRateLimit_iff now socketId m :
  fst (checkRateLimit config now socketId m) = true
  <-> Z.of_nat (length (in_window now (recorded socketId m))) < messagesPerMinute config.
Proof.
  split.
  - intros Hacc.
    destruct (Z_lt_le_dec (Z.of_nat (length (in_window now (recorded socketId m))))
                (messagesPerMinute config)) as [?|Hle]; [done|].
    apply checkRateLimit_reject in Hle as [Hrej _]. congruence.
  - intros Hlt. by apply checkRateLimit_accept.
Qed.

Lemma in_window_all t l :
  Forall (fun x => t - 60000 < x) l -> in_window t l = l.
Proof.
  unfold in_window. induction 1 as [|x l Hx _ IH]; [done|].
  rewrite filter_cons_True by done. by rewrite IH.
Qed.

(** A run of accepted sends inside the window that ends at [t] is kept, in
    order, at the end of the record. *)
Lemma check_all_accepted_suffix t socketId times :
  forall m acc bs m',
    check_all config socketId times m = (bs, m') ->
    Forall (fun b => b = true) bs ->
    Forall (fun ti => t - 60000 < ti <= t) times ->
    Forall (fun x => t - 60000 < x) acc ->
    (exists pre, recorded socketId m = pre ++ acc)%list ->
    (exists pre, recorded socketId m' = pre ++ acc ++ times)%list.
Proof.
  induction times as [|ti times IH]; intros m acc bs m' Hrun Hall Hwin Hacc [pre Hpre].
  - simpl in Hrun. simplify_eq. exists pre. by rewrite app_nil_r.
  - simpl in Hrun.
    destruct (checkRateLimit config ti socketId m) as [b m1] eqn:Hc.
    destruct (check_all config socketId times m1) as [bs' m2] eqn:Hr.
    simplify_eq.
    inversion Hall as [|? ? Hb Hbs]; subst.
    inversion Hwin as [|? ? Hti Hrest]; subst.
    assert (Hok : fst (checkRateLimit config ti socketId m) = true) by by rewrite Hc.
    apply checkRateLimit_iff, checkRateLimit_accept in Hok as [_ Hrec].
    rewrite Hc in Hrec. simpl in Hrec.
    destruct (IH m1 (acc ++ [ti])%list bs' m') as [pre' Hpre']; try done.
    + apply Forall_app. split; [done|]. constructor; [lia|constructor].
    + exists (in_window ti pre). rewrite Hrec, Hpre.
      unfold in_window at 1. rewrite filter_app. fold (in_window ti pre) (in_window ti acc).
      rewrite (in_window_all ti acc).
      * by rewrite <- !app_assoc.
      * eapply Forall_impl; [exact Hacc|]. simpl. intros; lia.
    + exists pre'. rewrite Hpre'. by rewrite <- !app_assoc.
Qed.

(** No record built by the limiter is longer than the limit. *)
Lemma check_calls_bounded calls :
  forall m,
    (forall socketId, Z.of_nat (length (recorded socketId m)) <= Z.max 0 (messagesPerMinute config)) ->
    forall socketId,
      Z.of_nat (length (recorded socketId (check_calls config calls m)))
      <= Z.max 0 (messagesPerMinute config).
Proof.
  induction calls as [|[key t] calls IH]; intros m Hinv socketId; [by apply Hinv|].
  simpl. apply IH. clear socketId. intros socketId.
  destruct (decide (key = socketId)) as [->|Hne].
  - destruct (Z_lt_le_dec (Z.of_nat (length (in_window t (recorded socketId m))))
                (messagesPerMinute config)) as [Hlt|Hge].
    + apply checkRateLimit_accept in Hlt as Hacc. destruct Hacc as [_ ->].
      rewrite length_app. simpl. lia.
    + apply checkRateLimit_reject in Hge as [_ ->]. apply Hinv.
  - rewrite checkRateLimit_other by done. apply Hinv.
Qed.

End RateLimit.

(** C3. A check at time [now] is accepted exactly when fewer than the
    configured limit of the recorded timestamps lie in the window
    [(now - 60000, now]]; an accepted check records [now] after the
    timestamps of the window, a refused one leaves the record as it was.
    Hence, after exactly [messagesPerMinute] accepted sends inside the
    minute that ends at [t], the check at [t] is refused and records
    nothing; and as soon as 60 s have passed since the oldest recorded send
    of a record built by the limiter, the next check is accepted. *)
Theorem rate_limit_sliding_window (config : Config) :
  (forall now socketId m,
      (fst (checkRateLimit config now socketId m) = true
       <-> Z.of_nat (length (in_window now (recorded socketId m))) < messagesPerMinute config)
      /\ (fst (checkRateLimit config now socketId m) = true ->
          recorded socketId (snd (checkRateLimit config now socketId m))
          = (in_window now (recorded socketId m) ++ [now])%list)
      /\ (fst (checkRateLimit config now socketId m) = false ->
          recorded socketId (snd (checkRateLimit config now socketId m))
          = recorded socketId m))
  /\ (forall t socketId times m bs m',
         check_all config socketId times m = (bs, m') ->
         Forall (fun b => b = true) bs ->
         Forall (fun ti => t - 60000 < ti <= t) times ->
         Z.of_nat (length times) = messagesPerMinute config ->
         fst (checkRateLimit config t socketId m') = false
         /\ recorded socketId (snd (checkRateLimit config t socketId m'))
            = recorded socketId m')
  /\ (forall calls socketId oldest rest t,
         recorded socketId (check_calls config calls ∅) = oldest :: rest ->
         oldest + 60000 <= t ->
         fst (checkRateLimit config t socketId (check_calls config calls ∅)) = true).
Proof.
  split; [|split].
  - intros now socketId m. split; [apply checkRateLimit_iff|]. split.
    + intros Hacc. apply checkRateLimit_iff in Hacc. by apply checkRateLimit_accept.
    + intros Hrej.
      destruct (Z_lt_le_dec (Z.of_nat (length (in_window now (recorded socketId m))))
                  (messagesPerMinute config)) as [Hlt|Hge].
      * apply (checkRateLimit_accept config) in Hlt as [? _]. congruence.
      * by apply checkRateLimit_reject.
  - intros t socketId times m bs m' Hrun Hall Hwin Hlen.
    apply checkRateLimit_reject.
    destruct (check_all_accepted_suffix config t socketId times m [] bs m')
      as [pre Hpre]; try done.
    { exists (recorded socketId m). by rewrite app_nil_r. }
    rewrite Hpre. simpl. unfold in_window. rewrite filter_app.
    fold (in_window t pre) (in_window t times).
    rewrite (in_window_all t times).
    + rewrite length_app. lia.
    + eapply Forall_impl; [exact Hwin|]. simpl. intros; lia.
  - intros calls socketId oldest rest t Hrec Hold.
    apply checkRateLimit_iff.
    pose proof (check_calls_bounded config calls ∅) as Hb.
    specialize (Hb (fun s => ltac:(unfold recorded; rewrite lookup_empty; simpl; lia)) socketId).
    rewrite Hrec in *. unfold in_window. rewrite filter_cons_False by lia.
    pose proof (length_filter (fun timestamp => t - 60000 < timestamp) rest) as Hf.
    simpl in Hb. lia.
Qed.

Lemma rate_limit_sliding_window_witness :
  fst (checkRateLimit config_limit_2 2000 "s"
         (snd (check_all config_limit_2 "s" [0; 1000] ∅))) = false
  /\ fst (checkRateLimit config_limit_2 60000 "s"
            (check_calls config_limit_2 [("s", 0); ("s", 1000)] ∅)) = true.
Proof.
  destruct (rate_limit_sliding_window config_limit_2) as (_ & Hcap & Hrecover).
  split.
  - eapply (Hcap 2000 "s" [0; 1000] ∅).
    + apply surjective_pairing.
    + vm_compute. repeat constructor.
    + repeat constructor; lia.
    + reflexivity.
  - eapply (Hrecover [("s", 0); ("s", 1000)] "s" 0 [1000] 60000).
    + vm_compute. reflexivity.
    + lia.
Defined.

(** ** Conversation history *)

(** The history of the connection after an append, whatever the size. *)
Lemma addToConversationHistory_lookup config socketId author text timestamp m :
  history_of socketId (addToConversationHistory config socketId author text timestamp m)
  = let h := (history_of socketId m ++ [entry_of (author, text, timestamp)])%list in
    if bool_decide (conversationHistorySize config < Z.of_nat (length h)) then tail h else h.
Proof.
  unfold addToConversationHistory, history_of, entry_of.
  assert (Heq : default [] ((if bool_decide (is_Some (m !! socketId)) then m
                             else <[socketId:=[]]> m) !! socketId)
                = default [] (m !! socketId)).
  { destruct (m !! socketId) eqn:Hm; simpl; [by rewrite Hm|by rewrite lookup_insert_eq]. }
  rewrite lookup_insert_eq. simpl. by rewrite Heq.
Qed.

Lemma addToConversationHistory_other config socketId other author text timestamp m :
  socketId <> other ->
  history_of other (addToConversationHistory config socketId author text timestamp m)
  = history_of other m.
Proof.
  intros Hne. unfold addToConversationHistory, history_of.
  rewrite lookup_insert_ne by done.
  case_bool_decide; [done|]. by rewrite lookup_insert_ne.
Qed.

Section History.

Variable config : Config.
Hypothesis size_nonneg : 0 <= conversationHistorySize config.

Lemma addToConversationHistory_same socketId author text timestamp m :
  history_of socketId (addToConversationHistory config socketId author text timestamp m)
  = let h := (history_of socketId m ++ [entry_of (author, text, timestamp)])%list in
    if bool_decide (history_cap config < length h)%nat then tail h else h.
Proof.
  rewrite addToConversationHistory_lookup. cbv zeta.
  repeat case_bool_decide; try done; unfold history_cap in *; lia.
Qed.

Lemma add_preserves_bound socketId author text timestamp m :
  (length (history_of socketId m) <= history_cap config)%nat ->
  (length (history_of socketId
             (addToConversationHistory config socketId author text timestamp m)) <= history_cap config)%nat.
Proof.
  intros Hlen. rewrite addToConversationHistory_same. simpl.
  case_bool_decide as Hc.
  - destruct (history_of socketId m) as [|x h]; simpl in *; [lia|].
    rewrite length_app in *. simpl in *. lia.
  - lia.
Qed.

Lemma last_n_tail {A} (n : nat) (l : list A) :
  (n < length l)%nat -> last_n n (tail l) = last_n n l.
Proof.
  unfold last_n. destruct l as [|x l]; simpl; [lia|]. intros Hn.
  replace (S (length l) - n)%nat with (S (length l - n)) by lia. done.
Qed.

Lemma append_all_last socketId es :
  forall m,
    (length (history_of socketId m) <= history_cap config)%nat ->
    history_of socketId (append_all config socketId es m)
    = last_n (history_cap config) (history_of socketId m ++ map entry_of es).
Proof.
  induction es as [|[[author text] timestamp] es IH]; intros m Hlen.
  - simpl. rewrite app_nil_r. unfold last_n.
    replace (length (history_of socketId m) - history_cap config)%nat with 0%nat by lia. done.
  - cbn [append_all]. rewrite IH by by apply add_preserves_bound.
    rewrite addToConversationHistory_same. cbv zeta.
    change (map entry_of ((author, text, timestamp) :: es))
      with (entry_of (author, text, timestamp) :: map entry_of es).
    replace (history_of socketId m ++ entry_of (author, text, timestamp) :: map entry_of es)%list
      with ((history_of socketId m ++ [entry_of (author, text, timestamp)]) ++ map entry_of es)%list
      by (by rewrite <- app_assoc).
    set (h := (history_of socketId m ++ [entry_of (author, text, timestamp)])%list) in *.
    case_bool_decide as Hc; [|done].
    destruct h as [|x h'] eqn:Hh; [simpl in Hc; lia|].
    change (tail (x :: h') ++ map entry_of es)%list
      with (tail (x :: (h' ++ map entry_of es)%list)).
    change ((x :: h') ++ map entry_of es)%list with (x :: (h' ++ map entry_of es))%list.
    apply last_n_tail. simpl in *. rewrite length_app. lia.
Qed.

Lemma append_calls_bounded calls :
  forall m,
    (forall socketId, (length (history_of socketId m) <= history_cap config)%nat) ->
    forall socketId, (length (history_of socketId (append_calls config calls m)) <= history_cap config)%nat.
Proof.
  induction calls as [|[key [[author text] timestamp]] calls IH]; intros m Hinv socketId;
    [by apply Hinv|].
  simpl. apply IH. clear socketId. intros socketId.
  destruct (decide (key = socketId)) as [->|Hne].
  - by apply add_preserves_bound.
  - by rewrite (addToConversationHistory_other config).
Qed.

End History.

(** C7. With a history size [N >= 0]: no history built by
    [addToConversationHistory] is ever longer than [N]; appending to a
    history that holds [N] entries drops exactly its first (oldest) entry;
    and after any number of appends the history is the last [N] entries
    appended, oldest first, in particular after [N + 1] appends. *)
Theorem history_bounded_fifo (config : Config) :
  0 <= conversationHistorySize config ->
  let N := history_cap config in
  (forall calls socketId,
      (length (history_of socketId (append_calls config calls ∅)) <= N)%nat)
  /\ (forall socketId author text timestamp m,
         length (history_of socketId m) = N ->
         history_of socketId (addToConversationHistory config socketId author text timestamp m)
         = tail (history_of socketId m ++ [entry_of (author, text, timestamp)]))
  /\ (forall socketId es,
         history_of socketId (append_all config socketId es ∅) = last_n N (map entry_of es))
  /\ (forall socketId e es,
         length (e :: es) = S N ->
         history_of socketId (append_all config socketId (e :: es) ∅) = map entry_of es).
Proof.
  intros Hsize N.
  assert (Hempty : forall s, (length (history_of s (∅ : gmap string (list HistoryEntry))) <= N)%nat).
  { intros s. unfold history_of. rewrite lookup_empty. simpl. lia. }
  split; [|split; [|split]].
  - intros calls socketId. by apply append_calls_bounded.
  - intros socketId author text timestamp m Hlen.
    rewrite addToConversationHistory_same by done. simpl.
    rewrite bool_decide_eq_true_2; [done|]. rewrite length_app. simpl. fold N. lia.
  - intros socketId es. rewrite (append_all_last config Hsize) by apply Hempty.
    unfold history_of at 1. by rewrite lookup_empty.
  - intros socketId e es Hlen. rewrite (append_all_last config Hsize) by apply Hempty.
    unfold history_of at 1. rewrite lookup_empty. simpl.
    unfold last_n. simpl in *. rewrite length_map. fold N.
    replace (S (length es) - N)%nat with 1%nat by lia. done.
Qed.

Lemma history_bounded_fifo_witness :
  history_of "s" (append_all config_limit_2 "s"
                    [("Ann", "one", 1); ("", "two", 2); ("AI Moderator", "three", 3)] ∅)
  = [ {| h_author := "Anonymous"; h_text := "two"; h_timestamp := 2 |};
      {| h_author := "AI Moderator"; h_text := "three"; h_timestamp := 3 |} ].
Proof.
  assert (H : 0 <= conversationHistorySize config_limit_2) by (vm_compute; discriminate).
  destruct (history_bounded_fifo config_limit_2 H) as (_ & _ & _ & Hlast).
  apply (Hlast "s" ("Ann", "one", 1) [("", "two", 2); ("AI Moderator", "three", 3)]).
  reflexivity.
Defined.

(** ** Moderation decision *)

Lemma Qltb_true x y : Qltb x y = true <-> (x < y)%Q.
Proof.
  unfold Qltb. rewrite negb_true_iff. split.
  - intros H. apply Qnot_le_lt. intros Hle. apply Qle_bool_iff in Hle. congruence.
  - intros H. destruct (Qle_bool y x) eqn:E; [|done].
    apply Qle_bool_iff in E. exfalso. by apply (Qlt_not_le x y).
Qed.

Lemma Qltb_false x y : Qltb x y = false <-> (y <= x)%Q.
Proof.
  unfold Qltb. rewrite negb_false_iff. apply Qle_bool_iff.
Qed.

Lemma Qle_bool_compat x x' y y' :
  (x == x')%Q -> (y == y')%Q -> Qle_bool x y = Qle_bool x' y'.
Proof.
  intros Hx Hy. destruct (Qle_bool x y) eqn:E, (Qle_bool x' y') eqn:E'; try done.
  - apply Qle_bool_iff in E. rewrite Hx, Hy in E. apply Qle_bool_iff in E. congruence.
  - apply Qle_bool_iff in E'. rewrite <- Hx, <- Hy in E'. apply Qle_bool_iff in E'. congruence.
Qed.

Section Scores.

Variable fields : gmap string JVal.

Lemma first_truthy_present keys dflt :
  first_truthy (JObj fields) keys dflt = Ok (default dflt (first_present fields keys)).
Proof.
  unfold first_present. induction keys as [|k keys IH]; [done|].
  cbn [first_truthy get_prop bind omap list_omap].
  destruct (fields !! k) as [v|] eqn:Hk; cbn [default from_option id].
  - destruct (truthy v) eqn:Hv.
    + by rewrite filter_cons_True.
    + rewrite filter_cons_False by congruence. apply IH.
  - cbn [truthy]. apply IH.
Qed.

(** One iteration of the scan, in terms of the recognized score. *)
Lemma scan_category_score cs m c category :
  toLowerCase category <> "safe content" ->
  scan_category (JObj fields) (cs, m, c) category =
    Ok match category_score fields category with
       | Some q =>
           if Qltb m q then ((cs ++ [(category, q)])%list, q, Some category)
           else ((cs ++ [(category, q)])%list, m, c)
       | None => (cs, m, c)
       end.
Proof.
  intros Hsafe. unfold scan_category, category_score.
  rewrite first_truthy_present. cbn [bind].
  assert (String.eqb (toLowerCase category) "safe content" = false) as ->
    by by apply String.eqb_neq.
  destruct (first_present fields (category_keys category)) as [[]|]; cbn; try done;
    by destruct (Qltb m _).
Qed.

(** The scan never throws on an object, and its [maxScore] is the maximum
    of the starting value and of the scores met. *)
Lemma scan_categories_max categories :
  Forall (fun category => toLowerCase category <> "safe content") categories ->
  forall cs m c,
  exists cs' m' c',
    scan_categories (JObj fields) (cs, m, c) categories = Ok (cs', m', c')
    /\ (m <= m')%Q
    /\ (forall category q,
           category ∈ categories -> category_score fields category = Some q -> (q <= m')%Q)
    /\ (m' = m \/ exists category,
                    category ∈ categories /\ category_score fields category = Some m').
Proof.
  induction 1 as [|category categories Hc _ IH]; intros cs m c.
  - exists cs, m, c. repeat split; [apply Qle_refl| |by left].
    intros ? ? Hin. by apply elem_of_nil in Hin.
  - cbn [scan_categories]. rewrite scan_category_score by done. cbn [bind].
    destruct (category_score fields category) as [q|] eqn:Hq.
    + destruct (Qltb m q) eqn:Hlt.
      * destruct (IH (cs ++ [(category, q)])%list q (Some category))
          as (cs' & m' & c' & Hrun & Hle & Hub & Hatt).
        exists cs', m', c'. split; [done|]. apply Qltb_true in Hlt.
        split; [eapply Qle_trans; [apply Qlt_le_weak, Hlt|done]|]. split.
        -- intros cat q' [->|Hin]%elem_of_cons Hs; [|by eapply Hub].
           rewrite Hq in Hs. by simplify_eq.
        -- right. destruct Hatt as [->|(cat & Hin & Hs)].
           ++ exists category. split; [apply elem_of_cons; by left|done].
           ++ exists cat. split; [apply elem_of_cons; by right|done].
      * destruct (IH (cs ++ [(category, q)])%list m c)
          as (cs' & m' & c' & Hrun & Hle & Hub & Hatt).
        exists cs', m', c'. split; [done|]. apply Qltb_false in Hlt.
        split; [done|]. split.
        -- intros cat q' [->|Hin]%elem_of_cons Hs; [|by eapply Hub].
           rewrite Hq in Hs. simplify_eq. by eapply Qle_trans.
        -- destruct Hatt as [->|(cat & Hin & Hs)]; [by left|].
           right. exists cat. split; [apply elem_of_cons; by right|done].
    + destruct (IH cs m c) as (cs' & m' & c' & Hrun & Hle & Hub & Hatt).
      exists cs', m', c'. split; [done|]. split; [done|]. split.
      * intros cat q' [->|Hin]%elem_of_cons Hs; [congruence|by eapply Hub].
      * destruct Hatt as [->|(cat & Hin & Hs)]; [by left|].
        right. exists cat. split; [apply elem_of_cons; by right|done].
Qed.

Lemma toxicCategories_not_safe :
  Forall (fun category => toLowerCase category <> "safe content") toxicCategories.
Proof. unfold toxicCategories. repeat constructor; by vm_compute. Qed.

Lemma scan_toxicCategories :
  exists cs m c,
    scan_categories (JObj fields) ([], 0%Q, None) toxicCategories = Ok (cs, m, c)
    /\ is_max_category_score fields m.
Proof.
  destruct (scan_categories_max toxicCategories toxicCategories_not_safe [] 0%Q None)
    as (cs & m & c & Hrun & Hle & Hub & Hatt).
  exists cs, m, c. split; [done|]. split; [done|]. split; [done|].
  destruct Hatt as [->|(cat & Hin & Hs)]; [by left|].
  right. exists cat, m. by repeat split.
Qed.

(** The maximum is determined up to the representation of the rational. *)
Lemma is_max_category_score_unique m1 m2 :
  is_max_category_score fields m1 -> is_max_category_score fields m2 -> (m1 == m2)%Q.
Proof.
  intros (H01 & Hub1 & Hatt1) (H02 & Hub2 & Hatt2).
  apply Qle_antisym.
  - destruct Hatt1 as [->|(cat & q & Hin & Hs & ->)]; [done|by eapply Hub2].
  - destruct Hatt2 as [->|(cat & q & Hin & Hs & ->)]; [done|by eapply Hub1].
Qed.

Lemma decide_scores_object B config :
  exists o,
    decide_scores B config (JObj fields) = Ok o
    /\ (has_flag_key fields = true ->
        isBlocked o = flag_set fields "is_flagged" || flag_set fields "is_safer_flagged")
    /\ (has_flag_key fields = false ->
        forall m, is_max_category_score fields m ->
        isBlocked o = num_ge (Fin m) (threshold config)
                      || safe_score_low B (threshold config) (safe_score fields)).
Proof.
  destruct scan_toxicCategories as (cs & m & c & Hrun & Hmax).
  assert (Hflags :
    (if bool_decide (is_Some (fields !! "is_flagged")) then Ok true
     else Ok (bool_decide (is_Some (fields !! "is_safer_flagged"))))
    = Ok (has_flag_key fields)).
  { unfold has_flag_key. repeat case_bool_decide; try done; tauto. }
  assert (Hf : forall k, is_true (default JUndefined (fields !! k)) = flag_set fields k).
  { intros k. unfold flag_set. by destruct (fields !! k) as [[| |[]| | | |]|]. }
  unfold decide_scores. rewrite Hrun. cbn [bind get_prop has_prop].
  rewrite first_truthy_present, Hflags. cbn [bind].
  eexists. split; [reflexivity|]. cbn [isBlocked]. split.
  - intros ->. by rewrite !Hf.
  - intros -> m' Hmax'.
    pose proof (is_max_category_score_unique m m' Hmax Hmax') as Heq.
    f_equal.
    + destruct (threshold config) as [|t]; [done|]. cbn [num_ge].
      apply Qle_bool_compat; [reflexivity|done].
    + unfold safe_score, safe_score_low.
      by destruct (first_present fields ok_keys).
Qed.

End Scores.

Lemma parseModerationResponse_scores B config apiResponse fields :
  response_scores apiResponse = Some fields ->
  parseModerationResponse B config apiResponse = decide_scores B config (JObj fields).
Proof.
  destruct apiResponse as [| | | | |xs|fs]; try done.
  - destruct xs as [|el rest]; [by intros [= <-]|].
    unfold parseModerationResponse.
    rewrite bool_decide_eq_true_2 by (simpl; lia).
    change (nth_or_undefined (el :: rest) 0) with el.
    destruct el as [| |b| q |s|ys|fs]; unfold or_else;
      cbn [response_scores isArray andb truthy]; try (by intros [= <-]).
    + destruct b; [done|by intros [= <-]].
    + destruct (Qeq_bool q 0); cbn [negb]; [by intros [= <-]|done].
    + destruct (String.eqb s ""); cbn [negb]; [by intros [= <-]|done].
    + destruct (scores_of_pairs (JArr ys :: rest) ∅); cbn [bind]; [by intros [= <-]|done].
  - by intros [= <-].
Qed.

(** C1. When the scores object of a moderation response carries an
    [is_flagged] or [is_safer_flagged] key, the outcome is blocked exactly
    when one of the two flags is [true]; otherwise it is blocked exactly
    when the maximum recognized category score reaches the configured
    threshold, or a safe/OK score is present, greater than 0 and less than
    1 minus the threshold. *)
Theorem moderation_decision_rule B config apiResponse fields :
  response_scores apiResponse = Some fields ->
  exists o,
    parseModerationResponse B config apiResponse = Ok o
    /\ (has_flag_key fields = true ->
        isBlocked o = flag_set fields "is_flagged" || flag_set fields "is_safer_flagged")
    /\ (has_flag_key fields = false ->
        (exists m, is_max_category_score fields m)
        /\ forall m, is_max_category_score fields m ->
             isBlocked o = num_ge (Fin m) (threshold config)
                           || safe_score_low B (threshold config) (safe_score fields)).
Proof.
  intros Hscores. rewrite (parseModerationResponse_scores B config _ _ Hscores).
  destruct (decide_scores_object fields B config) as (o & Hrun & Hflags & Hrule).
  exists o. split; [done|]. split; [done|]. intros Hno. split; [|by apply Hrule].
  destruct (scan_toxicCategories fields) as (cs & m & c & _ & Hmax). by exists m.
Qed.

Lemma moderation_decision_rule_witness :
  exists o,
    parseModerationResponse sample_builtins sample_config
      (JObj {[ "hate" := JNum 0.9 ]}) = Ok o
    /\ isBlocked o = true.
Proof.
  destruct (moderation_decision_rule sample_builtins sample_config
              (JObj {[ "hate" := JNum 0.9 ]}) {[ "hate" := JNum 0.9 ]} eq_refl)
    as (o & Hparse & _ & Hrule).
  exists o. split; [exact Hparse|].
  destruct (Hrule ltac:(vm_compute; reflexivity)) as [[m Hm] Hdec].
  rewrite (Hdec m Hm). destruct Hm as (_ & Hub & _).
  assert (Hin : "hate" ∈ toxicCategories) by (apply list_elem_of_In; simpl; tauto).
  specialize (Hub "hate" 0.9%Q Hin ltac:(vm_compute; reflexivity)).
  apply orb_true_iff. left. cbn [num_ge sample_config threshold].
  apply Qle_bool_iff. eapply Qle_trans; [|exact Hub]. vm_compute. discriminate.
Defined.

(** ** The moderation call never raises *)

(** On a primitive the scan finds nothing and the [in] test throws. *)
Lemma decide_scores_primitive B config v :
  match v with JBool _ | JNum _ | JStr _ => True | _ => False end ->
  exists e, decide_scores B config v = Throw e.
Proof. destruct v; try done; intros _; eexists; reflexivity. Qed.

(** A response without a scores object is reported as unexpected or makes
    the parser throw. *)
Lemma parseModerationResponse_no_scores B config apiResponse :
  response_scores apiResponse = None ->
  parseModerationResponse B config apiResponse = Ok (unexpected_response apiResponse)
  \/ exists e, parseModerationResponse B config apiResponse = Throw e.
Proof.
  destruct apiResponse as [| |b|q|s|xs|fs]; try done; try (by left).
  - intros _. right. eexists. reflexivity.
  - destruct xs as [|el rest]; [done|].
    unfold parseModerationResponse.
    rewrite bool_decide_eq_true_2 by (simpl; lia).
    change (nth_or_undefined (el :: rest) 0) with el.
    destruct el as [| |b|q|s|ys|fs]; unfold or_else;
      cbn [response_scores isArray andb truthy]; try done.
    + destruct b; [|done]. intros _. right. by apply decide_scores_primitive.
    + destruct (Qeq_bool q 0); cbn [negb]; [done|].
      intros _. right. by apply decide_scores_primitive.
    + destruct (String.eqb s ""); cbn [negb]; [done|].
      intros _. right. by apply decide_scores_primitive.
    + destruct (scores_of_pairs (JArr ys :: rest) ∅) as [fs|e]; cbn [bind]; [done|].
      intros _. right. by exists e.
Qed.

(** Every result of the parser is a decision on a scores object, the
    unexpected-response outcome, or an exception. *)
Lemma parseModerationResponse_cases B config apiResponse :
  match response_scores apiResponse with
  | Some fields =>
      parseModerationResponse B config apiResponse = decide_scores B config (JObj fields)
      /\ exists o, decide_scores B config (JObj fields) = Ok o
  | None =>
      parseModerationResponse B config apiResponse = Ok (unexpected_response apiResponse)
      \/ exists e, parseModerationResponse B config apiResponse = Throw e
  end.
Proof.
  destruct (response_scores apiResponse) as [fields|] eqn:Hs.
  - split; [by apply parseModerationResponse_scores|].
    destruct (decide_scores_object fields B config) as (o & Ho & _). by exists o.
  - by apply parseModerationResponse_no_scores.
Qed.

Lemma reason_degraded_elem r :
  r = "API_ERROR" \/ r = "PARSE_ERROR" \/ r = "UNEXPECTED_RESPONSE" -> r ∈ degraded_reasons.
Proof.
  unfold degraded_reasons. intros [->|[->| ->]]; apply list_elem_of_In; simpl; tauto.
Qed.

Lemma unexpected_degraded v : degraded (Ok (unexpected_response v)).
Proof. eexists. split; [done|]. split; [done|]. apply reason_degraded_elem. tauto. Qed.

Lemma parse_data_array_cases B config clientResponse xs :
  match data_array_payload B xs with
  | Some payload =>
      parse_data_array B config clientResponse (JArr xs)
      = parseModerationResponse B config payload
  | None => degraded (parse_data_array B config clientResponse (JArr xs))
  end.
Proof.
  unfold parse_data_array, data_array_payload.
  destruct xs as [|x0 [|x1 rest]].
  - rewrite bool_decide_eq_true_2 by (simpl; lia). apply unexpected_degraded.
  - rewrite bool_decide_eq_true_2 by (simpl; lia). apply unexpected_degraded.
  - rewrite bool_decide_eq_false_2 by (simpl; lia).
    change (nth_or_undefined (x0 :: x1 :: rest) 1) with x1.
    destruct x1 as [| |b|q|s|ys|fs]; cbn [truthy negb]; try apply unexpected_degraded; try done.
    + destruct b; cbn [negb]; [done|apply unexpected_degraded].
    + destruct (Qeq_bool q 0); cbn [negb]; [apply unexpected_degraded|done].
    + destruct (String.eqb s ""); cbn [negb]; [apply unexpected_degraded|].
      destruct (JSON_parse B s) as [v|e]; [done|].
      eexists. split; [done|]. split; [done|]. apply reason_degraded_elem. tauto.
Qed.

(** Inside [parseGradioClientResponse], the handler turns an exception of
    the body into a PARSE_ERROR outcome, provided the reply is not
    [undefined]. *)
Lemma gradio_handler_degraded (clientResponse : JVal) (body : result Outcome) :
  clientResponse <> JUndefined ->
  (exists o, body = Ok o
             /\ try_catch body
                  (fun error =>
                     let* _ := stringify_prefix clientResponse in
                     Ok {| isBlocked := false; reason := "PARSE_ERROR";
                           details := D_parse_error (message error) clientResponse |}) = Ok o)
  \/ ((exists e, body = Throw e)
      /\ degraded (try_catch body
                     (fun error =>
                        let* _ := stringify_prefix clientResponse in
                        Ok {| isBlocked := false; reason := "PARSE_ERROR";
                              details := D_parse_error (message error) clientResponse |}))).
Proof.
  intros Hdef. destruct body as [o|e].
  - left. by exists o.
  - right. split; [by exists e|]. cbn [try_catch].
    destruct clientResponse; try done;
      (eexists; split; [reflexivity|]; split; [done|]; apply reason_degraded_elem; tauto).
Qed.

Lemma parse_data_array_guarded B config clientResponse xs :
  clientResponse <> JUndefined ->
  let r := try_catch (parse_data_array B config clientResponse (JArr xs))
             (fun error =>
                let* _ := stringify_prefix clientResponse in
                Ok {| isBlocked := false; reason := "PARSE_ERROR";
                      details := D_parse_error (message error) clientResponse |}) in
  match data_array_payload B xs with
  | Some payload =>
      match response_scores payload with
      | Some fields => r = decide_scores B config (JObj fields)
                       /\ exists o, decide_scores B config (JObj fields) = Ok o
      | None => degraded r
      end
  | None => degraded r
  end.
Proof.
  intros Hdef r. subst r.
  pose proof (parse_data_array_cases B config clientResponse xs) as Hcases.
  destruct (data_array_payload B xs) as [payload|].
  - rewrite Hcases. pose proof (parseModerationResponse_cases B config payload) as Hp.
    destruct (response_scores payload) as [fields|].
    + destruct Hp as [-> [o Ho]]. split; [|by exists o]. by rewrite Ho.
    + destruct Hp as [->|[e ->]]; [apply unexpected_degraded|].
      destruct (gradio_handler_degraded clientResponse (Throw e) Hdef)
        as [(o & Ho & _)|[_ Hd]]; [done|exact Hd].
  - destruct Hcases as (o & -> & Hb & Hr). by exists o.
Qed.

(** The Space reply: a decision when it stands for a scores object, a
    degraded outcome otherwise, and an exception only for [undefined]. *)
Lemma parseGradioClientResponse_cases B config clientResponse :
  match gradio_payload B clientResponse with
  | Some payload =>
      match response_scores payload with
      | Some fields =>
          parseGradioClientResponse B config clientResponse
          = decide_scores B config (JObj fields)
          /\ exists o, decide_scores B config (JObj fields) = Ok o
      | None => degraded (parseGradioClientResponse B config clientResponse)
      end
  | None =>
      degraded (parseGradioClientResponse B config clientResponse)
      \/ exists e, parseGradioClientResponse B config clientResponse = Throw e
  end.
Proof.
  unfold gradio_payload, parseGradioClientResponse.
  destruct clientResponse as [| |b|q|s|xs|fs].
  - right. eexists. reflexivity.
  - left. apply unexpected_degraded.
  - left. destruct b; apply unexpected_degraded.
  - left. cbn. destruct (Qeq_bool q 0); apply unexpected_degraded.
  - left. cbn. destruct (String.eqb s ""); apply unexpected_degraded.
  - cbn [truthy get_prop reply_data_array isArray andb].
    pose proof (parse_data_array_guarded B config (JArr xs) xs ltac:(done)) as H.
    cbv zeta in H.
    destruct (data_array_payload B xs) as [payload|]; [|by left].
    exact H.
  - cbn [truthy get_prop reply_data_array isArray andb].
    destruct (fs !! "data") as [d|] eqn:Hd; cbn [default from_option id].
    + destruct d as [| |b|q|s|xs|fs']; cbn [truthy isArray andb];
        rewrite ?andb_false_r; try (left; apply unexpected_degraded).
      pose proof (parse_data_array_guarded B config (JObj fs) xs ltac:(done)) as H.
      cbv zeta in H.
      destruct (data_array_payload B xs) as [payload|]; [|by left].
      exact H.
    + left. apply unexpected_degraded.
Qed.

(** The handler of [moderateText] answers every exception, so the call
    returns whatever its body does. *)
Lemma moderateText_returns B config w text :
  exists o, moderateText B config w text = Ok o.
Proof.
  unfold moderateText. destruct (_ || _); [by eexists|].
  match goal with
  | |- exists o, try_catch ?body _ = Ok o => destruct body as [o|e]
  end; by eexists.
Qed.

(** A reply that stands for a scores object is decided on that object. *)
Lemma moderateText_on_scores B config w text reply fields :
  blank text = false ->
  upstream_reply config w text = Ok reply ->
  reply_scores B config reply = Some fields ->
  moderateText B config w text = decide_scores B config (JObj fields).
Proof.
  unfold moderateText, upstream_reply, reply_scores. fold (blank text).
  intros -> Hreply Hscores.
  destruct (decide_scores_object fields B config) as (o & Ho & _).
  destruct (isSpaceAPI config).
  - destruct (gradio_connect w) as [[]|e]; cbn [bind] in *; [|done].
    rewrite Hreply. cbn [bind].
    pose proof (parseGradioClientResponse_cases B config reply) as Hcases.
    destruct (gradio_payload B reply) as [payload|]; [|done].
    rewrite Hscores in Hcases. destruct Hcases as [-> _]. by rewrite Ho.
  - rewrite Hreply. cbn [bind].
    rewrite (parseModerationResponse_scores B config reply fields Hscores).
    by rewrite Ho.
Qed.

(** The decision rule, seen from the caller of [moderateText]. *)
Lemma moderateText_decision B config w text reply fields :
  blank text = false ->
  upstream_reply config w text = Ok reply ->
  reply_scores B config reply = Some fields ->
  exists o,
    moderateText B config w text = Ok o
    /\ (has_flag_key fields = true ->
        isBlocked o = flag_set fields "is_flagged" || flag_set fields "is_safer_flagged")
    /\ (has_flag_key fields = false ->
        forall m, is_max_category_score fields m ->
        isBlocked o = num_ge (Fin m) (threshold config)
                      || safe_score_low B (threshold config) (safe_score fields)).
Proof.
  intros Hblank Hreply Hscores.
  rewrite (moderateText_on_scores B config w text reply fields Hblank Hreply Hscores).
  apply decide_scores_object.
Qed.

(** A message that passes the checks of the handler and that moderation
    does not block is broadcast with the reason of the outcome as its
    status. *)
Lemma on_message_allowed B config w now later socketId data st name text o :
  registered_name socketId st = Some name ->
  string_field data "text" = Some text ->
  0 < strlen (sanitize B text) <= 1000 ->
  fst (checkRateLimit config now socketId (rateLimitMap st)) = true ->
  moderateText B config w (sanitize B text) = Ok o ->
  isBlocked o = false ->
  broadcast_messages (snd (on_message B config w now later socketId data st))
  = [ {| msg_id := message_id socketId later;
         msg_text := sanitize B text;
         msg_author := name;
         msg_timestamp := later;
         moderationStatus := Some (reason o);
         msg_details := Some (details o);
         isAI := false |} ].
Proof.
  intros Hname Hf [Hpos Hmax] Hrate Hmod Hpass. unfold on_message.
  rewrite Hname, Hf.
  destruct (Z.eqb_spec (strlen (sanitize B text)) 0) as [?|_]; [lia|].
  destruct (Z.ltb_spec 1000 (strlen (sanitize B text))) as [?|_]; [lia|].
  destruct (checkRateLimit config now socketId (rateLimitMap st)) as [allowed rateMap].
  cbn [fst] in Hrate. subst allowed. cbn [negb].
  by rewrite Hmod, Hpass.
Qed.

(** C2. [moderateText] always returns an outcome and never raises. On
    blank text it answers without calling the upstream. When the upstream
    call fails (connection, network, timeout), the outcome does not block
    and carries the reason API_ERROR together with the error message. When
    the upstream answers, the outcome is the decision on the scores object
    of the reply if the reply has one; for a malformed or unparseable reply
    it does not block and its reason is API_ERROR, PARSE_ERROR or
    UNEXPECTED_RESPONSE. A message whose moderation failed in this way
    proceeds as allowed: it is broadcast, with API_ERROR as its status. *)
Theorem moderateText_degrades_open B config w :
  (forall text,
      exists o,
        moderateText B config w text = Ok o
        /\ (blank text = true ->
            o = {| isBlocked := false; reason := "Empty message"; details := D_null |})
        /\ (blank text = false ->
            match upstream_reply config w text with
            | Throw e =>
                o = {| isBlocked := false; reason := "API_ERROR";
                       details := D_api_error (message e) |}
            | Ok reply =>
                match reply_scores B config reply with
                | Some fields => decide_scores B config (JObj fields) = Ok o
                | None => isBlocked o = false /\ reason o ∈ degraded_reasons
                end
            end))
  /\ (forall now later socketId data st name text e,
         registered_name socketId st = Some name ->
         string_field data "text" = Some text ->
         0 < strlen (sanitize B text) <= 1000 ->
         fst (checkRateLimit config now socketId (rateLimitMap st)) = true ->
         blank (sanitize B text) = false ->
         upstream_reply config w (sanitize B text) = Throw e ->
         broadcast_messages (snd (on_message B config w now later socketId data st))
         = [ {| msg_id := message_id socketId later;
                msg_text := sanitize B text;
                msg_author := name;
                msg_timestamp := later;
                moderationStatus := Some "API_ERROR";
                msg_details := Some (D_api_error (message e));
                isAI := false |} ]).
Proof.
  assert (Hcases : forall text,
      exists o,
        moderateText B config w text = Ok o
        /\ (blank text = true ->
            o = {| isBlocked := false; reason := "Empty message"; details := D_null |})
        /\ (blank text = false ->
            match upstream_reply config w text with
            | Throw e =>
                o = {| isBlocked := false; reason := "API_ERROR";
                       details := D_api_error (message e) |}
            | Ok reply =>
                match reply_scores B config reply with
                | Some fields => decide_scores B config (JObj fields) = Ok o
                | None => isBlocked o = false /\ reason o ∈ degraded_reasons
                end
            end)).
  { intros text.
    unfold moderateText, upstream_reply, reply_scores. fold (blank text).
    destruct (blank text) eqn:Hblank.
    - eexists. split; [reflexivity|]. split; [done|done].
    - assert (Hapi : forall e,
                 degraded (Ok {| isBlocked := false; reason := "API_ERROR";
                                 details := D_api_error (message e) |})).
      { intros e. eexists. split; [done|]. split; [done|]. apply reason_degraded_elem. tauto. }
      destruct (isSpaceAPI config).
      + destruct (gradio_connect w) as [[]|e]; cbn [bind try_catch].
        2:{ eexists. split; [reflexivity|]. split; [done|]. by intros _. }
        destruct (gradio_predict w text (saferValueOf config)) as [reply|e]; cbn [bind try_catch].
        2:{ eexists. split; [reflexivity|]. split; [done|]. by intros _. }
        pose proof (parseGradioClientResponse_cases B config reply) as Hcases.
        destruct (gradio_payload B reply) as [payload|].
        * destruct (response_scores payload) as [fields|].
          -- destruct Hcases as [-> [o Ho]]. rewrite Ho. exists o. by repeat split.
          -- destruct Hcases as (o & -> & Hb & Hr). exists o. by repeat split.
        * destruct Hcases as [(o & -> & Hb & Hr)|[e ->]].
          -- exists o. by repeat split.
          -- destruct (Hapi e) as (o & Ho & Hb & Hr). exists o. by repeat split.
      + destruct (inference_post w (apiUrl config) text) as [reply|e]; cbn [bind try_catch].
        2:{ eexists. split; [reflexivity|]. split; [done|]. by intros _. }
        pose proof (parseModerationResponse_cases B config reply) as Hcases.
        destruct (response_scores reply) as [fields|].
        * destruct Hcases as [-> [o Ho]]. rewrite Ho. exists o. by repeat split.
        * destruct Hcases as [->|[e ->]].
          -- destruct (unexpected_degraded reply) as (o & Ho & Hb & Hr).
             exists o. by repeat split.
          -- destruct (Hapi e) as (o & Ho & Hb & Hr). exists o. by repeat split.
  }
  split; [exact Hcases|].
  intros now later socketId data st name text e Hname Hf Hlen Hrate Hblank Hfail.
  destruct (Hcases (sanitize B text)) as (o & Ho & _ & Hthrow).
  specialize (Hthrow Hblank). rewrite Hfail in Hthrow. subst o.
  by rewrite (on_message_allowed B config w now later socketId data st name text _
                Hname Hf Hlen Hrate Ho).
Qed.

Lemma moderateText_degrades_open_witness :
  moderateText sample_builtins sample_config offline_world "hello"
  = Ok {| isBlocked := false; reason := "API_ERROR";
          details := D_api_error "Network Error" |}
  /\ map (fun m => (msg_text m, moderationStatus m))
       (broadcast_messages
          (snd (on_message sample_builtins sample_config offline_world 2000 2005 "abc"
                  (text_payload "hello")
                  (state_after sample_builtins sample_config
                     [(quiet_world, RegisterUsername "abc" (username_payload "Ann") 1000)]))))
     = [ ("hello", Some "API_ERROR") ].
Proof.
  destruct (moderateText_degrades_open sample_builtins sample_config offline_world)
    as [Hcases Hbroadcast].
  split.
  - destruct (Hcases "hello") as (o & Ho & _ & Hfail).
    rewrite Ho. f_equal. exact (Hfail eq_refl).
  - erewrite (Hbroadcast 2000 2005 "abc" (text_payload "hello") _ "Ann" "hello"
                (mkError "Network Error")); [reflexivity|..].
    + vm_compute. reflexivity.
    + vm_compute. reflexivity.
    + vm_compute. split; [reflexivity|discriminate].
    + vm_compute. reflexivity.
    + vm_compute. reflexivity.
    + vm_compute. reflexivity.
Defined.

(** ** Safety parameter *)

(** An explicit override is clamped and used as it is. *)
Lemma saferValueOf_override config sv :
  saferValue config = Some sv -> saferValueOf config = clamp_safer sv.
Proof. intros H. unfold saferValueOf. by rewrite H. Qed.

(** Without an override, a threshold other than 0 and [NaN] is mapped by
    the derivation. *)
Lemma saferValueOf_derived config :
  saferValue config = None ->
  num_truthy (threshold config) = true ->
  saferValueOf config = derived_safer (threshold config).
Proof.
  intros H Ht. unfold saferValueOf, derived_safer, clamp_safer, num_or.
  by rewrite H, Ht.
Qed.

(** Without an override, the thresholds 0 and [NaN] are replaced by 0.5
    before the derivation. *)
Lemma saferValueOf_falsy config :
  saferValue config = None ->
  num_truthy (threshold config) = false ->
  saferValueOf config = derived_safer (Fin 0.5).
Proof.
  intros H Ht. unfold saferValueOf, derived_safer, clamp_safer, num_or.
  by rewrite H, Ht.
Qed.

(** The value computed is the one handed to the Space. *)
Lemma upstream_reply_saferValue config w text :
  isSpaceAPI config = true ->
  gradio_connect w = Ok tt ->
  upstream_reply config w text = gradio_predict w text (saferValueOf config).
Proof. intros Hs Hc. unfold upstream_reply. by rewrite Hs, Hc. Qed.

(** C9, at the threshold 0 with no override: the derivation
    [0.1 - t * 0.095] gives 0.1, the value the comment of the source
    announces for this threshold, but the service sends 0.0525, the value of
    the threshold 0.5. *)
Theorem saferValue_threshold_zero :
  saferValue config_threshold_zero = None
  /\ threshold config_threshold_zero = Fin 0
  /\ num_eq (derived_safer (Fin 0)) (Fin 0.1)
  /\ num_eq (saferValueOf config_threshold_zero) (Fin 0.0525)
  /\ ~ num_eq (saferValueOf config_threshold_zero) (derived_safer (Fin 0)).
Proof.
  repeat split; try reflexivity; vm_compute; discriminate.
Qed.

(** ** Message ids *)

Lemma no_dash_pretty_N_char x s :
  no_dash s -> no_dash (String (pretty_N_char x) s).
Proof.
  intros Hs. split; [|done]. unfold pretty_N_char. by repeat case_match.
Qed.

Lemma no_dash_pretty_N_go x :
  forall s, no_dash s -> no_dash (pretty_N_go x s).
Proof.
  induction (N.lt_wf_0 x) as [x _ IH]. intros s Hs.
  destruct (decide (x = 0%N)) as [->|Hx].
  - by rewrite pretty_N_go_0.
  - rewrite pretty_N_go_step by lia. apply IH.
    + apply N.div_lt; lia.
    + by apply no_dash_pretty_N_char.
Qed.

(** The decimal rendering of a clock reading has no hyphen. *)
Lemma no_dash_pretty_Z (t : Z) : 0 <= t -> no_dash (pretty t).
Proof.
  intros Ht. destruct t as [|p|p]; [by vm_compute| |lia].
  unfold pretty, pretty_Z, pretty, pretty_positive, pretty, pretty_N.
  case_decide; [done|]. by apply no_dash_pretty_N_go.
Qed.

Lemma no_dash_app_dash a d1 d2 : no_dash d1 -> d1 <> a ++ "-" ++ d2.
Proof.
  revert d1. induction a as [|c a IH]; intros d1 Hd Heq; subst; simpl in Hd.
  - by destruct Hd.
  - destruct Hd as [_ Hd]. by eapply IH.
Qed.

(** The text before the last hyphen and the text after it are determined
    by the whole. *)
Lemma app_dash_inj a b d1 d2 :
  no_dash d1 -> no_dash d2 ->
  a ++ "-" ++ d1 = b ++ "-" ++ d2 -> a = b /\ d1 = d2.
Proof.
  revert b. induction a as [|c a IH]; intros [|c' b] H1 H2 Heq; simpl in Heq.
  - by simplify_eq.
  - injection Heq as _ Hd. by destruct (no_dash_app_dash b d1 d2).
  - injection Heq as _ Hd. by destruct (no_dash_app_dash a d2 d1).
  - injection Heq as -> Hd. by destruct (IH b H1 H2 Hd) as [-> ->].
Qed.

(** C6, as amended: the id of a message determines the connection and the
    clock reading of the send, so two sends get different ids as soon as
    they come from different connections or are made at different
    milliseconds. *)
Theorem message_id_injective socketId1 now1 socketId2 now2 :
  0 <= now1 -> 0 <= now2 ->
  message_id socketId1 now1 = message_id socketId2 now2 ->
  socketId1 = socketId2 /\ now1 = now2.
Proof.
  intros H1 H2 Heq. unfold message_id in Heq.
  apply app_dash_inj in Heq as [-> Hp]; try by apply no_dash_pretty_Z.
  split; [done|]. by apply (inj pretty).
Qed.

Lemma message_id_injective_witness :
  "abc-1" = "abc-1" /\ 1005 = 1005.
Proof.
  apply (message_id_injective "abc-1" 1005 "abc-1" 1005); [lia|lia|reflexivity].
Defined.

(** C6, as stated, fails: two messages sent by one connection and built
    in the same millisecond are broadcast under the same id. *)
Lemma message_id_collision :
  map (fun m => (msg_id m, msg_text m))
    (broadcast_messages
       (snd (run sample_builtins sample_config
               [ (quiet_world, RegisterUsername "abc" (username_payload "Ann") 1000);
                 (quiet_world, Message "abc" (text_payload "hi") 1001 1005);
                 (quiet_world, Message "abc" (text_payload "yo") 1002 1005) ]
               initial_state)))
  = [ ("abc-1005", "hi"); ("abc-1005", "yo") ].
Proof. vm_compute. reflexivity. Qed.

(** ** Registration gate *)

Ltac break_handler :=
  repeat (match goal with
          | |- context [match ?x with _ => _ end] => destruct x eqn:?
          end; cbn [fst snd socketUsername conversationHistoryMap rateLimitMap
                    aiResponseRateLimitMap deferred negb]; try done).

Lemma ai_turn_username B config w now later task st :
  socketUsername (fst (generateAndBroadcastAIResponse B config w now later task st))
  = socketUsername st.
Proof. unfold generateAndBroadcastAIResponse. break_handler. Qed.

Lemma on_message_username B config w now later socketId data st :
  socketUsername (fst (on_message B config w now later socketId data st))
  = socketUsername st.
Proof. unfold on_message. break_handler. Qed.

(** A registration that fails a check only emits an error. *)
Lemma on_register_invalid B config w now socketId data st :
  match string_field data "username" with
  | Some raw => valid_username raw = false
  | None => True
  end ->
  exists msg,
    on_register_username B config w now socketId data st
    = (st, [SocketEmit socketId (ErrorEvent msg None)]).
Proof.
  unfold on_register_username, valid_username.
  destruct (string_field data "username") as [raw|]; [|by eexists].
  destruct (String.eqb raw ""); cbn [negb andb]; [by eexists|].
  intros Hbad. apply negb_false_iff in Hbad. rewrite Hbad. by eexists.
Qed.

(** A registration that passes the checks stores the trimmed name. *)
Lemma on_register_valid B config w now socketId data st raw :
  string_field data "username" = Some raw ->
  valid_username raw = true ->
  socketUsername (fst (on_register_username B config w now socketId data st))
  = <[socketId := trim raw]> (socketUsername st).
Proof.
  unfold on_register_username, valid_username. intros -> Hok.
  apply andb_true_iff in Hok as [Hne Hlen].
  apply negb_true_iff in Hne, Hlen. rewrite Hne, Hlen. break_handler.
Qed.

(** An event that is not a valid registration of [socketId] leaves the
    connection without a name if it had none. *)
Lemma step_keeps_unregistered B config w ev st socketId :
  registers socketId ev = false ->
  socketUsername st !! socketId = None ->
  socketUsername (fst (step B config w ev st)) !! socketId = None.
Proof.
  intros Hreg Hnone. destruct ev as [s data now|s data now later|s|now later]; cbn [step].
  - cbn [registers] in Hreg.
    destruct (string_field data "username") as [raw|] eqn:Hf.
    + destruct (valid_username raw) eqn:Hv.
      * rewrite (on_register_valid _ _ _ _ _ _ _ raw Hf Hv).
        rewrite andb_true_r in Hreg. apply String.eqb_neq in Hreg.
        by rewrite lookup_insert_ne.
      * destruct (on_register_invalid B config w now s data st) as [msg ->];
          [by rewrite Hf|done].
    + destruct (on_register_invalid B config w now s data st) as [msg ->];
        [by rewrite Hf|done].
  - by rewrite on_message_username.
  - cbn. destruct (decide (s = socketId)) as [->|Hne].
    + by rewrite lookup_delete_eq.
    + by rewrite lookup_delete_ne.
  - destruct (deferred st) as [|task rest]; [done|].
    by rewrite ai_turn_username.
Qed.

Lemma run_app B config evs1 evs2 st :
  run B config (evs1 ++ evs2) st
  = let '(st1, out1) := run B config evs1 st in
    let '(st2, out2) := run B config evs2 st1 in
    (st2, (out1 ++ out2)%list).
Proof.
  revert st. induction evs1 as [|[w ev] evs1 IH]; intros st; cbn [run app].
  - destruct (run B config evs2 st) as [st2 out2]. done.
  - destruct (step B config w ev st) as [st1 out1]. rewrite IH.
    destruct (run B config evs1 st1) as [st1' out1'].
    destruct (run B config evs2 st1') as [st2 out2]. by rewrite app_assoc.
Qed.

Lemma run_keeps_unregistered B config evs socketId :
  Forall (fun wev => registers socketId (snd wev) = false) evs ->
  forall st,
    socketUsername st !! socketId = None ->
    socketUsername (fst (run B config evs st)) !! socketId = None.
Proof.
  induction 1 as [|[w ev] evs Hev _ IH]; intros st Hnone; [done|].
  cbn [run]. pose proof (step_keeps_unregistered B config w ev st socketId Hev Hnone) as Hs.
  destruct (step B config w ev st) as [st1 out1]. specialize (IH st1 Hs).
  by destruct (run B config evs st1).
Qed.

(** Without a name, a message is answered by an error and nothing else
    happens. *)
Lemma on_message_unregistered B config w now later socketId data st :
  registered_name socketId st = None ->
  on_message B config w now later socketId data st
  = (st, [SocketEmit socketId (ErrorEvent "Please set your username first" None)]).
Proof. intros H. unfold on_message. by rewrite H. Qed.

Lemma valid_username_length raw :
  valid_username raw = true -> 1 <= strlen (trim raw) <= 20.
Proof.
  unfold valid_username. intros [_ H]%andb_true_iff.
  apply negb_true_iff, orb_false_iff in H as [H0 H20].
  apply Z.eqb_neq in H0. apply Z.ltb_ge in H20. unfold strlen in *. lia.
Qed.

Lemma state_after_snoc B config evs w ev :
  state_after B config (evs ++ [(w, ev)])
  = fst (step B config w ev (state_after B config evs)).
Proof.
  unfold state_after. rewrite run_app.
  destruct (run B config evs initial_state) as [st1 out1]. cbn [run fst].
  by destruct (step B config w ev st1).
Qed.

(** Every stored name comes from a valid registration of that connection. *)
Lemma registered_name_origin B config evs :
  forall socketId name,
    socketUsername (state_after B config evs) !! socketId = Some name ->
    exists w data now raw,
      (w, RegisterUsername socketId data now) ∈ evs
      /\ string_field data "username" = Some raw
      /\ valid_username raw = true
      /\ name = trim raw.
Proof.
  induction evs as [|[w ev] evs IH] using rev_ind; intros socketId name Hname.
  - change (state_after B config []) with initial_state in Hname.
    cbn [initial_state socketUsername] in Hname. by rewrite lookup_empty in Hname.
  - rewrite state_after_snoc in Hname.
    assert (Hold : socketUsername (state_after B config evs) !! socketId = Some name ->
                   exists w0 data now raw,
                     (w0, RegisterUsername socketId data now) ∈ (evs ++ [(w, ev)])%list
                     /\ string_field data "username" = Some raw
                     /\ valid_username raw = true /\ name = trim raw).
    { intros H. destruct (IH _ _ H) as (w0 & data & now & raw & Hin & Hrest).
      exists w0, data, now, raw. split; [|done]. apply elem_of_app. by left. }
    destruct ev as [s data now|s data now later|s|now later]; cbn [step] in Hname.
    + destruct (string_field data "username") as [raw|] eqn:Hf.
      * destruct (valid_username raw) eqn:Hv.
        -- rewrite (on_register_valid _ _ _ _ _ _ _ raw Hf Hv) in Hname.
           destruct (decide (s = socketId)) as [->|Hne].
           ++ rewrite lookup_insert_eq in Hname. injection Hname as <-.
              exists w, data, now, raw. split; [|done].
              apply elem_of_app. right. by apply list_elem_of_singleton.
           ++ rewrite lookup_insert_ne in Hname by done. by apply Hold.
        -- destruct (on_register_invalid B config w now s data (state_after B config evs))
             as [msg Heq]; [by rewrite Hf|]. rewrite Heq in Hname. by apply Hold.
      * destruct (on_register_invalid B config w now s data (state_after B config evs))
          as [msg Heq]; [by rewrite Hf|]. rewrite Heq in Hname. by apply Hold.
    + rewrite on_message_username in Hname. by apply Hold.
    + cbn in Hname. destruct (decide (s = socketId)) as [->|Hne].
      * by rewrite lookup_delete_eq in Hname.
      * rewrite lookup_delete_ne in Hname by done. by apply Hold.
    + destruct (deferred (state_after B config evs)) as [|task rest]; [by apply Hold|].
      rewrite ai_turn_username in Hname. by apply Hold.
Qed.

(** C4. On every connection, a message that arrives before a registration
    under a valid name (trimmed length 1 to 20) is answered by an error
    only: the state, and with it the rate-limit record and the history, is
    unchanged, and nothing is classified or broadcast. A name is stored
    only by such a registration; a registration whose name is missing,
    empty after trimming or longer than 20 characters emits an error and
    leaves the state, hence the stored name, as it was. *)
Theorem message_requires_registration B config :
  (forall evs w socketId data now later,
      Forall (fun wev => registers socketId (snd wev) = false) evs ->
      step B config w (Message socketId data now later) (state_after B config evs)
      = (state_after B config evs,
         [SocketEmit socketId (ErrorEvent "Please set your username first" None)]))
  /\ (forall evs socketId name,
         socketUsername (state_after B config evs) !! socketId = Some name ->
         1 <= strlen name <= 20
         /\ exists w data now raw,
              (w, RegisterUsername socketId data now) ∈ evs
              /\ string_field data "username" = Some raw
              /\ valid_username raw = true
              /\ name = trim raw)
  /\ (forall w now socketId data st,
         match string_field data "username" with
         | Some raw => valid_username raw = false
         | None => True
         end ->
         exists msg,
           on_register_username B config w now socketId data st
           = (st, [SocketEmit socketId (ErrorEvent msg None)])).
Proof.
  split; [|split].
  - intros evs w socketId data now later Hnone. cbn [step].
    apply on_message_unregistered. unfold registered_name.
    unfold state_after.
    by rewrite (run_keeps_unregistered B config evs socketId Hnone initial_state).
  - intros evs socketId name Hname.
    destruct (registered_name_origin B config evs socketId name Hname)
      as (w & data & now & raw & Hin & Hf & Hv & ->).
    split; [by apply valid_username_length|]. by exists w, data, now, raw.
  - intros w now socketId data st Hbad. by apply on_register_invalid.
Qed.

Lemma message_requires_registration_witness :
  step sample_builtins sample_config quiet_world
    (Message "abc" (text_payload "hi") 1001 1005)
    (state_after sample_builtins sample_config
       [(quiet_world, RegisterUsername "abc" (username_payload "   ") 1000)])
  = (state_after sample_builtins sample_config
       [(quiet_world, RegisterUsername "abc" (username_payload "   ") 1000)],
     [SocketEmit "abc" (ErrorEvent "Please set your username first" None)]).
Proof.
  destruct (message_requires_registration sample_builtins sample_config) as (Hgate & _ & _).
  apply Hgate. repeat constructor.
Defined.

(** ** Greeting *)

Lemma generateGreeting_cases config w username :
  ai_enabled config = true ->
  generateGreeting config w username
  = match provider_text config w (greeting_messages config username) with
    | Ok greeting => Ok (Some (trim greeting))
    | Throw _ => Ok (Some (fallback_greeting username))
    end.
Proof.
  intros Hen. unfold generateGreeting, provider_text. rewrite Hen. cbn [negb].
  destruct (callOpenAIAPI config w _) as [response|e]; cbn [bind try_catch]; [|done].
  by destruct (parseOpenAIResponse response).
Qed.

Lemma fallback_greeting_nonempty username : String.eqb (fallback_greeting username) "" = false.
Proof. done. Qed.

Lemma emitted_to_greeting socketId username m :
  emitted_to socketId
    [CallGreeting username; CallModeration (msg_text m); SocketEmit socketId (MessageEvent m)]
  = [MessageEvent m].
Proof. unfold emitted_to. cbn. by rewrite String.eqb_refl. Qed.

(** C5, as amended: when the provider fails while a greeting is generated
    for a valid registration, [generateGreeting] does not raise but returns
    the fixed fallback greeting for the name; the fallback is moderated
    like any greeting and is delivered to the registering connection unless
    moderation blocks it. *)
Theorem greeting_falls_back_on_provider_error B config w now socketId data st raw e :
  ai_enabled config = true ->
  string_field data "username" = Some raw ->
  valid_username raw = true ->
  provider_text config w (greeting_messages config (trim raw)) = Throw e ->
  generateGreeting config w (trim raw) = Ok (Some (fallback_greeting (trim raw)))
  /\ exists o,
       moderateText B config w (fallback_greeting (trim raw)) = Ok o
       /\ emitted_to socketId (snd (on_register_username B config w now socketId data st))
          = if isBlocked o then []
            else [MessageEvent (greeting_message socketId now (fallback_greeting (trim raw)))].
Proof.
  intros Hen Hf Hv Hfail.
  assert (Hg : generateGreeting config w (trim raw) = Ok (Some (fallback_greeting (trim raw))))
    by by rewrite generateGreeting_cases, Hfail.
  split; [done|].
  destruct (moderateText_returns B config w (fallback_greeting (trim raw))) as [o Ho].
  exists o. split; [done|].
  unfold on_register_username. rewrite Hf.
  unfold valid_username in Hv. apply andb_true_iff in Hv as [Hne Hlen].
  apply negb_true_iff in Hne, Hlen. rewrite Hne, Hlen, Hen. cbn [negb].
  rewrite Hg, fallback_greeting_nonempty, Ho.
  destruct (isBlocked o); cbn [snd app]; [done|].
  apply (emitted_to_greeting socketId (trim raw)
           (greeting_message socketId now (fallback_greeting (trim raw)))).
Qed.

Lemma greeting_falls_back_on_provider_error_witness :
  emitted_to "abc"
    (snd (on_register_username sample_builtins sample_config quiet_world 1000 "abc"
            (username_payload " Ann ") initial_state))
  = [MessageEvent (greeting_message "abc" 1000 (fallback_greeting "Ann"))].
Proof.
  assert (Hen : ai_enabled sample_config = true) by reflexivity.
  assert (Hf : string_field (username_payload " Ann ") "username" = Some " Ann ")
    by (vm_compute; reflexivity).
  assert (Hv : valid_username " Ann " = true) by (vm_compute; reflexivity).
  assert (Hfail : provider_text sample_config quiet_world
                    (greeting_messages sample_config (trim " Ann "))
                  = Throw (mkError "OpenAI service is unavailable. Please check your connection and try again."))
    by (vm_compute; reflexivity).
  destruct (greeting_falls_back_on_provider_error sample_builtins sample_config quiet_world
              1000 "abc" (username_payload " Ann ") initial_state " Ann " _ Hen Hf Hv Hfail)
    as (_ & o & Ho & Hemit).
  rewrite Hemit.
  assert (Hpass : isBlocked o = false).
  { assert (Hm : isBlocked <$> (match moderateText sample_builtins sample_config quiet_world
                                         (fallback_greeting (trim " Ann ")) with
                                | Ok o' => Some o' | Throw _ => None end) = Some false)
      by (vm_compute; reflexivity).
    rewrite Ho in Hm. by injection Hm. }
  by rewrite Hpass.
Defined.

(** C5, as stated, fails: the provider is unreachable while Ann registers,
    and a greeting is delivered to her connection all the same. *)
Lemma greeting_delivered_despite_provider_error :
  (exists e, provider_text sample_config quiet_world (greeting_messages sample_config "Ann")
             = Throw e)
  /\ map (fun ev => match ev with MessageEvent m => msg_text m | _ => "" end)
       (emitted_to "abc"
          (snd (on_register_username sample_builtins sample_config quiet_world 1000 "abc"
                  (username_payload "Ann") initial_state)))
     = [fallback_greeting "Ann"].
Proof.
  split; [eexists; vm_compute; reflexivity|]. vm_compute. reflexivity.
Qed.

(** ** AI replies *)

Lemma generateAIResponse_text config w userMessage moderationResult history wasBlocked :
  ai_enabled config = true ->
  generateAIResponse config w userMessage moderationResult history wasBlocked
  = let* aiText := provider_text config w
                     (buildMessages config userMessage moderationResult history wasBlocked) in
    Ok (delivered_text config aiText).
Proof.
  intros Hen. unfold generateAIResponse, provider_text, delivered_text. rewrite Hen.
  cbn [negb].
  destruct (callOpenAIAPI config w _) as [response|e]; cbn [bind try_catch]; [|done].
  destruct (parseOpenAIResponse response) as [aiText|e]; cbn [bind try_catch]; [|done].
  by destruct (maxResponseLength config <? strlen aiText)%Z.
Qed.

Lemma generateAIResponse_disabled config w userMessage moderationResult history wasBlocked :
  ai_enabled config = false ->
  exists e, generateAIResponse config w userMessage moderationResult history wasBlocked = Throw e.
Proof. intros Hen. unfold generateAIResponse. rewrite Hen. by eexists. Qed.

(** What an AI turn does, by the reply of [generateAIResponse]: nothing on
    an exception or a blank reply; otherwise the reply is moderated, and
    broadcast and recorded only when moderation lets it through. *)
Lemma ai_turn_cases B config w now later task st :
  let r := generateAndBroadcastAIResponse B config w now later task st in
  let history := history_of (task_socket task) (conversationHistoryMap st) in
  (broadcast_messages (snd r) = []
   /\ conversationHistoryMap (fst r) = conversationHistoryMap st)
  \/ exists reply o,
       generateAIResponse config w (task_message task) (task_moderation task) history
         (task_blocked task) = Ok reply
       /\ blank reply = false
       /\ moderateText B config w reply = Ok o
       /\ isBlocked o = false
       /\ (exists m, broadcast_messages (snd r) = [m] /\ msg_text m = reply
                     /\ msg_author m = AI_AUTHOR_NAME)
       /\ conversationHistoryMap (fst r)
          = addToConversationHistory config (task_socket task) AI_AUTHOR_NAME reply later
              (conversationHistoryMap st).
Proof.
  intros r history. subst r history. unfold history_of, generateAndBroadcastAIResponse.
  destruct (ai_enabled config); cbn [negb]; [|by left].
  destruct (checkAIRateLimit now (task_socket task) (aiResponseRateLimitMap st))
    as [allowed aiMap].
  destruct allowed; cbn [negb]; [|by left].
  cbn [conversationHistoryMap].
  destruct (generateAIResponse config w (task_message task) (task_moderation task) _
              (task_blocked task)) as [reply|e] eqn:Hgen; [|by left].
  fold (blank reply). destruct (blank reply) eqn:Hblank; [by left|].
  destruct (moderateText B config w reply) as [o|e] eqn:Hmod; [|by left].
  destruct (isBlocked o) eqn:Hb; [by left|].
  right. exists reply, o. repeat split; try done.
  eexists. split; [reflexivity|]. by split.
Qed.

Lemma blank_trim_empty s : blank s = true -> trim s = "".
Proof.
  unfold blank. intros [H|H]%orb_true_iff.
  - apply String.eqb_eq in H. by subst.
  - apply Z.eqb_eq in H. unfold strlen in H. by destruct (trim s).
Qed.

(** C8, as amended: a provider text longer than the configured maximum is
    cut to that length, trimmed of surrounding white space and followed by
    an ellipsis; a shorter one is trimmed. The AI turn broadcasts only a
    non-blank reply; when the provider call fails, returns no text, or
    returns an empty or white-space-only text no longer than the maximum,
    nothing is broadcast and the history is left as it was. *)
Theorem ai_reply_truncated_and_gated B config w now later task st :
  let r := generateAndBroadcastAIResponse B config w now later task st in
  match provider_text config w (task_messages config task st) with
  | Ok aiText =>
      (ai_enabled config = true ->
       generateAIResponse config w (task_message task) (task_moderation task)
         (history_of (task_socket task) (conversationHistoryMap st)) (task_blocked task)
       = Ok (delivered_text config aiText))
      /\ (forall m, m ∈ broadcast_messages (snd r) ->
            msg_text m = delivered_text config aiText /\ blank (msg_text m) = false)
      /\ (strlen aiText <= maxResponseLength config -> blank aiText = true ->
          broadcast_messages (snd r) = []
          /\ conversationHistoryMap (fst r) = conversationHistoryMap st)
  | Throw _ =>
      broadcast_messages (snd r) = []
      /\ conversationHistoryMap (fst r) = conversationHistoryMap st
  end.
Proof.
  intros r. subst r.
  pose proof (ai_turn_cases B config w now later task st) as Hcases. cbv zeta in Hcases.
  unfold task_messages.
  destruct (ai_enabled config) eqn:Hen.
  - pose proof (generateAIResponse_text config w (task_message task) (task_moderation task)
                  (history_of (task_socket task) (conversationHistoryMap st))
                  (task_blocked task) Hen) as Hgen.
    destruct (provider_text config w _) as [aiText|e]; cbn [bind] in Hgen.
    + split; [done|].
      destruct Hcases as [[Hnone Hsame]|(reply & o & Hreply & Hblank & _ & _ & (m & Hm & Ht & _) & _)].
      * split; [|done]. intros m Hm. rewrite Hnone in Hm. by apply elem_of_nil in Hm.
      * rewrite Hgen in Hreply. injection Hreply as <-. split.
        -- intros m' Hin. rewrite Hm in Hin. apply list_elem_of_singleton in Hin as ->.
           by rewrite Ht.
        -- intros Hlen Hb. exfalso. unfold delivered_text in Hblank.
           destruct (Z.ltb_spec (maxResponseLength config) (strlen aiText)); [lia|].
           by rewrite (blank_trim_empty _ Hb) in Hblank.
    + destruct Hcases as [?|(reply & o & Hreply & _)]; [done|]. congruence.
  - destruct (generateAIResponse_disabled config w (task_message task) (task_moderation task)
                (history_of (task_socket task) (conversationHistoryMap st))
                (task_blocked task) Hen) as [e He].
    assert (Hnothing : broadcast_messages
                         (snd (generateAndBroadcastAIResponse B config w now later task st)) = []
                       /\ conversationHistoryMap
                            (fst (generateAndBroadcastAIResponse B config w now later task st))
                          = conversationHistoryMap st).
    { destruct Hcases as [?|(reply & o & Hreply & _)]; [done|]. congruence. }
    destruct Hnothing as [Hnone Hsame].
    destruct (provider_text config w _) as [aiText|e']; [|done].
    split; [done|]. split; [|done].
    intros m Hm. rewrite Hnone in Hm. by apply elem_of_nil in Hm.
Qed.

(** C8, as stated, fails twice: the cut text is trimmed before the
    ellipsis is added, so the reply is not the first characters of the text
    followed by the ellipsis; and a white-space-only text longer than the
    maximum comes back as the bare ellipsis, which is broadcast. *)
Lemma ai_reply_not_as_stated :
  generateAIResponse config_short_replies (answering_world "ab cd") "hi"
    (task_moderation sample_task) [] false = Ok "ab..."
  /\ generateAIResponse config_short_replies (answering_world "ab cd") "hi"
       (task_moderation sample_task) [] false <> Ok (substring0 3 "ab cd" ++ "...")
  /\ map msg_text
       (broadcast_messages
          (snd (generateAndBroadcastAIResponse sample_builtins config_short_replies
                  (answering_world "     ") 1000 1005 sample_task initial_state)))
     = ["..."].
Proof.
  split; [vm_compute; reflexivity|]. split; [vm_compute; discriminate|].
  vm_compute. reflexivity.
Qed.

Lemma ai_reply_truncated_and_gated_witness :
  Forall (fun m => msg_text m = "hel...")
    (broadcast_messages
       (snd (generateAndBroadcastAIResponse sample_builtins config_short_replies
               (answering_world "hello world") 1000 1005 sample_task initial_state))).
Proof.
  pose proof (ai_reply_truncated_and_gated sample_builtins config_short_replies
                (answering_world "hello world") 1000 1005 sample_task initial_state) as H.
  cbv zeta in H.
  assert (Hp : provider_text config_short_replies (answering_world "hello world")
                 (task_messages config_short_replies sample_task initial_state)
               = Ok "hello world") by (vm_compute; reflexivity).
  rewrite Hp in H. destruct H as (_ & Hall & _).
  apply Forall_forall. intros m Hm. destruct (Hall m Hm) as [-> _].
  vm_compute. reflexivity.
Defined.

(** ** What reaches the history *)

Lemma add_history_elem config socketId author text timestamp m other entry :
  entry ∈ history_of other (addToConversationHistory config socketId author text timestamp m) ->
  entry ∈ history_of other m
  \/ (other = socketId /\ entry = entry_of (author, text, timestamp)).
Proof.
  destruct (decide (socketId = other)) as [->|Hne].
  - rewrite addToConversationHistory_lookup. cbv zeta.
    set (h := (history_of other m ++ [entry_of (author, text, timestamp)])%list).
    intros Hin.
    assert (Hin' : entry ∈ h).
    { case_bool_decide; [|done]. destruct h as [|x l]; [done|].
      apply elem_of_cons. by right. }
    subst h. apply elem_of_app in Hin' as [?|Hlast]; [by left|].
    right. by apply list_elem_of_singleton in Hlast.
  - rewrite addToConversationHistory_other by done. by left.
Qed.

(** What a registration does to the histories. *)
Lemma on_register_history B config w now socketId data st :
  let r := on_register_username B config w now socketId data st in
  conversationHistoryMap (fst r) = conversationHistoryMap st
  \/ exists greeting,
       passes B config w greeting
       /\ conversationHistoryMap (fst r)
          = addToConversationHistory config socketId AI_AUTHOR_NAME greeting now
              (conversationHistoryMap st).
Proof.
  intros r. subst r. unfold on_register_username.
  destruct (string_field data "username") as [raw|]; [|by left].
  destruct (String.eqb raw ""); [by left|].
  destruct (_ || _); [by left|].
  destruct (ai_enabled config); cbn [negb]; [|by left].
  destruct (generateGreeting config w (trim raw)) as [[greeting|]|e]; try by left.
  destruct (String.eqb greeting ""); [by left|].
  destruct (moderateText B config w greeting) as [o|e] eqn:Hmod; [|by left].
  destruct (isBlocked o) eqn:Hb; [by left|].
  right. exists greeting. split; [by exists o|done].
Qed.

(** What a message does to the histories. *)
Lemma on_message_history B config w now later socketId data st :
  let r := on_message B config w now later socketId data st in
  conversationHistoryMap (fst r) = conversationHistoryMap st
  \/ exists name text,
       string_field data "text" = Some text
       /\ passes B config w (sanitize B text)
       /\ conversationHistoryMap (fst r)
          = addToConversationHistory config socketId name (sanitize B text) later
              (conversationHistoryMap st).
Proof.
  intros r. subst r. unfold on_message.
  destruct (registered_name socketId st) as [name|]; [|by left].
  destruct (string_field data "text") as [text|]; [|by left].
  destruct (_ =? _)%Z; [by left|].
  destruct (_ <? _)%Z; [by left|].
  destruct (checkRateLimit config now socketId (rateLimitMap st)) as [allowed rateMap].
  destruct allowed; cbn [negb]; [|by left].
  destruct (moderateText B config w (sanitize B text)) as [o|e] eqn:Hmod; [|by left].
  destruct (isBlocked o) eqn:Hb; [by left|].
  right. exists name, text. split; [done|]. split; [by exists o|done].
Qed.

(** A message that moderation blocks leaves every history as it was. *)
Lemma on_message_blocked_history B config w now later socketId data st text o :
  string_field data "text" = Some text ->
  moderateText B config w (sanitize B text) = Ok o ->
  isBlocked o = true ->
  conversationHistoryMap (fst (on_message B config w now later socketId data st))
  = conversationHistoryMap st.
Proof.
  intros Hf Hmod Hb. unfold on_message. rewrite Hf.
  destruct (registered_name socketId st) as [name|]; [|done].
  destruct (_ =? _)%Z; [done|].
  destruct (_ <? _)%Z; [done|].
  destruct (checkRateLimit config now socketId (rateLimitMap st)) as [allowed rateMap].
  destruct allowed; cbn [negb]; [|done].
  by rewrite Hmod, Hb.
Qed.

Lemma entry_origin_mono B config evs evs' socketId entry :
  entry_origin B config evs socketId entry ->
  entry_origin B config (evs ++ evs') socketId entry.
Proof.
  intros (w & ev & Hin & Hrest). exists w, ev. split; [|done].
  apply elem_of_app. by left.
Qed.

Lemma entry_origin_last B config evs w ev socketId entry :
  passes B config w (h_text entry) ->
  match ev with
  | Message s data _ _ =>
      s = socketId
      /\ exists text, string_field data "text" = Some text /\ h_text entry = sanitize B text
  | RegisterUsername s _ _ => s = socketId /\ h_author entry = AI_AUTHOR_NAME
  | RunDeferred _ _ => h_author entry = AI_AUTHOR_NAME
  | Disconnect _ => False
  end ->
  entry_origin B config (evs ++ [(w, ev)]) socketId entry.
Proof.
  intros Hp Hev. exists w, ev. split; [|done].
  apply elem_of_app. right. by apply list_elem_of_singleton.
Qed.

(** Every entry of every history has an origin in the run. *)
Lemma history_entries_origin B config evs :
  forall socketId entry,
    entry ∈ history_of socketId (conversationHistoryMap (state_after B config evs)) ->
    entry_origin B config evs socketId entry.
Proof.
  induction evs as [|[w ev] evs IH] using rev_ind; intros socketId entry Hin.
  - change (state_after B config []) with initial_state in Hin.
    unfold history_of in Hin. cbn in Hin. rewrite lookup_empty in Hin.
    by apply elem_of_nil in Hin.
  - rewrite state_after_snoc in Hin.
    set (st := state_after B config evs) in *.
    destruct ev as [s data now|s data now later|s|now later]; cbn [step] in Hin.
    + destruct (on_register_history B config w now s data st) as [Heq|(greeting & Hp & Heq)];
        rewrite Heq in Hin.
      * by apply entry_origin_mono, IH.
      * apply add_history_elem in Hin as [Hin|[-> ->]].
        -- by apply entry_origin_mono, IH.
        -- by apply entry_origin_last.
    + destruct (on_message_history B config w now later s data st)
        as [Heq|(name & text & Hf & Hp & Heq)]; rewrite Heq in Hin.
      * by apply entry_origin_mono, IH.
      * apply add_history_elem in Hin as [Hin|[-> ->]].
        -- by apply entry_origin_mono, IH.
        -- apply entry_origin_last; [done|]. split; [done|]. by exists text.
    + cbn in Hin. unfold history_of in Hin.
      destruct (decide (s = socketId)) as [->|Hne].
      * rewrite lookup_delete_eq in Hin. by apply elem_of_nil in Hin.
      * rewrite lookup_delete_ne in Hin by done. by apply entry_origin_mono, IH.
    + destruct (deferred st) as [|task rest] eqn:Hq; [by apply entry_origin_mono, IH|].
      match type of Hin with
      | context [generateAndBroadcastAIResponse _ _ _ _ _ _ ?st'] =>
          destruct (ai_turn_cases B config w now later task st')
            as [[_ Heq]|(reply & o & _ & _ & Hmod & Hb & _ & Heq)]
      end; rewrite Heq in Hin; cbn [conversationHistoryMap] in Hin.
      * by apply entry_origin_mono, IH.
      * apply add_history_elem in Hin as [Hin|[-> ->]].
        -- by apply entry_origin_mono, IH.
        -- apply entry_origin_last; [by exists o|done].
Qed.

Lemma on_register_contexts B config w now socketId data st :
  ai_contexts (snd (on_register_username B config w now socketId data st)) = [].
Proof. unfold on_register_username. break_handler. Qed.

Lemma on_message_contexts B config w now later socketId data st :
  ai_contexts (snd (on_message B config w now later socketId data st)) = [].
Proof. unfold on_message. break_handler. Qed.

Lemma ai_turn_contexts B config w now later task st :
  ai_contexts (snd (generateAndBroadcastAIResponse B config w now later task st)) = []
  \/ ai_contexts (snd (generateAndBroadcastAIResponse B config w now later task st))
     = [history_of (task_socket task) (conversationHistoryMap st)].
Proof.
  unfold generateAndBroadcastAIResponse, history_of.
  break_handler; (by left) || (by right).
Qed.

Lemma run_snoc_effects B config evs w ev :
  snd (run B config (evs ++ [(w, ev)]) initial_state)
  = (snd (run B config evs initial_state)
     ++ snd (step B config w ev (state_after B config evs)))%list.
Proof.
  unfold state_after. rewrite run_app.
  destruct (run B config evs initial_state) as [st1 out1]. cbn [run fst snd].
  destruct (step B config w ev st1) as [st2 out2]. cbn [snd]. by rewrite app_nil_r.
Qed.

(** The history handed to the provider holds entries with an origin only. *)
Lemma ai_contexts_origin B config evs :
  forall context,
    context ∈ ai_contexts (snd (run B config evs initial_state)) ->
    exists socketId,
      forall entry, entry ∈ context -> entry_origin B config evs socketId entry.
Proof.
  induction evs as [|[w ev] evs IH] using rev_ind; intros context Hin.
  - cbn in Hin. by apply elem_of_nil in Hin.
  - rewrite run_snoc_effects in Hin. unfold ai_contexts in Hin.
    rewrite omap_app in Hin. fold (ai_contexts (snd (run B config evs initial_state))) in Hin.
    apply elem_of_app in Hin as [Hin|Hin].
    + destruct (IH context Hin) as [socketId Hall]. exists socketId.
      intros entry He. by apply entry_origin_mono, Hall.
    + set (st := state_after B config evs) in *.
      destruct ev as [s data now|s data now later|s|now later]; cbn [step] in Hin.
      * fold (ai_contexts (snd (on_register_username B config w now s data st))) in Hin.
        rewrite on_register_contexts in Hin. by apply elem_of_nil in Hin.
      * fold (ai_contexts (snd (on_message B config w now later s data st))) in Hin.
        rewrite on_message_contexts in Hin. by apply elem_of_nil in Hin.
      * cbn in Hin. by apply elem_of_nil in Hin.
      * destruct (deferred st) as [|task rest] eqn:Hq; [cbn in Hin; by apply elem_of_nil in Hin|].
        match type of Hin with
        | context [generateAndBroadcastAIResponse _ _ _ _ _ _ ?st'] =>
            fold (ai_contexts (snd (generateAndBroadcastAIResponse B config w now later task st')))
              in Hin;
            destruct (ai_turn_contexts B config w now later task st') as [Heq|Heq]
        end; rewrite Heq in Hin.
        -- by apply elem_of_nil in Hin.
        -- apply list_elem_of_singleton in Hin as ->. cbn [conversationHistoryMap].
           exists (task_socket task). intros entry He.
           by apply entry_origin_mono, history_entries_origin.
Qed.

(** C10. A user message that moderation blocks is not appended to any
    history. After any run, every entry of a connection's history is the
    sanitized text of a message of that connection that moderation let
    through, or an AI text (greeting or reply) that moderation let through;
    and so is every entry of a history handed to the provider as prompt
    context. *)
Theorem blocked_text_never_in_history B config :
  (forall w now later socketId data st text o,
      string_field data "text" = Some text ->
      moderateText B config w (sanitize B text) = Ok o ->
      isBlocked o = true ->
      conversationHistoryMap (fst (on_message B config w now later socketId data st))
      = conversationHistoryMap st)
  /\ (forall evs socketId entry,
         entry ∈ history_of socketId (conversationHistoryMap (state_after B config evs)) ->
         entry_origin B config evs socketId entry)
  /\ (forall evs context,
         context ∈ ai_contexts (snd (run B config evs initial_state)) ->
         exists socketId,
           forall entry, entry ∈ context -> entry_origin B config evs socketId entry).
Proof.
  split; [|split].
  - intros. by eapply on_message_blocked_history.
  - apply history_entries_origin.
  - apply ai_contexts_origin.
Qed.

Lemma blocked_text_never_in_history_witness :
  conversationHistoryMap
    (fst (on_message sample_builtins sample_config flagging_world 1001 1005 "abc"
            (text_payload "bad words")
            (state_after sample_builtins sample_config
               [(quiet_world, RegisterUsername "abc" (username_payload "Ann") 1000)])))
  = conversationHistoryMap
      (state_after sample_builtins sample_config
         [(quiet_world, RegisterUsername "abc" (username_payload "Ann") 1000)]).
Proof.
  destruct (blocked_text_never_in_history sample_builtins sample_config) as (Hblocked & _ & _).
  eapply (Hblocked flagging_world 1001 1005 "abc" (text_payload "bad words") _ "bad words").
  - vm_compute. reflexivity.
  - vm_compute. reflexivity.
  - vm_compute. reflexivity.
Defined.

(** ** Scenarios *)

(** Ann registers and says hello; moderation finds nothing: the message is
    broadcast with the status OK and no block notice is emitted. *)
Example scenario_clean_message :
  let out := snd (run sample_builtins sample_config
                    [ (quiet_world, RegisterUsername "abc" (username_payload "Ann") 1000);
                      (quiet_world, Message "abc" (text_payload "Hello, how are you?") 2000 2005) ]
                    initial_state) in
  map (fun m => (msg_author m, msg_text m, moderationStatus m)) (broadcast_messages out)
  = [ ("Ann", "Hello, how are you?", Some "OK") ]
  /\ Forall (fun ev => match ev with MessageBlocked _ _ _ _ _ => False | _ => True end)
       (emitted_to "abc" out).
Proof. split; vm_compute; [reflexivity|repeat constructor]. Qed.

(** A text scored 0.9 for hate under the threshold 0.5: a block notice
    naming the category goes to the sender and nothing is broadcast. *)
Example scenario_blocked_message :
  let out := snd (run sample_builtins sample_config
                    [ (quiet_world, RegisterUsername "abc" (username_payload "Ann") 1000);
                      (flagging_world, Message "abc" (text_payload "some text") 2000 2005) ]
                    initial_state) in
  broadcast_messages out = []
  /\ omap (fun ev => match ev with
                     | MessageBlocked id text why _ _ => Some (id, text, why)
                     | _ => None
                     end) (emitted_to "abc" out)
     = [ (Some "abc-2005", "some text", "Blocked due to hate (score: 0.9000)") ].
Proof. split; vm_compute; reflexivity. Qed.

(** With a cap of 2, the third message of a minute gets the rate-limit
    notice and moderation is not called for it. *)
Example scenario_rate_limited :
  snd (step sample_builtins config_limit_2 quiet_world
         (Message "abc" (text_payload "three") 3000 3005)
         (state_after sample_builtins config_limit_2
            [ (quiet_world, RegisterUsername "abc" (username_payload "Ann") 1000);
              (quiet_world, Message "abc" (text_payload "one") 1000 1005);
              (quiet_world, Message "abc" (text_payload "two") 2000 2005) ]))
  = [ SocketEmit "abc"
        (MessageBlocked None "three" "Rate limit exceeded. Please slow down." None 3000) ].
Proof. vm_compute. reflexivity. Qed.

(** Bo registers while the provider answers: one greeting, sent to Bo only,
    authored by the AI, and present in Bo's history afterwards. *)
Example scenario_greeting :
  let r := run sample_builtins sample_config
             [ (answering_world " Welcome, Bo! ",
                RegisterUsername "bo1" (username_payload "Bo") 1000) ]
             initial_state in
  broadcast_messages (snd r) = []
  /\ emitted_to "bo1" (snd r) = [MessageEvent (greeting_message "bo1" 1000 "Welcome, Bo!")]
  /\ history_of "bo1" (conversationHistoryMap (fst r))
     = [ {| h_author := "AI Moderator"; h_text := "Welcome, Bo!"; h_timestamp := 1000 |} ].
Proof. repeat split; vm_compute; reflexivity. Qed.

(** * Further properties *)

(** ** The limiter of AI turns *)

(** The limiter of AI turns is the limiter of messages with the limit 10. *)
Lemma checkAIRateLimit_as_checkRateLimit config now socketId m :
  messagesPerMinute config = 10 ->
  checkAIRateLimit now socketId m = checkRateLimit config now socketId m.
Proof. intros H. unfold checkAIRateLimit, checkRateLimit. by rewrite H. Qed.

Lemma checkAIRateLimit_accept now socketId m :
  (length (in_window now (recorded socketId m)) < 10)%nat ->
  fst (checkAIRateLimit now socketId m) = true
  /\ recorded socketId (snd (checkAIRateLimit now socketId m))
     = (in_window now (recorded socketId m) ++ [now])%list.
Proof.
  intros Hlt.
  rewrite (checkAIRateLimit_as_checkRateLimit (mkConfig "" "" "" NaN None 10 false "" "" 0 0))
    by done.
  apply checkRateLimit_accept. simpl. lia.
Qed.

Lemma checkAIRateLimit_reject now socketId m :
  (10 <= length (in_window now (recorded socketId m)))%nat ->
  fst (checkAIRateLimit now socketId m) = false
  /\ recorded socketId (snd (checkAIRateLimit now socketId m)) = recorded socketId m.
Proof.
  intros Hle.
  rewrite (checkAIRateLimit_as_checkRateLimit (mkConfig "" "" "" NaN None 10 false "" "" 0 0))
    by done.
  apply checkRateLimit_reject. simpl. lia.
Qed.

Lemma checkAIRateLimit_other now socketId other m :
  socketId <> other ->
  recorded other (snd (checkAIRateLimit now socketId m)) = recorded other m.
Proof.
  intros Hne.
  rewrite (checkAIRateLimit_as_checkRateLimit (mkConfig "" "" "" NaN None 10 false "" "" 0 0))
    by done.
  by apply checkRateLimit_other.
Qed.

(** The state an AI turn leaves: the AI record is the one the limiter
    wrote, the history is untouched or one entry longer. *)
Lemma ai_turn_ai_record B config w now later task st :
  let r := generateAndBroadcastAIResponse B config w now later task st in
  aiResponseRateLimitMap (fst r) = aiResponseRateLimitMap st
  \/ aiResponseRateLimitMap (fst r)
     = snd (checkAIRateLimit now (task_socket task) (aiResponseRateLimitMap st)).
Proof.
  cbv zeta. unfold generateAndBroadcastAIResponse.
  destruct (negb (ai_enabled config)); [by left|].
  destruct (checkAIRateLimit now (task_socket task) (aiResponseRateLimitMap st))
    as [allowed aiMap] eqn:Hc.
  right. break_handler.
Qed.

Lemma ai_turn_rate_record B config w now later task st :
  rateLimitMap (fst (generateAndBroadcastAIResponse B config w now later task st))
  = rateLimitMap st.
Proof. unfold generateAndBroadcastAIResponse. break_handler. Qed.

Lemma ai_turn_deferred B config w now later task st :
  deferred (fst (generateAndBroadcastAIResponse B config w now later task st))
  = deferred st.
Proof. unfold generateAndBroadcastAIResponse. break_handler. Qed.

(** A turn the limiter accepts hands the history of the connection to
    [generateAIResponse] and is recorded. *)
Lemma ai_turn_accepted B config w now later task st :
  ai_enabled config = true ->
  (length (in_window now (recorded (task_socket task) (aiResponseRateLimitMap st))) < 10)%nat ->
  let r := generateAndBroadcastAIResponse B config w now later task st in
  ai_contexts (snd r) = [history_of (task_socket task) (conversationHistoryMap st)]
  /\ recorded (task_socket task) (aiResponseRateLimitMap (fst r))
     = (in_window now (recorded (task_socket task) (aiResponseRateLimitMap st)) ++ [now])%list.
Proof.
  intros Hen Hlt. cbv zeta.
  destruct (checkAIRateLimit_accept now (task_socket task) (aiResponseRateLimitMap st) Hlt)
    as [Hacc Hrec].
  unfold generateAndBroadcastAIResponse. rewrite Hen. cbn [negb].
  destruct (checkAIRateLimit now (task_socket task) (aiResponseRateLimitMap st))
    as [allowed aiMap] eqn:Hc.
  cbn [fst snd] in Hacc, Hrec. subst allowed. cbn [negb].
  cbn [conversationHistoryMap]. fold (history_of (task_socket task) (conversationHistoryMap st)).
  break_handler.
Qed.

(** X1: an AI turn consults the provider exactly when AI is enabled and
    the connection has fewer than 10 AI turns on record in the trailing
    minute; the turn is then recorded. A turn that is refused, or made with
    AI disabled, has no effect at all on the outside and leaves the history
    and the record of the connection as they were. *)
Theorem ai_turn_rate_gate B config w now later task st :
  let socketId := task_socket task in
  let r := generateAndBroadcastAIResponse B config w now later task st in
  let recent := in_window now (recorded socketId (aiResponseRateLimitMap st)) in
  (ai_enabled config = true /\ (length recent < 10)%nat ->
   ai_contexts (snd r) = [history_of socketId (conversationHistoryMap st)]
   /\ recorded socketId (aiResponseRateLimitMap (fst r)) = (recent ++ [now])%list)
  /\ (ai_enabled config = false \/ (10 <= length recent)%nat ->
      snd r = []
      /\ conversationHistoryMap (fst r) = conversationHistoryMap st
      /\ recorded socketId (aiResponseRateLimitMap (fst r))
         = recorded socketId (aiResponseRateLimitMap st)).
Proof.
  cbv zeta. split.
  - intros [Hen Hlt]. by apply ai_turn_accepted.
  - intros Hor.
    unfold generateAndBroadcastAIResponse.
    destruct (ai_enabled config) eqn:Hen; cbn [negb]; [|done].
    destruct Hor as [?|Hge]; [done|].
    destruct (checkAIRateLimit_reject now (task_socket task) (aiResponseRateLimitMap st) Hge)
      as [Hrej Hrec].
    destruct (checkAIRateLimit now (task_socket task) (aiResponseRateLimitMap st))
      as [allowed aiMap] eqn:Hc.
    cbn [fst snd] in Hrej, Hrec. subst allowed. cbn [negb fst snd aiResponseRateLimitMap
      conversationHistoryMap]. done.
Qed.

(** ** Bounds on what a connection holds *)

Lemma checkRateLimit_bounded config now socketId m :
  (forall s, Z.of_nat (length (recorded s m)) <= Z.max 0 (messagesPerMinute config)) ->
  forall s, Z.of_nat (length (recorded s (snd (checkRateLimit config now socketId m))))
            <= Z.max 0 (messagesPerMinute config).
Proof.
  intros Hinv. exact (check_calls_bounded config [(socketId, now)] m Hinv).
Qed.

Lemma checkAIRateLimit_bounded now socketId m :
  (forall s, (length (recorded s m) <= 10)%nat) ->
  forall s, (length (recorded s (snd (checkAIRateLimit now socketId m))) <= 10)%nat.
Proof.
  intros Hinv s.
  rewrite (checkAIRateLimit_as_checkRateLimit (mkConfig "" "" "" NaN None 10 false "" "" 0 0))
    by done.
  pose proof (checkRateLimit_bounded (mkConfig "" "" "" NaN None 10 false "" "" 0 0)
                now socketId m) as H.
  cbn [messagesPerMinute] in H. specialize (H (fun s => ltac:(specialize (Hinv s); lia)) s).
  lia.
Qed.

(** An append keeps the history within the configured size, whatever the
    sign of that size. *)
Lemma addToConversationHistory_bounded config socketId author text timestamp m :
  (forall s, (length (history_of s m) <= history_cap config)%nat) ->
  forall s, (length (history_of s (addToConversationHistory config socketId author text
                                     timestamp m)) <= history_cap config)%nat.
Proof.
  intros Hinv s. destruct (decide (socketId = s)) as [->|Hne].
  - rewrite addToConversationHistory_lookup. cbv zeta.
    specialize (Hinv s). unfold history_cap in *.
    case_bool_decide as Hc.
    + destruct (history_of s m) as [|x h]; simpl in *; [lia|].
      rewrite length_app in *. simpl in *. lia.
    + lia.
  - rewrite addToConversationHistory_other by done. apply Hinv.
Qed.

Lemma recorded_delete socketId other (m : gmap string (list Z)) :
  recorded other (delete socketId m)
  = if decide (socketId = other) then [] else recorded other m.
Proof.
  unfold recorded. destruct (decide (socketId = other)) as [->|Hne].
  - by rewrite lookup_delete_eq.
  - by rewrite lookup_delete_ne.
Qed.

Lemma history_of_delete socketId other (m : gmap string (list HistoryEntry)) :
  history_of other (delete socketId m)
  = if decide (socketId = other) then [] else history_of other m.
Proof.
  unfold history_of. destruct (decide (socketId = other)) as [->|Hne].
  - by rewrite lookup_delete_eq.
  - by rewrite lookup_delete_ne.
Qed.

(** What the message handler leaves in the two rate records. *)
Lemma on_message_rate_record B config w now later socketId data st :
  let r := on_message B config w now later socketId data st in
  rateLimitMap (fst r) = rateLimitMap st
  \/ rateLimitMap (fst r) = snd (checkRateLimit config now socketId (rateLimitMap st)).
Proof.
  cbv zeta. unfold on_message.
  destruct (registered_name socketId st); [|by left].
  destruct (string_field data "text"); [|by left].
  destruct (strlen _ =? 0)%Z; [by left|].
  destruct (1000 <? strlen _)%Z; [by left|].
  destruct (checkRateLimit config now socketId (rateLimitMap st)) as [allowed rateMap].
  right. break_handler.
Qed.

Lemma on_message_ai_record B config w now later socketId data st :
  aiResponseRateLimitMap (fst (on_message B config w now later socketId data st))
  = aiResponseRateLimitMap st.
Proof. unfold on_message. break_handler. Qed.

Lemma on_register_rate_record B config w now socketId data st :
  rateLimitMap (fst (on_register_username B config w now socketId data st)) = rateLimitMap st.
Proof. unfold on_register_username. break_handler. Qed.

Lemma on_register_ai_record B config w now socketId data st :
  aiResponseRateLimitMap (fst (on_register_username B config w now socketId data st))
  = aiResponseRateLimitMap st.
Proof. unfold on_register_username. break_handler. Qed.

Lemma on_register_deferred B config w now socketId data st :
  deferred (fst (on_register_username B config w now socketId data st)) = deferred st.
Proof. unfold on_register_username. break_handler. Qed.

(** The history an AI turn leaves: untouched, or one entry longer. *)
Lemma ai_turn_history B config w now later task st :
  let r := generateAndBroadcastAIResponse B config w now later task st in
  conversationHistoryMap (fst r) = conversationHistoryMap st
  \/ exists reply,
       conversationHistoryMap (fst r)
       = addToConversationHistory config (task_socket task) AI_AUTHOR_NAME reply later
           (conversationHistoryMap st).
Proof.
  cbv zeta. destruct (ai_turn_cases B config w now later task st) as [[_ H]|H].
  - by left.
  - destruct H as (reply & o & _ & _ & _ & _ & _ & H). right. by exists reply.
Qed.

(** Every handler keeps the bounds. *)
Lemma step_within_bounds B config w ev st :
  within_bounds config st -> within_bounds config (fst (step B config w ev st)).
Proof.
  intros Hinv.
  assert (Hrate : forall s, Z.of_nat (length (recorded s (rateLimitMap st)))
                            <= Z.max 0 (messagesPerMinute config)) by (intros s; apply Hinv).
  assert (Hai : forall s, (length (recorded s (aiResponseRateLimitMap st)) <= 10)%nat)
    by (intros s; apply Hinv).
  assert (Hhist : forall s, (length (history_of s (conversationHistoryMap st))
                             <= history_cap config)%nat) by (intros s; apply Hinv).
  destruct ev as [socketId data now|socketId data now later|socketId|now later]; cbn [step].
  - intros s. rewrite on_register_rate_record, on_register_ai_record.
    split; [apply Hrate|]. split; [apply Hai|].
    destruct (on_register_history B config w now socketId data st) as [->|(g & _ & ->)];
      [apply Hhist|by apply addToConversationHistory_bounded].
  - intros s. rewrite on_message_ai_record.
    split; [|split; [apply Hai|]].
    + destruct (on_message_rate_record B config w now later socketId data st) as [->| ->];
        [apply Hrate|by apply checkRateLimit_bounded].
    + destruct (on_message_history B config w now later socketId data st)
        as [->|(name & text & _ & _ & ->)];
        [apply Hhist|by apply addToConversationHistory_bounded].
  - intros s. unfold on_disconnect, cleanupRateLimit.
    cbn [fst rateLimitMap aiResponseRateLimitMap conversationHistoryMap].
    rewrite !recorded_delete, history_of_delete.
    destruct (decide (socketId = s)); simpl; [lia|].
    split; [apply Hrate|]. split; [apply Hai|apply Hhist].
  - destruct (deferred st) as [|task rest]; [done|].
    set (st0 := {| rateLimitMap := rateLimitMap st;
                   conversationHistoryMap := conversationHistoryMap st;
                   aiResponseRateLimitMap := aiResponseRateLimitMap st;
                   socketUsername := socketUsername st;
                   deferred := rest |}).
    intros s. rewrite ai_turn_rate_record.
    split; [apply Hrate|]. split.
    + destruct (ai_turn_ai_record B config w now later task st0) as [->| ->];
        [apply Hai|by apply checkAIRateLimit_bounded].
    + destruct (ai_turn_history B config w now later task st0) as [->|(reply & ->)];
        [apply Hhist|by apply addToConversationHistory_bounded].
Qed.

(** A run keeps the bounds. *)
Lemma run_within_bounds B config evs :
  forall st, within_bounds config st -> within_bounds config (fst (run B config evs st)).
Proof.
  induction evs as [|[w ev] evs IH]; intros st Hinv; [done|].
  cbn [run].
  pose proof (step_within_bounds B config w ev st Hinv) as Hstep.
  destruct (step B config w ev st) as [st1 out1].
  specialize (IH st1 Hstep).
  by destruct (run B config evs st1) as [st2 out2].
Qed.

Lemma initial_within_bounds config : within_bounds config initial_state.
Proof.
  intros s. unfold recorded, history_of. cbn. rewrite !lookup_empty. simpl. lia.
Qed.

(** X2: in every state a run can reach, a connection holds at most the
    configured number of message timestamps, at most 10 timestamps of AI
    turns and at most the configured number of history entries, whatever
    the clock readings and the answers of the remote services were; and
    every history handed to [generateAIResponse] is within that size. *)
Theorem reachable_state_bounded B config evs :
  (forall socketId,
      Z.of_nat (length (recorded socketId (rateLimitMap (state_after B config evs))))
      <= Z.max 0 (messagesPerMinute config)
      /\ (length (recorded socketId (aiResponseRateLimitMap (state_after B config evs)))
          <= 10)%nat
      /\ (length (history_of socketId (conversationHistoryMap (state_after B config evs)))
          <= history_cap config)%nat)
  /\ Forall (fun context => (length context <= history_cap config)%nat)
       (ai_contexts (snd (run B config evs initial_state))).
Proof.
  split.
  - exact (run_within_bounds B config evs initial_state (initial_within_bounds config)).
  - induction evs as [|[w ev] evs IH] using rev_ind; [by constructor|].
    rewrite run_snoc_effects. unfold ai_contexts in *. rewrite omap_app.
    apply Forall_app. split; [exact IH|]. fold (ai_contexts (snd (step B config w ev
      (state_after B config evs)))).
    pose proof (run_within_bounds B config evs initial_state (initial_within_bounds config))
      as Hinv. fold (state_after B config evs) in Hinv.
    destruct ev as [socketId data now|socketId data now later|socketId|now later]; cbn [step].
    + rewrite on_register_contexts. constructor.
    + rewrite on_message_contexts. constructor.
    + constructor.
    + destruct (deferred (state_after B config evs)) as [|task rest]; [constructor|].
      match goal with
      | |- context [generateAndBroadcastAIResponse B config w now later task ?s] =>
          destruct (ai_turn_contexts B config w now later task s) as [-> | ->]
      end; [constructor|].
      constructor; [|constructor]. cbn [conversationHistoryMap]. apply Hinv.
Qed.

(** ** The request of an AI turn *)

(** A history within the configured size is sent whole: the [slice] of
    [buildMessages] drops nothing. *)
Lemma slice_last_bounded {A} (n : Z) (l : list A) :
  (length l <= Z.to_nat n)%nat -> slice_last n l = l.
Proof.
  intros Hlen. unfold slice_last. destruct (0 <? n)%Z eqn:Hn.
  - replace (length l - Z.to_nat n)%nat with 0%nat by lia. done.
  - apply Z.ltb_ge in Hn. replace (Z.to_nat n) with 0%nat in Hlen by lia.
    destruct l; [by rewrite drop_nil|simpl in Hlen; lia].
Qed.

(** X3: the request of an AI turn, in any state a run can reach: the
    system prompt, then the whole history of the connection in order (the
    entries of the AI author as assistant turns, all others as user turns),
    then one user turn, which is the message itself unless the turn reacts
    to a blocked message. Nothing of the history is cut off. *)
Theorem ai_request_shape B config evs task :
  let st := state_after B config evs in
  let history := history_of (task_socket task) (conversationHistoryMap st) in
  exists system_turn user_turn,
    task_messages config task st
    = (system_turn :: map history_turn history ++ [user_turn])%list
    /\ role system_turn = "system"
    /\ role user_turn = "user"
    /\ (task_blocked task = false -> turn_content user_turn = task_message task)
    /\ Forall (fun entry =>
                 history_turn entry
                 = {| role := if String.eqb (h_author entry) AI_AUTHOR_NAME
                              then "assistant" else "user";
                      turn_content := h_text entry |}) history.
Proof.
  cbv zeta.
  pose proof (run_within_bounds B config evs initial_state (initial_within_bounds config)
                (task_socket task)) as (_ & _ & Hlen).
  fold (state_after B config evs) in Hlen.
  unfold task_messages, buildMessages.
  rewrite slice_last_bounded by exact Hlen.
  eexists _, _. split; [reflexivity|]. cbn [role turn_content].
  split; [done|]. split; [done|]. split.
  - intros ->. by destruct (details (task_moderation task)).
  - apply Forall_forall. intros entry _. unfold history_turn.
    by destruct (String.eqb (h_author entry) AI_AUTHOR_NAME).
Qed.

(** ** Connections: disconnect, isolation, addressing *)

(** The entries of other connections after a rate-limit check or an
    append. *)
Lemma checkRateLimit_lookup_other config now socketId other m :
  socketId <> other ->
  snd (checkRateLimit config now socketId m) !! other = m !! other.
Proof.
  intros Hne. unfold checkRateLimit.
  repeat case_bool_decide; simpl; rewrite ?lookup_insert_ne by done; done.
Qed.

Lemma checkAIRateLimit_lookup_other now socketId other m :
  socketId <> other ->
  snd (checkAIRateLimit now socketId m) !! other = m !! other.
Proof.
  intros Hne.
  rewrite (checkAIRateLimit_as_checkRateLimit (mkConfig "" "" "" NaN None 10 false "" "" 0 0))
    by done.
  by apply checkRateLimit_lookup_other.
Qed.

Lemma addToConversationHistory_lookup_other config socketId other author text timestamp m :
  socketId <> other ->
  addToConversationHistory config socketId author text timestamp m !! other = m !! other.
Proof.
  intros Hne. unfold addToConversationHistory.
  rewrite lookup_insert_ne by done.
  case_bool_decide; [done|]. by rewrite lookup_insert_ne.
Qed.

(** The names after a registration: the old ones, or the old ones with the
    name of the connection set. *)
Lemma on_register_names B config w now socketId data st :
  socketUsername (fst (on_register_username B config w now socketId data st))
  = socketUsername st
  \/ exists name,
       socketUsername (fst (on_register_username B config w now socketId data st))
       = <[socketId := name]> (socketUsername st).
Proof.
  unfold on_register_username. break_handler; (by left) || (right; by eexists).
Qed.

(** X4: a disconnect emits nothing and removes what the server holds for
    the connection: its two rate records, its history and its name. Other
    connections keep theirs, and the queue of AI turns is left as it is. A
    message sent on the connection afterwards is answered like one of a
    connection that never registered. *)
Theorem disconnect_purges_connection B config w socketId st :
  let st' := fst (step B config w (Disconnect socketId) st) in
  snd (step B config w (Disconnect socketId) st) = []
  /\ rateLimitMap st' !! socketId = None
  /\ aiResponseRateLimitMap st' !! socketId = None
  /\ conversationHistoryMap st' !! socketId = None
  /\ socketUsername st' !! socketId = None
  /\ deferred st' = deferred st
  /\ (forall other, other <> socketId ->
        rateLimitMap st' !! other = rateLimitMap st !! other
        /\ aiResponseRateLimitMap st' !! other = aiResponseRateLimitMap st !! other
        /\ conversationHistoryMap st' !! other = conversationHistoryMap st !! other
        /\ socketUsername st' !! other = socketUsername st !! other)
  /\ (forall w' data now later,
        step B config w' (Message socketId data now later) st'
        = (st', [SocketEmit socketId (ErrorEvent "Please set your username first" None)])).
Proof.
  cbv zeta. cbn [step]. unfold on_disconnect, cleanupRateLimit.
  cbn [fst snd rateLimitMap aiResponseRateLimitMap conversationHistoryMap socketUsername
         deferred].
  rewrite !lookup_delete_eq. repeat (split; [done|]). split.
  - intros other Hne. by rewrite !lookup_delete_ne.
  - intros w' data now later. cbn [step]. apply on_message_unregistered.
    unfold registered_name. cbn [socketUsername]. by rewrite lookup_delete_eq.
Qed.

(** X5: a disconnect does not cancel the AI turns already queued. The
    oldest queued turn of a connection that has disconnected still runs:
    the limiter accepts it, [generateAIResponse] is called with an empty
    history, and a record of AI turns is created anew for the connection. *)
Theorem queued_turn_outlives_disconnect B config w w' now later task rest st :
  ai_enabled config = true ->
  deferred st = task :: rest ->
  let st1 := fst (step B config w (Disconnect (task_socket task)) st) in
  let r := step B config w' (RunDeferred now later) st1 in
  ai_contexts (snd r) = [[]]
  /\ aiResponseRateLimitMap (fst r) !! task_socket task = Some [now]
  /\ deferred (fst r) = rest.
Proof.
  intros Hen Hq. cbv zeta. cbn [step]. unfold on_disconnect, cleanupRateLimit.
  cbn [fst snd rateLimitMap aiResponseRateLimitMap conversationHistoryMap socketUsername
         deferred].
  rewrite Hq.
  match goal with
  | |- context [generateAndBroadcastAIResponse B config w' now later task ?s] =>
      set (st0 := s)
  end.
  assert (Hrec : recorded (task_socket task) (aiResponseRateLimitMap st0) = []).
  { unfold recorded, st0. cbn [aiResponseRateLimitMap]. by rewrite lookup_delete_eq. }
  assert (Hhist : history_of (task_socket task) (conversationHistoryMap st0) = []).
  { unfold history_of, st0. cbn [conversationHistoryMap]. by rewrite lookup_delete_eq. }
  destruct (ai_turn_accepted B config w' now later task st0 Hen) as [Hctx Hnew].
  { rewrite Hrec. simpl. lia. }
  rewrite Hhist in Hctx. rewrite Hrec in Hnew. split; [exact Hctx|]. split.
  - unfold recorded in Hnew. cbn in Hnew.
    destruct (aiResponseRateLimitMap
                (fst (generateAndBroadcastAIResponse B config w' now later task st0))
              !! task_socket task) as [l|]; simpl in Hnew; [by subst|done].
  - by rewrite ai_turn_deferred.
Qed.

Lemma queued_turn_outlives_disconnect_witness :
  ai_contexts
    (snd (step sample_builtins sample_config quiet_world (RunDeferred 3000 3005)
            (fst (step sample_builtins sample_config quiet_world (Disconnect "abc")
                    (state_after sample_builtins sample_config
                       [ (quiet_world, RegisterUsername "abc" (username_payload "Ann") 1000);
                         (quiet_world, Message "abc" (text_payload "hi") 2000 2005) ])))))
  = [[]].
Proof.
  refine (proj1 (queued_turn_outlives_disconnect sample_builtins sample_config quiet_world
                   quiet_world 3000 3005
                   (mkTask "abc" "hi" {| isBlocked := false; reason := "OK";
                                         details := D_scores (map (fun c => (c, 0%Q)) toxicCategories)
                                                      0 None (JNum 0) (Fin 0.5) None None |}
                      false)
                   []
                   (state_after sample_builtins sample_config
                      [ (quiet_world, RegisterUsername "abc" (username_payload "Ann") 1000);
                        (quiet_world, Message "abc" (text_payload "hi") 2000 2005) ])
                   _ _)).
  - reflexivity.
  - vm_compute. reflexivity.
Defined.

(** What one handler does is confined to one connection. *)
Lemma step_frame B config w ev st other :
  event_socket ev st <> Some other ->
  rateLimitMap (fst (step B config w ev st)) !! other = rateLimitMap st !! other
  /\ aiResponseRateLimitMap (fst (step B config w ev st)) !! other
     = aiResponseRateLimitMap st !! other
  /\ conversationHistoryMap (fst (step B config w ev st)) !! other
     = conversationHistoryMap st !! other
  /\ socketUsername (fst (step B config w ev st)) !! other = socketUsername st !! other.
Proof.
  intros Hev.
  destruct ev as [socketId data now|socketId data now later|socketId|now later];
    cbn [step event_socket] in *.
  - assert (Hne : socketId <> other) by congruence.
    rewrite on_register_rate_record, on_register_ai_record.
    split; [done|]. split; [done|]. split.
    + destruct (on_register_history B config w now socketId data st) as [->|(g & _ & ->)];
        [done|by apply addToConversationHistory_lookup_other].
    + destruct (on_register_names B config w now socketId data st) as [->|[name ->]];
        [done|by rewrite lookup_insert_ne].
  - assert (Hne : socketId <> other) by congruence.
    rewrite on_message_ai_record, on_message_username.
    split; [|split; [done|split; [|done]]].
    + destruct (on_message_rate_record B config w now later socketId data st) as [->| ->];
        [done|by apply checkRateLimit_lookup_other].
    + destruct (on_message_history B config w now later socketId data st)
        as [->|(name & text & _ & _ & ->)];
        [done|by apply addToConversationHistory_lookup_other].
  - assert (Hne : socketId <> other) by congruence.
    unfold on_disconnect, cleanupRateLimit.
    cbn [fst rateLimitMap aiResponseRateLimitMap conversationHistoryMap socketUsername].
    by rewrite !lookup_delete_ne.
  - destruct (deferred st) as [|task rest]; [done|].
    assert (Hne : task_socket task <> other) by congruence.
    match goal with
    | |- context [generateAndBroadcastAIResponse B config w now later task ?s] =>
        set (st0 := s)
    end.
    rewrite ai_turn_rate_record, ai_turn_username.
    split; [done|]. split; [|split; [|done]].
    + destruct (ai_turn_ai_record B config w now later task st0) as [->| ->];
        [done|by apply checkAIRateLimit_lookup_other].
    + destruct (ai_turn_history B config w now later task st0) as [->|(reply & ->)];
        [done|by apply addToConversationHistory_lookup_other].
Qed.

(** X6: connections are isolated from each other. Whatever an event does
    (a registration, a message, a disconnect, or the AI turn queued for a
    connection), the rate records, the history and the name of every other
    connection are exactly what they were; and so they are after a whole run
    in which the connection has no event. *)
Theorem connection_isolation B config other :
  (forall w ev st,
      event_socket ev st <> Some other ->
      rateLimitMap (fst (step B config w ev st)) !! other = rateLimitMap st !! other
      /\ aiResponseRateLimitMap (fst (step B config w ev st)) !! other
         = aiResponseRateLimitMap st !! other
      /\ conversationHistoryMap (fst (step B config w ev st)) !! other
         = conversationHistoryMap st !! other
      /\ socketUsername (fst (step B config w ev st)) !! other = socketUsername st !! other)
  /\ (forall evs st,
         Forall (fun wev => match snd wev with
                            | RegisterUsername s _ _ | Message s _ _ _ | Disconnect s => s <> other
                            | RunDeferred _ _ => False
                            end) evs ->
         rateLimitMap (fst (run B config evs st)) !! other = rateLimitMap st !! other
         /\ aiResponseRateLimitMap (fst (run B config evs st)) !! other
            = aiResponseRateLimitMap st !! other
         /\ conversationHistoryMap (fst (run B config evs st)) !! other
            = conversationHistoryMap st !! other
         /\ socketUsername (fst (run B config evs st)) !! other = socketUsername st !! other).
Proof.
  split; [intros w ev st; apply step_frame|].
  induction evs as [|[w ev] evs IH]; intros st Hall; [done|].
  inversion Hall as [|? ? Hev Hrest]; subst. cbn [snd] in Hev.
  cbn [run].
  assert (Hsock : event_socket ev st <> Some other).
  { destruct ev; cbn [event_socket]; congruence || done. }
  destruct (step_frame B config w ev st other Hsock) as (H1 & H2 & H3 & H4).
  destruct (step B config w ev st) as [st1 out1]. cbn [fst] in *.
  specialize (IH st1 Hrest).
  destruct (run B config evs st1) as [st2 out2]. cbn [fst] in *.
  destruct IH as (I1 & I2 & I3 & I4). by rewrite I1, I2, I3, I4.
Qed.

(** X7: who receives what. An error or a block notice goes to the
    connection whose registration or message caused it, and to no other; a
    broadcast is always a chat message, of a user when a message event is
    handled and of the AI when a deferred AI turn runs. A registration
    never broadcasts, a disconnect emits nothing, and an AI turn never
    addresses a single connection: its failures are silent. *)
Theorem emissions_addressing B config w ev st :
  Forall (fun e : option string * ServerEvent =>
            match e with
            | (Some socketId, _) =>
                match ev with
                | RegisterUsername s _ _ | Message s _ _ _ => s = socketId
                | _ => False
                end
            | (None, MessageEvent m) =>
                match ev with
                | Message s _ _ _ => isAI m = false
                | RunDeferred _ _ => isAI m = true /\ msg_author m = AI_AUTHOR_NAME
                | _ => False
                end
            | (None, _) => False
            end)
    (emissions (snd (step B config w ev st))).
Proof.
  destruct ev as [socketId data now|socketId data now later|socketId|now later]; cbn [step].
  - unfold on_register_username. break_handler; cbn; repeat constructor.
  - unfold on_message. break_handler; cbn; repeat constructor.
  - cbn. constructor.
  - destruct (deferred st) as [|task rest]; [constructor|].
    unfold generateAndBroadcastAIResponse. break_handler; cbn; repeat constructor.
Qed.

(** X8: a message event is answered exactly once, by an error, a block
    notice or the broadcast of the message, and [moderateText] is called at
    most once for it; a registration and an AI turn emit at most one event,
    a disconnect none. *)
Theorem one_answer_per_event B config w ev st :
  let out := snd (step B config w ev st) in
  match ev with
  | Message _ _ _ _ =>
      length (emissions out) = 1%nat /\ (length (moderated_texts out) <= 1)%nat
  | RegisterUsername _ _ _ | RunDeferred _ _ =>
      (length (emissions out) <= 1)%nat /\ (length (moderated_texts out) <= 1)%nat
  | Disconnect _ => out = []
  end.
Proof.
  cbv zeta.
  destruct ev as [socketId data now|socketId data now later|socketId|now later]; cbn [step].
  - unfold on_register_username. break_handler; cbn; lia.
  - unfold on_message. break_handler; cbn; lia.
  - done.
  - destruct (deferred st) as [|task rest]; [cbn; lia|].
    unfold generateAndBroadcastAIResponse. break_handler; cbn; lia.
Qed.

(** ** What reaches the clients, and what reaches moderation *)





(** The name of a connection after one event. *)
Lemma step_renamed B config w ev st socketId :
  socketUsername (fst (step B config w ev st)) !! socketId
  = renamed socketId (socketUsername st !! socketId) ev.
Proof.
  destruct ev as [s data now|s data now later|s|now later]; cbn [step renamed].
  - destruct (String.eqb_spec s socketId) as [->|Hne].
    + destruct (string_field data "username") as [raw|] eqn:Hf.
      * destruct (valid_username raw) eqn:Hv.
        -- rewrite (on_register_valid B config w now socketId data st raw Hf Hv).
           by rewrite lookup_insert_eq.
        -- destruct (on_register_invalid B config w now socketId data st) as [msg ->];
             [by rewrite Hf|done].
      * destruct (on_register_invalid B config w now socketId data st) as [msg ->];
          [by rewrite Hf|done].
    + destruct (on_register_names B config w now s data st) as [->|[name ->]];
        [done|by rewrite lookup_insert_ne].
  - by rewrite on_message_username.
  - unfold on_disconnect, cleanupRateLimit. cbn [fst socketUsername].
    destruct (String.eqb_spec s socketId) as [->|Hne].
    + by rewrite lookup_delete_eq.
    + by rewrite lookup_delete_ne.
  - destruct (deferred st) as [|task rest]; [done|]. by rewrite ai_turn_username.
Qed.

(** X10: the name a connection bears after a run is the trimmed name of its
    latest valid registration since its last disconnect. An invalid
    registration keeps the name set before, a later valid one replaces it;
    messages and AI turns never change it. *)
Theorem username_is_latest_valid_registration B config evs socketId :
  socketUsername (state_after B config evs) !! socketId = current_name socketId evs.
Proof.
  induction evs as [|[w ev] evs IH] using rev_ind.
  - unfold state_after. cbn. by rewrite lookup_empty.
  - rewrite state_after_snoc, step_renamed, IH.
    unfold current_name. by rewrite fold_left_app.
Qed.

(** X11: [moderateText] is consulted for a message exactly when the
    connection is registered, the payload has a string text whose sanitized
    form has 1 to 1000 characters, and the rate limiter accepts; it is then
    given the sanitized text. A message that does not get that far is not
    broadcast, is not queued for the AI, and leaves the history and the
    rate record of the connection as they were. *)
Theorem moderation_called_iff B config w now later socketId data st :
  let r := on_message B config w now later socketId data st in
  (forall t,
      t ∈ moderated_texts (snd r)
      <-> exists name text,
            registered_name socketId st = Some name
            /\ string_field data "text" = Some text
            /\ t = sanitize B text
            /\ 1 <= strlen t <= 1000
            /\ fst (checkRateLimit config now socketId (rateLimitMap st)) = true)
  /\ (moderated_texts (snd r) = [] ->
      broadcast_messages (snd r) = []
      /\ deferred (fst r) = deferred st
      /\ conversationHistoryMap (fst r) = conversationHistoryMap st
      /\ recorded socketId (rateLimitMap (fst r)) = recorded socketId (rateLimitMap st)).
Proof.
  cbv zeta. unfold on_message.
  destruct (registered_name socketId st) as [name|] eqn:Hn.
  2:{ split; [|done]. intros t. cbn. rewrite elem_of_nil.
      split; [done|]. by intros (? & ? & ? & _). }
  destruct (string_field data "text") as [text|] eqn:Ht.
  2:{ split; [|done]. intros t. cbn. rewrite elem_of_nil.
      split; [done|]. by intros (? & ? & _ & ? & _). }
  pose proof (Nat2Z.is_nonneg (String.length (sanitize B text))) as Hnn.
  fold (strlen (sanitize B text)) in Hnn.
  destruct (strlen (sanitize B text) =? 0)%Z eqn:H0.
  { apply Z.eqb_eq in H0. split; [|done]. intros t. cbn. rewrite elem_of_nil.
    split; [done|]. intros (? & ? & _ & ? & -> & ? & _). simplify_eq. lia. }
  destruct (1000 <? strlen (sanitize B text))%Z eqn:H1.
  { apply Z.ltb_lt in H1. split; [|done]. intros t. cbn. rewrite elem_of_nil.
    split; [done|]. intros (? & ? & _ & ? & -> & ? & _). simplify_eq. lia. }
  apply Z.eqb_neq in H0. apply Z.ltb_ge in H1.
  destruct (checkRateLimit config now socketId (rateLimitMap st)) as [allowed rateMap] eqn:Hc.
  destruct allowed; cbn [negb fst snd].
  - assert (Hcalled : forall out,
               (forall t,
                   t ∈ moderated_texts (CallModeration (sanitize B text) :: out)
                   -> moderated_texts out = [] -> t = sanitize B text)).
    { intros out t Hin Hout.
      change (t ∈ sanitize B text :: moderated_texts out) in Hin.
      rewrite Hout in Hin. by apply list_elem_of_singleton in Hin. }
    destruct (moderateText B config w (sanitize B text)) as [o|e];
      [destruct (isBlocked o)|]; cbn [fst snd]; (split; [|by cbn]);
      intros t; (split;
        [ intros Hin; apply Hcalled in Hin; [|done]; subst t;
          exists name, text; repeat split; done || lia
        | intros (? & ? & _ & ? & -> & _); simplify_eq; cbn; apply list_elem_of_here ]).
  - split.
    + intros t. cbn. rewrite elem_of_nil. split; [done|].
      by intros (? & ? & _ & _ & _ & _ & ?).
    + intros _. cbn [rateLimitMap conversationHistoryMap deferred].
      split; [done|]. split; [done|]. split; [done|].
      assert (Hrej : fst (checkRateLimit config now socketId (rateLimitMap st)) = false)
        by by rewrite Hc.
      destruct (Z_lt_le_dec
                  (Z.of_nat (length (in_window now (recorded socketId (rateLimitMap st)))))
                  (messagesPerMinute config)) as [Hlt|Hge].
      * apply checkRateLimit_accept in Hlt as [Hacc _]. congruence.
      * apply checkRateLimit_reject in Hge as [_ Hrec]. by rewrite Hc in Hrec.
Qed.

(** X12: a message that the rate limiter refuses is answered by one
    notice to its sender, without id and without details; it is not
    moderated, not broadcast and not queued for the AI, and it does not
    count against the limit: the record of the connection stays as it was. *)
Theorem rate_limited_message B config w now later socketId data st name text :
  registered_name socketId st = Some name ->
  string_field data "text" = Some text ->
  1 <= strlen (sanitize B text) <= 1000 ->
  messagesPerMinute config
  <= Z.of_nat (length (in_window now (recorded socketId (rateLimitMap st)))) ->
  let r := on_message B config w now later socketId data st in
  snd r = [SocketEmit socketId
             (MessageBlocked None (sanitize B text)
                "Rate limit exceeded. Please slow down." None now)]
  /\ recorded socketId (rateLimitMap (fst r)) = recorded socketId (rateLimitMap st)
  /\ conversationHistoryMap (fst r) = conversationHistoryMap st
  /\ deferred (fst r) = deferred st.
Proof.
  intros Hn Ht Hlen Hfull. cbv zeta. unfold on_message. rewrite Hn, Ht.
  destruct (strlen (sanitize B text) =? 0)%Z eqn:H0; [apply Z.eqb_eq in H0; lia|].
  destruct (1000 <? strlen (sanitize B text))%Z eqn:H1; [apply Z.ltb_lt in H1; lia|].
  apply checkRateLimit_reject in Hfull as [Hrej Hrec].
  destruct (checkRateLimit config now socketId (rateLimitMap st)) as [allowed rateMap].
  cbn [fst snd] in Hrej, Hrec. subst allowed. cbn [negb fst snd rateLimitMap
    conversationHistoryMap deferred]. done.
Qed.

Lemma rate_limited_message_witness :
  snd (on_message sample_builtins config_limit_2 quiet_world 3000 3005 "abc"
         (text_payload "three")
         (state_after sample_builtins config_limit_2
            [ (quiet_world, RegisterUsername "abc" (username_payload "Ann") 1000);
              (quiet_world, Message "abc" (text_payload "one") 1500 1505);
              (quiet_world, Message "abc" (text_payload "two") 2000 2005) ]))
  = [SocketEmit "abc"
       (MessageBlocked None "three" "Rate limit exceeded. Please slow down." None 3000)].
Proof.
  refine (proj1 (rate_limited_message sample_builtins config_limit_2 quiet_world 3000 3005
                   "abc" (text_payload "three")
                   (state_after sample_builtins config_limit_2
                      [ (quiet_world, RegisterUsername "abc" (username_payload "Ann") 1000);
                        (quiet_world, Message "abc" (text_payload "one") 1500 1505);
                        (quiet_world, Message "abc" (text_payload "two") 2000 2005) ])
                   "Ann" "three" _ _ _ _)).
  - vm_compute. reflexivity.
  - vm_compute. reflexivity.
  - vm_compute. split; discriminate.
  - vm_compute. discriminate.
Defined.

(** ** Outcomes of moderation *)

(** Where an outcome of [moderateText] comes from: it is one of the
    outcomes built for an empty text, a failed call or an unusable reply,
    which report no scores, or it is the outcome [decide_scores] computes
    from some scores. *)
Lemma parseModerationResponse_outcome (P : Outcome -> Prop) B config :
  (forall o, isBlocked o = false -> reason o ∈ fallback_reasons ->
             reported_scores o = None -> P o) ->
  (forall scores o, decide_scores B config scores = Ok o -> P o) ->
  forall apiResponse o, parseModerationResponse B config apiResponse = Ok o -> P o.
Proof.
  intros Hfall Hdec apiResponse o. unfold parseModerationResponse.
  assert (Hunexpected : forall v, P (unexpected_response v)).
  { intros v. apply Hfall; [done| |done]. cbn. unfold fallback_reasons.
    do 3 apply list_elem_of_further. apply list_elem_of_here. }
  destruct apiResponse as [| |b|q|s|xs|fields]; cbn [typeof_object];
    try (intros [= <-]; apply Hunexpected); try apply Hdec.
  destruct (_ && _); [|apply Hdec].
  destruct (scores_of_pairs xs ∅) as [scores|e]; cbn [bind]; [apply Hdec|done].
Qed.

Lemma parse_data_array_outcome (P : Outcome -> Prop) B config :
  (forall o, isBlocked o = false -> reason o ∈ fallback_reasons ->
             reported_scores o = None -> P o) ->
  (forall scores o, decide_scores B config scores = Ok o -> P o) ->
  forall clientResponse dataArray o,
    parse_data_array B config clientResponse dataArray = Ok o -> P o.
Proof.
  intros Hfall Hdec clientResponse dataArray o. unfold parse_data_array.
  assert (Hunexpected : forall v, P (unexpected_response v)).
  { intros v. apply Hfall; [done| |done]. cbn. unfold fallback_reasons.
    do 3 apply list_elem_of_further. apply list_elem_of_here. }
  pose proof (parseModerationResponse_outcome P B config Hfall Hdec) as Hparse.
  destruct dataArray as [| |b|q|s|xs|fields]; try (intros [= <-]; apply Hunexpected).
  case_bool_decide; [intros [= <-]; apply Hunexpected|].
  destruct (negb _); [intros [= <-]; apply Hunexpected|].
  destruct (nth_or_undefined xs 1) as [| |b|q|s|ys|fields]; try apply Hparse.
  destruct (JSON_parse B s) as [moderationData|parseError]; [apply Hparse|].
  intros [= <-]. apply Hfall; [done| |done]. cbn. unfold fallback_reasons.
  do 2 apply list_elem_of_further. apply list_elem_of_here.
Qed.

Lemma parseGradioClientResponse_outcome (P : Outcome -> Prop) B config :
  (forall o, isBlocked o = false -> reason o ∈ fallback_reasons ->
             reported_scores o = None -> P o) ->
  (forall scores o, decide_scores B config scores = Ok o -> P o) ->
  forall clientResponse o,
    parseGradioClientResponse B config clientResponse = Ok o -> P o.
Proof.
  intros Hfall Hdec clientResponse o. unfold parseGradioClientResponse.
  pose proof (parse_data_array_outcome P B config Hfall Hdec clientResponse) as Hdata.
  match goal with
  | |- try_catch ?body ?handler = Ok o -> _ =>
      assert (Hbody : forall o', body = Ok o' -> P o');
      [|destruct body as [o'|e] eqn:Hb; cbn [try_catch]]
  end.
  - intros o'.
    destruct (if truthy clientResponse then _ else None) as [dataArray|];
      [apply Hdata|].
    destruct (isArray clientResponse); [apply Hdata|].
    destruct (stringify_prefix clientResponse); cbn [bind]; [|done].
    intros [= <-]. apply Hfall; [done| |done]. cbn. unfold fallback_reasons.
    do 3 apply list_elem_of_further. apply list_elem_of_here.
  - intros [= <-]. by apply Hbody.
  - destruct (stringify_prefix clientResponse); cbn [bind]; [|done].
    intros [= <-]. apply Hfall; [done| |done]. cbn. unfold fallback_reasons.
    do 2 apply list_elem_of_further. apply list_elem_of_here.
Qed.

Lemma moderateText_outcome (P : Outcome -> Prop) B config :
  (forall o, isBlocked o = false -> reason o ∈ fallback_reasons ->
             reported_scores o = None -> P o) ->
  (forall scores o, decide_scores B config scores = Ok o -> P o) ->
  forall w text o, moderateText B config w text = Ok o -> P o.
Proof.
  intros Hfall Hdec w text o. unfold moderateText.
  destruct (_ || _).
  { intros [= <-]. apply Hfall; [done| |done]. cbn. apply list_elem_of_here. }
  match goal with
  | |- try_catch ?body ?handler = Ok o -> _ =>
      assert (Hbody : forall o', body = Ok o' -> P o');
      [|destruct body as [o'|e] eqn:Hb; cbn [try_catch]]
  end.
  - intros o'. destruct (isSpaceAPI config).
    + destruct (gradio_connect w) as [client|e]; cbn [bind]; [|done].
      destruct (gradio_predict w text (saferValueOf config)) as [result|e]; cbn [bind]; [|done].
      by apply parseGradioClientResponse_outcome.
    + destruct (inference_post w (apiUrl config) text) as [data|e]; cbn [bind]; [|done].
      by apply parseModerationResponse_outcome.
  - intros [= <-]. by apply Hbody.
  - intros [= <-]. apply Hfall; [done| |done]. cbn. unfold fallback_reasons.
    apply list_elem_of_further, list_elem_of_here.
Qed.

(** The outcome [decide_scores] computes: it reports what the scan of the
    catalog found, and its reason goes with its verdict. *)
Lemma decide_scores_outcome B config scores o :
  decide_scores B config scores = Ok o ->
  exists cs m c,
    scan_categories scores ([], 0%Q, None) toxicCategories = Ok (cs, m, c)
    /\ reported_scores o = Some (cs, m, c)
    /\ (if isBlocked o then String.prefix "Blocked" (reason o) = true else reason o = "OK").
Proof.
  unfold decide_scores.
  destruct (scan_categories scores ([], 0%Q, None) toxicCategories) as [[[cs m] c]|e];
    cbn [bind]; [|done].
  destruct (get_prop scores "is_flagged") as [flagged|e]; cbn [bind]; [|done].
  destruct (get_prop scores "is_safer_flagged") as [saferFlagged|e]; cbn [bind]; [|done].
  destruct (has_prop "is_flagged" scores) as [a|e]; cbn [bind]; [|done].
  destruct (if a then Ok true else has_prop "is_safer_flagged" scores) as [hasFlags|e];
    cbn [bind]; [|done].
  destruct (first_truthy scores ok_keys (JNum 0)) as [okScore|e]; cbn [bind]; [|done].
  intros [= <-]. exists cs, m, c. split; [done|]. split; [done|].
  cbn [isBlocked reason].
  destruct (if hasFlags then _ else _); [|done].
  destruct hasFlags; [|done].
  by destruct (is_true flagged), (is_true saferFlagged).
Qed.

(** The scan of the catalog keeps the scores consistent. *)
Lemma scan_category_consistent scores cs m c category cs' m' c' :
  scan_category scores (cs, m, c) category = Ok (cs', m', c') ->
  (0 <= m)%Q ->
  Forall (fun p => (snd p <= m)%Q) cs ->
  match c with
  | Some category => (0 < m)%Q /\ (category, m) ∈ cs
  | None => (m == 0)%Q
  end ->
  (exists ext, cs' = (cs ++ ext)%list /\ sublist (map fst ext) [category])
  /\ (0 <= m')%Q
  /\ Forall (fun p => (snd p <= m')%Q) cs'
  /\ match c' with
     | Some category => (0 < m')%Q /\ (category, m') ∈ cs'
     | None => (m' == 0)%Q
     end.
Proof.
  unfold scan_category. intros Hscan Hnn Hall Hc.
  assert (Hsame : (exists ext, cs = (cs ++ ext)%list /\ sublist (map fst ext) [category])
                  /\ (0 <= m)%Q
                  /\ Forall (fun p => (snd p <= m)%Q) cs
                  /\ match c with
                     | Some category => (0 < m)%Q /\ (category, m) ∈ cs
                     | None => (m == 0)%Q
                     end).
  { split; [|done]. exists []. split; [by rewrite app_nil_r|apply sublist_nil_l]. }
  destruct (first_truthy scores (category_keys category) (JNum 0)) as [score|e];
    cbn [bind] in Hscan; [|done].
  destruct score as [| |b|q|s|xs|fields]; try (by simplify_eq).
  destruct (negb _); [|by simplify_eq].
  destruct (Qltb m q) eqn:Hlt.
  - assert (Heq : cs' = (cs ++ [(category, q)])%list /\ m' = q /\ c' = Some category)
      by (by inversion Hscan).
    destruct Heq as (-> & -> & ->). clear Hscan.
    apply Qltb_true in Hlt.
    split; [exists [(category, q)]; by split|].
    split; [apply Qlt_le_weak; eapply Qle_lt_trans; eauto|].
    split.
    + apply Forall_app. split.
      * eapply Forall_impl; [exact Hall|]. cbn. intros p Hp.
        apply Qlt_le_weak. eapply Qle_lt_trans; eauto.
      * constructor; [cbn; apply Qle_refl|constructor].
    + split; [eapply Qle_lt_trans; eauto|]. apply elem_of_app. right. apply list_elem_of_here.
  - assert (Heq : cs' = (cs ++ [(category, q)])%list /\ m' = m /\ c' = c)
      by (by inversion Hscan).
    destruct Heq as (-> & -> & ->). clear Hscan.
    apply Qltb_false in Hlt.
    split; [exists [(category, q)]; by split|].
    split; [done|]. split.
    + apply Forall_app. split; [done|]. constructor; [done|constructor].
    + destruct c as [category'|]; [|done].
      destruct Hc as [Hpos Hin]. split; [done|]. apply elem_of_app. by left.
Qed.

Lemma scan_categories_consistent scores categories :
  forall cs m c cs' m' c',
    scan_categories scores (cs, m, c) categories = Ok (cs', m', c') ->
    (0 <= m)%Q ->
    Forall (fun p => (snd p <= m)%Q) cs ->
    match c with
    | Some category => (0 < m)%Q /\ (category, m) ∈ cs
    | None => (m == 0)%Q
    end ->
    (exists ext, cs' = (cs ++ ext)%list /\ sublist (map fst ext) categories)
    /\ (0 <= m')%Q
    /\ Forall (fun p => (snd p <= m')%Q) cs'
    /\ match c' with
       | Some category => (0 < m')%Q /\ (category, m') ∈ cs'
       | None => (m' == 0)%Q
       end.
Proof.
  induction categories as [|category rest IH]; intros cs m c cs' m' c' Hscan Hnn Hall Hc.
  - cbn in Hscan. simplify_eq. split; [|done].
    exists []. split; [by rewrite app_nil_r|done].
  - cbn [scan_categories] in Hscan.
    destruct (scan_category scores (cs, m, c) category) as [[[cs1 m1] c1]|e] eqn:H1;
      cbn [bind] in Hscan; [|done].
    destruct (scan_category_consistent _ _ _ _ _ _ _ _ H1 Hnn Hall Hc)
      as ((e1 & -> & Hsub1) & Hnn1 & Hall1 & Hc1).
    destruct (IH _ _ _ _ _ _ Hscan Hnn1 Hall1 Hc1) as ((e2 & -> & Hsub2) & Hrest).
    split; [|exact Hrest].
    exists (e1 ++ e2)%list. split; [by rewrite app_assoc|].
    rewrite map_app. change (category :: rest) with ([category] ++ rest)%list.
    by apply sublist_app.
Qed.

(** X13: [moderateText] always returns an outcome, and the reason of the
    outcome fits its verdict. When scores are reported the reason is OK for
    a text that passes and begins with Blocked for one that is blocked; when
    none are reported (empty text, failed call, unusable reply) the text
    passes under one of the four fallback reasons. So no outcome blocks
    without scores. *)
Theorem moderateText_reason_fits B config w text :
  exists o, moderateText B config w text = Ok o /\ reason_fits o.
Proof.
  destruct (moderateText_returns B config w text) as [o Ho]. exists o. split; [done|].
  revert Ho. apply moderateText_outcome.
  - intros o' Hb Hr Hs. unfold reason_fits. by rewrite Hs.
  - intros scores o' Hdec.
    destruct (decide_scores_outcome B config scores o' Hdec) as (cs & m & c & _ & Hrep & Hfit).
    unfold reason_fits. by rewrite Hrep.
Qed.

(** X14: the scores an outcome of [moderateText] reports are consistent.
    They are listed in the order of the catalog, at most one per category;
    none exceeds the reported maximum; the reported category, when there is
    one, is that of a listed score equal to the maximum, which is then
    positive; and when there is none the maximum is 0. *)
Theorem reported_scores_consistent B config w text o scores maxScore maxCategory :
  moderateText B config w text = Ok o ->
  reported_scores o = Some (scores, maxScore, maxCategory) ->
  scores_consistent scores maxScore maxCategory.
Proof.
  intros Ho. revert scores maxScore maxCategory. revert Ho.
  apply (moderateText_outcome
           (fun o => forall scores maxScore maxCategory,
                reported_scores o = Some (scores, maxScore, maxCategory) ->
                scores_consistent scores maxScore maxCategory)).
  - intros o' _ _ Hs scores maxScore maxCategory Hrep. congruence.
  - intros v o' Hdec scores maxScore maxCategory Hrep.
    destruct (decide_scores_outcome B config v o' Hdec) as (cs & m & c & Hscan & Hrep' & _).
    rewrite Hrep in Hrep'. simplify_eq.
    destruct (scan_categories_consistent v toxicCategories [] 0%Q None cs m c Hscan)
      as ((ext & Hext & Hsub) & _ & Hall & Hc); [done|constructor|done|].
    cbn in Hext. subst ext. by split.
Qed.

Lemma reported_scores_consistent_witness :
  scores_consistent
    (map (fun category => (category, if String.eqb category "hate" then 0.9%Q else 0%Q))
       toxicCategories)
    0.9%Q (Some "hate").
Proof.
  refine (reported_scores_consistent sample_builtins sample_config flagging_world "bad words"
            {| isBlocked := true;
               reason := "Blocked due to hate (score: 0.9000)";
               details :=
                 D_scores
                   (map (fun category =>
                           (category, if String.eqb category "hate" then 0.9%Q else 0%Q))
                      toxicCategories)
                   0.9%Q (Some "hate") (JNum 0) (Fin 0.5) None None |}
            _ _ _ _ _).
  - vm_compute. reflexivity.
  - reflexivity.
Defined.

(** ** The status shown with a broadcast message *)

(** A message broadcast by one handler carries the reason and the details
    of an outcome of [moderateText] that does not block. *)
Lemma step_broadcast_status B config w ev st m :
  m ∈ broadcast_messages (snd (step B config w ev st)) ->
  exists o,
    moderateText B config w (msg_text m) = Ok o
    /\ isBlocked o = false
    /\ moderationStatus m = Some (reason o)
    /\ msg_details m = Some (details o).
Proof.
  destruct ev as [socketId data now|socketId data now later|socketId|now later]; cbn [step].
  - unfold on_register_username. break_handler; cbn; intros Hm; by apply elem_of_nil in Hm.
  - unfold on_message. break_handler; cbn; intros Hm;
      try (by apply elem_of_nil in Hm).
    apply list_elem_of_singleton in Hm. subst m. cbn. by eexists.
  - cbn. intros Hm. by apply elem_of_nil in Hm.
  - destruct (deferred st) as [|task rest]; [cbn; intros Hm; by apply elem_of_nil in Hm|].
    unfold generateAndBroadcastAIResponse. break_handler; cbn; intros Hm;
      try (by apply elem_of_nil in Hm).
    apply list_elem_of_singleton in Hm. subst m. cbn. by eexists.
Qed.

(** X15: every message broadcast in a run shows a moderation status and
    details that go together: the status is OK when the details report
    scores, and one of the four fallback reasons (empty message, API error,
    parse error, unexpected response) when they do not. No broadcast
    message shows a reason that begins with Blocked. *)
Theorem broadcast_status_fits B config evs m :
  m ∈ broadcast_messages (snd (run B config evs initial_state)) ->
  exists status d,
    moderationStatus m = Some status
    /\ msg_details m = Some d
    /\ match d with
       | D_scores _ _ _ _ _ _ _ => status = "OK"
       | _ => status ∈ fallback_reasons
       end.
Proof.
  induction evs as [|[w ev] evs IH] using rev_ind.
  - cbn. intros Hm. by apply elem_of_nil in Hm.
  - rewrite run_snoc_effects. unfold broadcast_messages. rewrite omap_app.
    intros [Hm|Hm]%elem_of_app; [by apply IH|].
    apply step_broadcast_status in Hm as (o & Ho & Hpass & Hstatus & Hdetails).
    exists (reason o), (details o). split; [done|]. split; [done|].
    revert Hpass. revert Ho.
    apply (moderateText_outcome
             (fun o => isBlocked o = false ->
                       match details o with
                       | D_scores _ _ _ _ _ _ _ => reason o = "OK"
                       | _ => reason o ∈ fallback_reasons
                       end)).
    + intros o' _ Hr Hs _. unfold reported_scores in Hs. by destruct (details o').
    + intros scores o' Hdec Hpass.
      destruct (decide_scores_outcome B config scores o' Hdec)
        as (cs & m' & c & _ & Hrep & Hfit).
      rewrite Hpass in Hfit. unfold reported_scores in Hrep. by destruct (details o').
Qed.

Lemma broadcast_status_fits_witness :
  exists status d,
    Some "API_ERROR" = Some status
    /\ Some (D_api_error "Network Error") = Some d
    /\ match d with
       | D_scores _ _ _ _ _ _ _ => status = "OK"
       | _ => status ∈ fallback_reasons
       end.
Proof.
  refine (broadcast_status_fits sample_builtins sample_config
            [ (quiet_world, RegisterUsername "abc" (username_payload "Ann") 1000);
              (offline_world, Message "abc" (text_payload "hello") 2000 2005) ]
            {| msg_id := "abc-2005"; msg_text := "hello"; msg_author := "Ann";
               msg_timestamp := 2005; moderationStatus := Some "API_ERROR";
               msg_details := Some (D_api_error "Network Error");
               isAI := false |} _).
  vm_compute. apply list_elem_of_here.
Defined.

(** ** The AI agent switched off, or without a key *)

Lemma step_ai_disabled B config w ev st :
  ai_enabled config = false ->
  aiResponseRateLimitMap st = ∅ ->
  Forall (fun e => ai_effect e = false) (snd (step B config w ev st))
  /\ aiResponseRateLimitMap (fst (step B config w ev st)) = ∅.
Proof.
  intros Hen Hempty.
  destruct ev as [socketId data now|socketId data now later|socketId|now later]; cbn [step].
  - rewrite on_register_ai_record. split; [|done].
    unfold on_register_username. rewrite Hen. break_handler; repeat constructor.
  - rewrite on_message_ai_record. split; [|done].
    unfold on_message. break_handler; repeat constructor.
  - cbn. split; [constructor|]. rewrite Hempty. apply delete_empty.
  - destruct (deferred st) as [|task rest]; [cbn; split; [constructor|done]|].
    unfold generateAndBroadcastAIResponse. rewrite Hen. cbn. split; [constructor|done].
Qed.

(** X16: with the AI agent switched off, a run never calls
    [generateGreeting] or [generateAIResponse], never delivers a message
    marked as the AI's, and never writes to the record of AI turns. *)
Theorem ai_disabled_is_silent B config evs :
  ai_enabled config = false ->
  Forall (fun e => ai_effect e = false) (snd (run B config evs initial_state))
  /\ aiResponseRateLimitMap (state_after B config evs) = ∅.
Proof.
  intros Hen. induction evs as [|[w ev] evs [IHout IHmap]] using rev_ind.
  - split; [constructor|done].
  - rewrite run_snoc_effects, state_after_snoc.
    destruct (step_ai_disabled B config w ev (state_after B config evs) Hen IHmap)
      as [Hout Hmap].
    split; [by apply Forall_app|done].
Qed.

Lemma ai_disabled_is_silent_witness :
  Forall (fun e => ai_effect e = false)
    (snd (run sample_builtins config_ai_disabled
            [ (answering_world "hello", RegisterUsername "abc" (username_payload "Ann") 1000);
              (answering_world "hello", Message "abc" (text_payload "hi") 2000 2005);
              (answering_world "hello", RunDeferred 2006 2010) ]
            initial_state)).
Proof.
  refine (proj1 (ai_disabled_is_silent sample_builtins config_ai_disabled
                   [ (answering_world "hello",
                      RegisterUsername "abc" (username_payload "Ann") 1000);
                     (answering_world "hello", Message "abc" (text_payload "hi") 2000 2005);
                     (answering_world "hello", RunDeferred 2006 2010) ] _)).
  reflexivity.
Defined.

(** Without a key no request leaves [callOpenAIAPI]. *)
Lemma provider_text_no_key config w messages :
  ai_apiKey config = "" ->
  provider_text config w messages
  = Throw (mkError "OPENAI_API_KEY is required for AI responses").
Proof. intros Hkey. unfold provider_text, callOpenAIAPI. by rewrite Hkey. Qed.

(** X17: with the AI agent switched on and no API key, every greeting is
    the fallback greeting, whatever the provider would have answered, and no
    run ever broadcasts a message of the AI: every AI turn fails inside
    [generateAIResponse] and is dropped. *)
Theorem missing_key_degrades B config :
  ai_enabled config = true ->
  ai_apiKey config = "" ->
  (forall w username,
      generateGreeting config w username = Ok (Some (fallback_greeting username)))
  /\ (forall evs,
         Forall (fun m => isAI m = false)
           (broadcast_messages (snd (run B config evs initial_state)))).
Proof.
  intros Hen Hkey. split.
  - intros w username. rewrite generateGreeting_cases by done.
    by rewrite provider_text_no_key.
  - induction evs as [|[w ev] evs IH] using rev_ind; [constructor|].
    rewrite run_snoc_effects. unfold broadcast_messages. rewrite omap_app.
    apply Forall_app. split; [exact IH|].
    fold (broadcast_messages (snd (step B config w ev (state_after B config evs)))).
    destruct ev as [socketId data now|socketId data now later|socketId|now later]; cbn [step].
    + unfold on_register_username. break_handler; cbn; repeat constructor.
    + unfold on_message. break_handler; cbn; repeat constructor.
    + cbn. constructor.
    + destruct (deferred (state_after B config evs)) as [|task rest]; [cbn; constructor|].
      match goal with
      | |- context [generateAndBroadcastAIResponse B config w now later task ?s] =>
          destruct (ai_turn_cases B config w now later task s)
            as [[-> _]|(reply & o & Hreply & _)]
      end; [constructor|].
      rewrite generateAIResponse_text in Hreply by done.
      by rewrite provider_text_no_key in Hreply.
Qed.

Lemma missing_key_degrades_witness :
  generateGreeting config_no_key (answering_world "Welcome!") "Ann"
  = Ok (Some (fallback_greeting "Ann")).
Proof.
  refine (proj1 (missing_key_degrades sample_builtins config_no_key _ _)
            (answering_world "Welcome!") "Ann"); reflexivity.
Defined.

(** ** Shutdown *)

(** X18: [cleanupAllRateLimits] empties the rate records and the histories
    of all connections and keeps their names: a registered connection goes
    on sending without registering again, and its next valid message is
    accepted by the limiter (for a positive limit) and starts a new record. *)
Theorem cleanup_all_resets_quota B config w now later socketId data st name text :
  registered_name socketId st = Some name ->
  string_field data "text" = Some text ->
  1 <= strlen (sanitize B text) <= 1000 ->
  0 < messagesPerMinute config ->
  let st0 := cleanupAllRateLimits st in
  let r := on_message B config w now later socketId data st0 in
  (forall other, recorded other (rateLimitMap st0) = []
                 /\ recorded other (aiResponseRateLimitMap st0) = []
                 /\ history_of other (conversationHistoryMap st0) = []
                 /\ registered_name other st0 = registered_name other st)
  /\ moderated_texts (snd r) = [sanitize B text]
  /\ recorded socketId (rateLimitMap (fst r)) = [now].
Proof.
  intros Hn Ht Hlen Hpos. cbv zeta. split.
  - intros other. unfold cleanupAllRateLimits, recorded, history_of, registered_name.
    cbn [rateLimitMap aiResponseRateLimitMap conversationHistoryMap socketUsername].
    by rewrite !lookup_empty.
  - assert (Hn0 : registered_name socketId (cleanupAllRateLimits st) = Some name) by done.
    assert (Hrec : recorded socketId (rateLimitMap (cleanupAllRateLimits st)) = []).
    { unfold recorded. cbn. by rewrite lookup_empty. }
    destruct (checkRateLimit_accept config now socketId
                (rateLimitMap (cleanupAllRateLimits st))) as [Hacc Hnew].
    { rewrite Hrec. cbn. lia. }
    rewrite Hrec in Hnew. cbn [in_window filter app] in Hnew.
    unfold on_message. rewrite Hn0, Ht.
    destruct (strlen (sanitize B text) =? 0)%Z eqn:H0; [apply Z.eqb_eq in H0; lia|].
    destruct (1000 <? strlen (sanitize B text))%Z eqn:H1; [apply Z.ltb_lt in H1; lia|].
    destruct (checkRateLimit config now socketId (rateLimitMap (cleanupAllRateLimits st)))
      as [allowed rateMap].
    cbn [fst snd] in Hacc, Hnew. subst allowed. cbn [negb].
    destruct (moderateText B config w (sanitize B text)) as [o|e];
      [destruct (isBlocked o)|]; cbn [fst snd rateLimitMap]; by split.
Qed.

Lemma cleanup_all_resets_quota_witness :
  moderated_texts
    (snd (on_message sample_builtins config_limit_2 quiet_world 3000 3005 "abc"
            (text_payload "three")
            (cleanupAllRateLimits
               (state_after sample_builtins config_limit_2
                  [ (quiet_world, RegisterUsername "abc" (username_payload "Ann") 1000);
                    (quiet_world, Message "abc" (text_payload "one") 1500 1505);
                    (quiet_world, Message "abc" (text_payload "two") 2000 2005) ]))))
  = ["three"].
Proof.
  refine (proj1 (proj2 (cleanup_all_resets_quota sample_builtins config_limit_2 quiet_world
                          3000 3005 "abc" (text_payload "three")
                          (state_after sample_builtins config_limit_2
                             [ (quiet_world,
                                RegisterUsername "abc" (username_payload "Ann") 1000);
                               (quiet_world, Message "abc" (text_payload "one") 1500 1505);
                               (quiet_world, Message "abc" (text_payload "two") 2000 2005) ])
                          "Ann" "three" _ _ _ _))).
  - vm_compute. reflexivity.
  - vm_compute. reflexivity.
  - vm_compute. split; discriminate.
  - vm_compute. reflexivity.
Defined.

(** ** The safety parameter *)

Lemma clamp_safer_range x :
  exists q, clamp_safer (Fin x) = Fin q /\ (0.005 <= q)%Q /\ (q <= 0.1)%Q.
Proof.
  unfold clamp_safer, Math_max, Math_min.
  destruct (Qltb x 0.1) eqn:Hhi.
  - apply Qltb_true in Hhi. destruct (Qltb 0.005 x) eqn:Hlo.
    + apply Qltb_true in Hlo. exists x. split; [done|].
      split; by apply Qlt_le_weak.
    + exists 0.005%Q. split; [done|]. split; [apply Qle_refl|done].
  - destruct (Qltb 0.005 0.1) eqn:Hlo; [|done].
    exists 0.1%Q. split; [done|]. split; [done|apply Qle_refl].
Qed.

(** X19: the safety parameter sent to the Space is a number between 0.005
    and 0.1, whatever the threshold is (even [NaN]) and whatever number the
    override is. Only an override that is not a number gets through, as
    [NaN]. *)
Theorem saferValueOf_in_range config :
  match saferValue config with
  | Some NaN => saferValueOf config = NaN
  | _ => exists q, saferValueOf config = Fin q /\ (0.005 <= q)%Q /\ (q <= 0.1)%Q
  end.
Proof.
  destruct (saferValue config) as [[|sv]|] eqn:Hsv.
  - unfold saferValueOf. by rewrite Hsv.
  - rewrite (saferValueOf_override config (Fin sv) Hsv). apply clamp_safer_range.
  - destruct (num_truthy (threshold config)) eqn:Ht.
    + rewrite (saferValueOf_derived config Hsv Ht). unfold derived_safer.
      destruct (threshold config) as [|t]; [done|]. apply clamp_safer_range.
    + rewrite (saferValueOf_falsy config Hsv Ht). apply clamp_safer_range.
Qed.

(** ** The chat-completion provider *)

(** X20: a text comes back from the provider only when there is an API
    key and the request was answered with a body; it is the content of the
    first choice or, failing that, the top-level content, and it is never
    empty. Conversely a non-empty content of the first choice is returned as
    it is. Every other answer (no body, an error status, no response, a
    failed request) is an error. *)
Theorem provider_text_ok config w messages :
  (forall text,
      provider_text config w messages = Ok text ->
      text <> ""
      /\ ai_apiKey config <> ""
      /\ exists data,
           openai_post w messages = AxiosData (Some data)
           /\ (head (choices data) = Some (Some text)
               \/ (content data = Some text
                   /\ (head (choices data) = None \/ head (choices data) = Some None
                       \/ head (choices data) = Some (Some "")))))
  /\ (forall data text,
         ai_apiKey config <> "" ->
         openai_post w messages = AxiosData (Some data) ->
         head (choices data) = Some (Some text) ->
         text <> "" ->
         provider_text config w messages = Ok text).
Proof.
  split.
  - intros text. unfold provider_text, callOpenAIAPI.
    destruct (String.eqb_spec (ai_apiKey config) "") as [Hkey|Hkey]; [done|].
    destruct (openai_post w messages) as [[data|]|status retryAfter errorMessage|code msg|msg];
      cbn [bind].
    + unfold parseOpenAIResponse, nonempty.
      assert (Hcontent : forall text,
                 match match content data with
                       | Some c => if String.eqb c "" then None else Some c
                       | None => None
                       end with
                 | Some text => Ok text
                 | None => Throw (mkError "Unable to parse OpenAI response. Unexpected response format.")
                 end = Ok text ->
                 text <> "" /\ content data = Some text).
      { intros t. destruct (content data) as [c|]; [|done].
        destruct (String.eqb c "") eqn:Hc; [done|].
        apply String.eqb_neq in Hc. by intros [= <-]. }
      destruct (choices data) as [|[first|] rest] eqn:Hc; cbn [head].
      * intros [Hne Hcont]%Hcontent. split; [done|]. split; [done|].
        exists data. rewrite Hc. cbn [head]. split; [done|]. right. split; [done|]. by left.
      * destruct (String.eqb first "") eqn:Hfirst.
        -- apply String.eqb_eq in Hfirst. subst first.
           intros [Hne Hcont]%Hcontent. split; [done|]. split; [done|].
           exists data. rewrite Hc. cbn [head]. split; [done|]. right. split; [done|].
           right. by right.
        -- apply String.eqb_neq in Hfirst. intros [= <-]. split; [done|]. split; [done|].
           exists data. rewrite Hc. cbn [head]. split; [done|]. by left.
      * intros [Hne Hcont]%Hcontent. split; [done|]. split; [done|].
        exists data. rewrite Hc. cbn [head]. split; [done|]. right. split; [done|].
        right. by left.
    + done.
    + by repeat (destruct (_ =? _)%Z || destruct (_ <=? _)%Z; cbn [orb bind]).
    + by destruct (_ || _).
    + by destruct (negb _).
  - intros data text Hkey Hpost Hhead Hne. unfold provider_text, callOpenAIAPI.
    destruct (String.eqb_spec (ai_apiKey config) "") as [?|_]; [done|].
    rewrite Hpost. cbn [bind]. unfold parseOpenAIResponse, nonempty.
    destruct (choices data) as [|first rest]; [done|]. cbn [head] in Hhead. simplify_eq.
    apply String.eqb_neq in Hne. by rewrite Hne.
Qed.

(** ** The length of an AI reply *)

Lemma length_append (a b : string) :
  String.length (a ++ b) = (String.length a + String.length b)%nat.
Proof.
  induction a as [|c a IH]; [done|].
  change (S (String.length (a ++ b)) = S (String.length a + String.length b)).
  by rewrite IH.
Qed.

Lemma trim_start_length s : (String.length (trim_start s) <= String.length s)%nat.
Proof.
  induction s as [|c s IH]; [done|]. cbn. destruct (is_space c); cbn; lia.
Qed.

Lemma trim_end_length s : (String.length (trim_end s) <= String.length s)%nat.
Proof.
  induction s as [|c s IH]; [done|]. cbn [trim_end].
  destruct (trim_end s) as [|c' r].
  - destruct (is_space c); cbn; lia.
  - cbn in *. lia.
Qed.

Lemma trim_length s : (String.length (trim s) <= String.length s)%nat.
Proof.
  unfold trim. etrans; [apply trim_end_length|apply trim_start_length].
Qed.

Lemma substring_length n s : (String.length (String.substring 0 n s) <= n)%nat.
Proof.
  revert s. induction n as [|n IH]; intros [|c s]; cbn; try lia.
  specialize (IH s). lia.
Qed.

(** The reply made of a provider text is at most three characters longer
    than the configured maximum. *)
Lemma delivered_text_length config aiText :
  strlen (delivered_text config aiText) <= Z.max 0 (maxResponseLength config) + 3.
Proof.
  unfold delivered_text.
  destruct (Z.ltb_spec (maxResponseLength config) (strlen aiText)) as [Hlong|Hshort];
    unfold strlen in *.
  - rewrite length_append. unfold substring0.
    pose proof (trim_length (String.substring 0 (Z.to_nat (maxResponseLength config)) aiText)).
    pose proof (substring_length (Z.to_nat (maxResponseLength config)) aiText).
    cbn [String.length]. lia.
  - pose proof (trim_length aiText). lia.
Qed.

(** X21: a message of the AI that is broadcast has at least one character
    and at most the configured maximum plus three (the ellipsis), whatever
    the provider returned. *)
Theorem ai_reply_length_bound B config w now later task st m :
  m ∈ broadcast_messages (snd (generateAndBroadcastAIResponse B config w now later task st)) ->
  1 <= strlen (msg_text m) <= Z.max 0 (maxResponseLength config) + 3.
Proof.
  intros Hm.
  destruct (ai_turn_cases B config w now later task st)
    as [[Hnone _]|(reply & o & Hreply & Hblank & _ & _ & (m' & Hone & Htext & _) & _)].
  { rewrite Hnone in Hm. by apply elem_of_nil in Hm. }
  rewrite Hone in Hm. apply list_elem_of_singleton in Hm. subst m'. rewrite Htext.
  split.
  - unfold blank in Hblank. apply orb_false_iff in Hblank as [Hne _].
    apply String.eqb_neq in Hne. unfold strlen. destruct reply; [done|]. cbn. lia.
  - destruct (ai_enabled config) eqn:Hen.
    + rewrite generateAIResponse_text in Hreply by done.
      destruct (provider_text config w _) as [aiText|e]; cbn [bind] in Hreply; [|done].
      injection Hreply as <-. apply delivered_text_length.
    + destruct (generateAIResponse_disabled config w (task_message task)
                  (task_moderation task)
                  (history_of (task_socket task) (conversationHistoryMap st))
                  (task_blocked task) Hen) as [e He].
      congruence.
Qed.

Lemma ai_reply_length_bound_witness :
  1 <= strlen "hel..." <= Z.max 0 3 + 3.
Proof.
  refine (ai_reply_length_bound sample_builtins config_short_replies
            (answering_world "hello world") 1000 1005 sample_task initial_state
            {| msg_id := "ai-abc-1005"; msg_text := "hel..."; msg_author := AI_AUTHOR_NAME;
               msg_timestamp := 1005; moderationStatus := Some "OK";
               msg_details := Some (D_scores (map (fun c => (c, 0%Q)) toxicCategories)
                                      0 None (JNum 0) (Fin 0.5) None None);
               isAI := true |} _).
  vm_compute. apply list_elem_of_here.
Defined.

(** ** Blocked messages *)

(** An outcome of [moderateText] that blocks has the details of a scored
    response. *)
Lemma blocked_outcome_has_scores B config w text o :
  moderateText B config w text = Ok o ->
  isBlocked o = true ->
  exists cs m c ok t fl sfl, details o = D_scores cs m c ok t fl sfl.
Proof.
  apply (moderateText_outcome
           (fun o => isBlocked o = true ->
                     exists cs m c ok t fl sfl, details o = D_scores cs m c ok t fl sfl)).
  - intros o' Hb _ _ Hb'. congruence.
  - intros scores o' Hdec _.
    destruct (decide_scores_outcome B config scores o' Hdec) as (cs & m & c & _ & Hrep & _).
    unfold reported_scores in Hrep.
    destruct (details o') as [| | | | |cs' m' c' ok t fl sfl]; try done.
    by exists cs', m', c', ok, t, fl, sfl.
Qed.

(** X22: a message that moderation blocks is answered by one block notice
    to its sender, with an id, the reason and the details; it is not
    broadcast and not added to the history. One AI turn is queued for it,
    marked as blocked, and the request of that turn ends with a user turn
    that quotes the blocked text and names the detected category: the
    blocked text does reach the chat-completion provider. *)
Theorem blocked_message_handling B config w now later socketId data st name text o :
  registered_name socketId st = Some name ->
  string_field data "text" = Some text ->
  1 <= strlen (sanitize B text) <= 1000 ->
  fst (checkRateLimit config now socketId (rateLimitMap st)) = true ->
  moderateText B config w (sanitize B text) = Ok o ->
  isBlocked o = true ->
  let r := on_message B config w now later socketId data st in
  let task := mkTask socketId (sanitize B text) o true in
  snd r = [ CallModeration (sanitize B text);
            SocketEmit socketId
              (MessageBlocked (Some (message_id socketId later)) (sanitize B text)
                 (reason o) (Some (details o)) later) ]
  /\ conversationHistoryMap (fst r) = conversationHistoryMap st
  /\ deferred (fst r) = (deferred st ++ [task])%list
  /\ forall st', last (task_messages config task st')
                 = Some (blocked_user_turn (sanitize B text) (details o)).
Proof.
  intros Hn Ht Hlen Hacc Ho Hb. cbv zeta.
  split; [|split; [|split]].
  - unfold on_message. rewrite Hn, Ht.
    destruct (strlen (sanitize B text) =? 0)%Z eqn:H0; [apply Z.eqb_eq in H0; lia|].
    destruct (1000 <? strlen (sanitize B text))%Z eqn:H1; [apply Z.ltb_lt in H1; lia|].
    destruct (checkRateLimit config now socketId (rateLimitMap st)) as [allowed rateMap].
    cbn [fst] in Hacc. subst allowed. cbn [negb]. by rewrite Ho, Hb.
  - by apply (on_message_blocked_history B config w now later socketId data st text o).
  - unfold on_message. rewrite Hn, Ht.
    destruct (strlen (sanitize B text) =? 0)%Z eqn:H0; [apply Z.eqb_eq in H0; lia|].
    destruct (1000 <? strlen (sanitize B text))%Z eqn:H1; [apply Z.ltb_lt in H1; lia|].
    destruct (checkRateLimit config now socketId (rateLimitMap st)) as [allowed rateMap].
    cbn [fst] in Hacc. subst allowed. cbn [negb]. by rewrite Ho, Hb.
  - intros st'.
    destruct (blocked_outcome_has_scores B config w (sanitize B text) o Ho Hb)
      as (cs & m & c & ok & t & fl & sfl & Hd).
    unfold task_messages, buildMessages. cbn [task_message task_moderation task_blocked].
    rewrite Hd. rewrite app_assoc. by rewrite last_snoc.
Qed.

Lemma blocked_message_handling_witness :
  snd (on_message sample_builtins sample_config flagging_world 2000 2005 "abc"
         (text_payload "bad words")
         (state_after sample_builtins sample_config
            [(quiet_world, RegisterUsername "abc" (username_payload "Ann") 1000)]))
  = [ CallModeration "bad words";
      SocketEmit "abc"
        (MessageBlocked (Some "abc-2005") "bad words" "Blocked due to hate (score: 0.9000)"
           (Some (D_scores
                    (map (fun category =>
                            (category, if String.eqb category "hate" then 0.9%Q else 0%Q))
                       toxicCategories)
                    0.9%Q (Some "hate") (JNum 0) (Fin 0.5) None None))
           2005) ].
Proof.
  refine (proj1 (blocked_message_handling sample_builtins sample_config flagging_world
                   2000 2005 "abc" (text_payload "bad words")
                   (state_after sample_builtins sample_config
                      [(quiet_world, RegisterUsername "abc" (username_payload "Ann") 1000)])
                   "Ann" "bad words"
                   {| isBlocked := true;
                      reason := "Blocked due to hate (score: 0.9000)";
                      details :=
                        D_scores
                          (map (fun category =>
                                  (category,
                                   if String.eqb category "hate" then 0.9%Q else 0%Q))
                             toxicCategories)
                          0.9%Q (Some "hate") (JNum 0) (Fin 0.5) None None |}
                   _ _ _ _ _ _)).
  - vm_compute. reflexivity.
  - vm_compute. reflexivity.
  - vm_compute. split; discriminate.
  - vm_compute. reflexivity.
  - vm_compute. reflexivity.
  - reflexivity.
Defined.

(** ** Threshold recommendation *)

(** The number of ten-thousandths nearest to [|x|]. *)
Lemma round4_numerator_nonneg x : 0 <= Qfloor (Qabs x * 10000 + (1 # 2))%Q.
Proof.
  change 0 with (Qfloor 0). apply Qfloor_resp_le.
  pose proof (Qabs_nonneg x) as Habs.
  apply (Qle_trans _ (0 * 10000 + (1 # 2))%Q); [done|].
  apply Qplus_le_compat; [|apply Qle_refl].
  by apply Qmult_le_compat_r.
Qed.

Lemma ten_thousandths_le (n1 n2 : Z) : n1 <= n2 -> (n1 # 10000 <= n2 # 10000)%Q.
Proof. intros H. unfold Qle, Qnum, Qden. lia. Qed.

(** Rounding to four decimals is monotone. *)
Lemma round4_mono x y : (x <= y)%Q -> (round4 x <= round4 y)%Q.
Proof.
  intros Hxy. unfold round4.
  pose proof (round4_numerator_nonneg x) as Hnx.
  pose proof (round4_numerator_nonneg y) as Hny.
  destruct (Qle_bool 0 x) eqn:Hx, (Qle_bool 0 y) eqn:Hy.
  - apply Qle_bool_iff in Hx, Hy. apply ten_thousandths_le, Qfloor_resp_le.
    rewrite (Qabs_pos x Hx), (Qabs_pos y Hy).
    apply Qplus_le_compat; [|apply Qle_refl]. by apply Qmult_le_compat_r.
  - apply Qle_bool_iff in Hx.
    assert (Hno : ~ (0 <= y)%Q) by (intros H%Qle_bool_iff; congruence).
    exfalso. apply Hno. by apply (Qle_trans _ x).
  - apply (Qle_trans _ (0 # 10000)); [|by apply ten_thousandths_le].
    apply (Qle_trans _ (- (0 # 10000))); [|done].
    by apply Qopp_le_compat, ten_thousandths_le.
  - assert (Hx' : (x <= 0)%Q).
    { apply Qnot_lt_le. intros H. apply Qlt_le_weak, Qle_bool_iff in H. congruence. }
    assert (Hy' : (y <= 0)%Q).
    { apply Qnot_lt_le. intros H. apply Qlt_le_weak, Qle_bool_iff in H. congruence. }
    apply Qopp_le_compat, ten_thousandths_le, Qfloor_resp_le.
    rewrite (Qabs_neg x Hx'), (Qabs_neg y Hy').
    apply Qplus_le_compat; [|apply Qle_refl].
    apply Qmult_le_compat_r; [by apply Qopp_le_compat|done].
Qed.

(** X23: the threshold the feedback analysis recommends. With more than
    20 percent of false positives the recommendation is the current
    threshold raised by a tenth but capped at 0.1, so for any current
    threshold above 0.1 it is 0.1, lower than the current one, although the
    reason given is that the threshold is too strict. Otherwise, with more
    than 10 percent of false negatives, it is the current threshold lowered
    by a tenth but at least 0.005. Otherwise it is the current threshold,
    rounded to four decimals. *)
Theorem threshold_recommendation_capped falsePositiveRate falseNegativeRate currentThreshold :
  let r := calculateThresholdRecommendation falsePositiveRate falseNegativeRate
             currentThreshold in
  ((20 < falsePositiveRate)%Q ->
   rec_reason r = "High false positive rate (" ++ toFixed1 falsePositiveRate
                  ++ "%) suggests threshold is too strict"
   /\ (rec_recommended r <= 0.1)%Q
   /\ ((0.1 < currentThreshold)%Q ->
       (rec_recommended r == 0.1)%Q /\ (rec_recommended r < currentThreshold)%Q))
  /\ ((falsePositiveRate <= 20)%Q -> (10 < falseNegativeRate)%Q ->
      rec_reason r = "High false negative rate (" ++ toFixed1 falseNegativeRate
                     ++ "%) suggests threshold is too loose"
      /\ (0.005 <= rec_recommended r)%Q
      /\ ((currentThreshold <= 0.005)%Q -> (rec_recommended r == 0.005)%Q))
  /\ ((falsePositiveRate <= 20)%Q -> (falseNegativeRate <= 10)%Q ->
      rec_reason r = "Threshold appears balanced"
      /\ rec_recommended r = round4 currentThreshold).
Proof.
  cbv zeta. unfold calculateThresholdRecommendation.
  assert (Hcap : (round4 0.1 == 0.1)%Q) by done.
  assert (Hfloor : (round4 0.005 == 0.005)%Q) by done.
  split; [|split].
  - intros Hfp. apply Qltb_true in Hfp. rewrite Hfp. cbn [rec_recommended rec_reason].
    split; [done|].
    destruct (Qltb (currentThreshold * 1.1) 0.1) eqn:Hlow.
    + apply Qltb_true in Hlow. split.
      * rewrite <- Hcap. by apply round4_mono, Qlt_le_weak.
      * intros Hhigh. exfalso.
        assert (H : (0.1 * 1.1 < 0.1)%Q).
        { eapply Qle_lt_trans; [|exact Hlow].
          apply Qmult_le_compat_r; [by apply Qlt_le_weak|done]. }
        revert H. by vm_compute.
    + split; [by rewrite Hcap|]. intros Hhigh. split; [done|]. by rewrite Hcap.
  - intros Hfp Hfn. apply Qltb_false in Hfp. apply Qltb_true in Hfn. rewrite Hfp, Hfn.
    cbn [rec_recommended rec_reason]. split; [done|].
    destruct (Qltb 0.005 (currentThreshold * 0.9)) eqn:Hhigh.
    + apply Qltb_true in Hhigh. split.
      * rewrite <- Hfloor. by apply round4_mono, Qlt_le_weak.
      * intros Hlow. exfalso.
        assert (H : (0.005 < 0.005 * 0.9)%Q).
        { eapply Qlt_le_trans; [exact Hhigh|].
          by apply Qmult_le_compat_r. }
        revert H. by vm_compute.
    + split; [by rewrite Hfloor|]. by intros _.
  - intros Hfp Hfn. apply Qltb_false in Hfp, Hfn. by rewrite Hfp, Hfn.
Qed.

(** ** The decision and the threshold *)

(** On the same scores, what a higher threshold blocks a lower one blocks
    too. *)
Lemma decide_scores_antitone B config1 config2 t1 t2 scores o2 :
  threshold config1 = Fin t1 ->
  threshold config2 = Fin t2 ->
  (t1 <= t2)%Q ->
  decide_scores B config2 scores = Ok o2 ->
  isBlocked o2 = true ->
  exists o1, decide_scores B config1 scores = Ok o1 /\ isBlocked o1 = true.
Proof.
  intros H1 H2 Hle Hdec Hb. unfold decide_scores in *. rewrite H1. rewrite H2 in Hdec.
  destruct (scan_categories scores ([], 0%Q, None) toxicCategories) as [[[cs m] c]|e];
    cbn [bind] in *; [|done].
  destruct (get_prop scores "is_flagged") as [flagged|e]; cbn [bind] in *; [|done].
  destruct (get_prop scores "is_safer_flagged") as [saferFlagged|e]; cbn [bind] in *; [|done].
  destruct (has_prop "is_flagged" scores) as [a|e]; cbn [bind] in *; [|done].
  destruct (if a then Ok true else has_prop "is_safer_flagged" scores) as [hasFlags|e];
    cbn [bind] in *; [|done].
  destruct (first_truthy scores ok_keys (JNum 0)) as [okScore|e]; cbn [bind] in *; [|done].
  injection Hdec as <-. cbn [isBlocked] in Hb.
  eexists. split; [reflexivity|]. cbn [isBlocked].
  destruct hasFlags; [done|].
  apply orb_true_iff in Hb as [Hmax|Hok]; apply orb_true_iff.
  - left. cbn [num_ge] in *. apply Qle_bool_iff in Hmax. apply Qle_bool_iff.
    by apply (Qle_trans _ t2).
  - right. apply andb_true_iff in Hok as [Hpos Hlow]. apply andb_true_iff. split; [done|].
    destruct (ToNumber B okScore) as [|ok]; [done|]. cbn [num_sub num_lt] in *.
    apply Qltb_true in Hlow. apply Qltb_true.
    eapply Qlt_le_trans; [exact Hlow|].
    apply Qplus_le_r. by apply Qopp_le_compat.
Qed.

(** X24: the decision is antitone in the threshold. A moderation response
    that is blocked under a threshold is blocked under every lower one:
    lowering the threshold never lets through what was blocked before. *)
Theorem blocking_antitone_in_threshold B config1 config2 t1 t2 apiResponse o2 :
  threshold config1 = Fin t1 ->
  threshold config2 = Fin t2 ->
  (t1 <= t2)%Q ->
  parseModerationResponse B config2 apiResponse = Ok o2 ->
  isBlocked o2 = true ->
  exists o1, parseModerationResponse B config1 apiResponse = Ok o1 /\ isBlocked o1 = true.
Proof.
  intros H1 H2 Hle. unfold parseModerationResponse.
  pose proof (fun scores => decide_scores_antitone B config1 config2 t1 t2 scores o2 H1 H2 Hle)
    as Hdec.
  destruct apiResponse as [| |b|q|s|xs|fields]; cbn [typeof_object];
    try (intros [= <-] Hb; by cbn in Hb); try apply Hdec.
  destruct (_ && _); [|apply Hdec].
  destruct (scores_of_pairs xs ∅) as [scores|e]; cbn [bind]; [apply Hdec|done].
Qed.

Lemma blocking_antitone_in_threshold_witness :
  exists o1,
    parseModerationResponse sample_builtins config_threshold_zero
      (JObj {[ "hate" := JNum 0.9 ]}) = Ok o1
    /\ isBlocked o1 = true.
Proof.
  refine (blocking_antitone_in_threshold sample_builtins config_threshold_zero sample_config
            0 0.5 (JObj {[ "hate" := JNum 0.9 ]})
            {| isBlocked := true;
               reason := "Blocked due to hate (score: 0.9000)";
               details :=
                 D_scores
                   (map (fun category =>
                           (category, if String.eqb category "hate" then 0.9%Q else 0%Q))
                      toxicCategories)
                   0.9%Q (Some "hate") (JNum 0) (Fin 0.5) None None |}
            _ _ _ _ _).
  - reflexivity.
  - reflexivity.
  - done.
  - vm_compute. reflexivity.
  - reflexivity.
Defined.

(** ** Errors sent to clients *)

(** X25: a registration under a valid name succeeds whatever the remote
    services do: the trimmed name is stored, no error is sent, and the
    connection then passes the registration check of the message handler.
    Neither a failing provider nor a failing or blocking moderation of the
    greeting can make a registration fail. *)
Theorem valid_registration_never_fails B config w now socketId data st raw :
  string_field data "username" = Some raw ->
  valid_username raw = true ->
  let r := on_register_username B config w now socketId data st in
  registered_name socketId (fst r) = Some (trim raw)
  /\ Forall (fun e : option string * ServerEvent => is_error (snd e) = false)
       (emissions (snd r)).
Proof.
  intros Hf Hv. cbv zeta. split.
  - unfold registered_name.
    rewrite (on_register_valid B config w now socketId data st raw Hf Hv).
    rewrite lookup_insert_eq.
    pose proof (valid_username_length raw Hv) as Hlen.
    destruct (String.eqb_spec (trim raw) "") as [Heq|_]; [|done].
    rewrite Heq in Hlen. unfold strlen in Hlen. cbn in Hlen. lia.
  - unfold on_register_username. rewrite Hf.
    unfold valid_username in Hv. apply andb_true_iff in Hv as [Hne Hlen].
    apply negb_true_iff in Hne, Hlen. rewrite Hne, Hlen.
    break_handler; cbn; repeat constructor.
Qed.

Lemma valid_registration_never_fails_witness :
  registered_name "abc"
    (fst (on_register_username sample_builtins sample_config offline_world 1000 "abc"
            (username_payload " Ann ") initial_state))
  = Some "Ann".
Proof.
  refine (proj1 (valid_registration_never_fails sample_builtins sample_config offline_world
                   1000 "abc" (username_payload " Ann ") initial_state " Ann " _ _)).
  - reflexivity.
  - reflexivity.
Defined.

(** X26: the only errors the message handler ever sends are the four
    validation errors (no name set, no string text, empty text, text longer
    than 1000 characters). The generic error of its [catch] block is never
    sent, because [moderateText] does not throw. *)
Theorem message_handler_errors B config w now later socketId data st :
  Forall (fun e : option string * ServerEvent =>
            match snd e with
            | ErrorEvent msg detail => msg ∈ message_errors /\ detail = None
            | _ => True
            end)
    (emissions (snd (on_message B config w now later socketId data st))).
Proof.
  unfold on_message.
  destruct (registered_name socketId st) as [name|];
    [|cbn; repeat constructor; apply list_elem_of_here].
  destruct (string_field data "text") as [text|];
    [|cbn; repeat constructor; apply list_elem_of_further, list_elem_of_here].
  destruct (strlen (sanitize B text) =? 0)%Z;
    [cbn; repeat constructor; do 2 apply list_elem_of_further; apply list_elem_of_here|].
  destruct (1000 <? strlen (sanitize B text))%Z;
    [cbn; repeat constructor; do 3 apply list_elem_of_further; apply list_elem_of_here|].
  destruct (checkRateLimit config now socketId (rateLimitMap st)) as [allowed rateMap].
  destruct allowed; cbn [negb]; [|cbn; repeat constructor].
  destruct (moderateText_returns B config w (sanitize B text)) as [o ->].
  destruct (isBlocked o); cbn; repeat constructor.
Qed.
